(** * Step-by-step tutorial core: a shallow embedding and its properties

    The development follows the TypeScript sources:
    - [services/configParser.ts]   (ConfigParser: validateSteps, buildStepTree)
    - [services/gitService.ts]     (GitService: getDiff, parseDiffOutput)
    - [services/tutorialManager.ts] (TutorialManager: loadTutorial, navigateToStep)
    - [services/progressTracker.ts] (ProgressTracker: markStepCompleted, setCurrentStep)
    - [utils/errors.ts]            (TutorialError and its subclasses)
    - [types/index.ts]             (the record types)
    - [ui/stepTreeProvider.ts], [ui/diffViewer.ts], [extension.ts]
                                   (the views fed by the services)
    - [services/exportModule.ts]   (ExportModule: the snippet list)

    JavaScript strings are represented by their UTF-8 bytes ([string]); every
    pattern the code matches is ASCII, so matching on bytes and on code
    points agree.  External collaborators (simple-git, the file system, the
    editor window, the clock) are parameters of the model. *)

From Stdlib Require Import ZArith Ascii String List Lia.
From stdpp Require Import base list strings gmap pretty.

Open Scope string_scope.

(* ===================================================================== *)
(** * Part I: the embedding                                               *)
(* ===================================================================== *)

(** ** JavaScript primitives used by the services *)

Module JS.

(** Truthiness of a string value: only the empty string is falsy. *)
Definition truthy (s : string) : bool := negb (String.eqb s "").

(** [x || d] where [x] is a string or [undefined]. *)
Definition or_else (x : option string) (d : string) : string :=
  match x with
  | Some s => if truthy s then s else d
  | None => d
  end.

(** [x || null] where [x] is a string or [undefined]. *)
Definition or_null (x : option string) : option string :=
  match x with
  | Some s => if truthy s then Some s else None
  | None => None
  end.

(** Truthiness of a value that is a string or [null]/[undefined]. *)
Definition truthy_opt (x : option string) : bool :=
  match x with
  | Some s => truthy s
  | None => false
  end.

(** [Array.prototype.join]. *)
Fixpoint join (sep : string) (l : list string) : string :=
  match l with
  | [] => ""
  | x :: l' =>
      match l' with
      | [] => x
      | _ :: _ => x ++ sep ++ join sep l'
      end
  end.

(** [String.prototype.split] on a one-character separator: the result
    always has at least one element. *)
Fixpoint split (sep : ascii) (s : string) : list string :=
  match s with
  | EmptyString => [""]
  | String c s' =>
      if Ascii.eqb c sep then "" :: split sep s'
      else match split sep s' with
           | [] => [String c ""]
           | x :: l => String c x :: l
           end
  end.

(** [s.startsWith(p)]. *)
Definition startsWith (s p : string) : bool := String.prefix p s.

(** [s.includes(p)]. *)
Fixpoint includes (s p : string) : bool :=
  String.prefix p s ||
  match s with
  | EmptyString => false
  | String _ s' => includes s' p
  end.

(** [s.slice(n)]: drop the first [n] characters. *)
Fixpoint drop (n : nat) (s : string) : string :=
  match n, s with
  | O, _ => s
  | S n', String _ s' => drop n' s'
  | S _, EmptyString => ""
  end.

(** One white-space or line-terminator character at the start of [s],
    removed.  The characters are TAB, LF, VT, FF, CR, SP, U+00A0, U+1680,
    U+2000 to U+200A, U+2028, U+2029, U+202F, U+205F, U+3000 and U+FEFF,
    here in UTF-8. *)
Definition dropSpace (s : string) : option string :=
  match s with
  | String c1 s1 =>
      let n1 := nat_of_ascii c1 in
      if ((9 <=? n1) && (n1 <=? 13) || (n1 =? 32))%nat then Some s1
      else
        match s1 with
        | String c2 s2 =>
            let n2 := nat_of_ascii c2 in
            if ((n1 =? 194) && (n2 =? 160))%nat then Some s2
            else
              match s2 with
              | String c3 s3 =>
                  let n3 := nat_of_ascii c3 in
                  if ((n1 =? 225) && (n2 =? 154) && (n3 =? 128)
                      || (n1 =? 226) && (n2 =? 128)
                         && ((128 <=? n3) && (n3 <=? 138)
                             || (n3 =? 168) || (n3 =? 169) || (n3 =? 175))
                      || (n1 =? 226) && (n2 =? 129) && (n3 =? 159)
                      || (n1 =? 227) && (n2 =? 128) && (n3 =? 128)
                      || (n1 =? 239) && (n2 =? 187) && (n3 =? 191))%nat
                  then Some s3 else None
              | EmptyString => None
              end
        | EmptyString => None
        end
  | EmptyString => None
  end.

Fixpoint trimStartFrom (fuel : nat) (s : string) : string :=
  match fuel with
  | O => s
  | S fuel' =>
      match dropSpace s with
      | Some s' => trimStartFrom fuel' s'
      | None => s
      end
  end.

(** [s.trimStart()]: each removal shortens the string, so its length is
    enough fuel. *)
Definition trimStart (s : string) : string := trimStartFrom (String.length s) s.

(** [s.trimEnd()]: the string is cut where only white space follows. *)
Fixpoint trimEnd (s : string) : string :=
  match s with
  | EmptyString => EmptyString
  | String c s' =>
      if String.eqb (trimStart s) "" then EmptyString else String c (trimEnd s')
  end.

(** [s.trim()]. *)
Definition trim (s : string) : string := trimEnd (trimStart s).

End JS.

(** ** A JavaScript [Map] with string keys

    Iteration follows insertion order, and [set] on a key that is already
    present replaces the value in place without moving the entry. *)

Module JSMap.
Section WithValue.
Context {V : Type}.

Definition t := list (string * V).

Definition empty : t := [].

Fixpoint get (k : string) (m : t) : option V :=
  match m with
  | [] => None
  | (k', v) :: m' => if String.eqb k k' then Some v else get k m'
  end.

Definition has (k : string) (m : t) : bool :=
  match get k m with Some _ => true | None => false end.

Fixpoint set (k : string) (v : V) (m : t) : t :=
  match m with
  | [] => [(k, v)]
  | (k', v') :: m' =>
      if String.eqb k k' then (k, v) :: m' else (k', v') :: set k v m'
  end.

(** Mutation of the object stored under [k] (the map itself is not
    re-keyed): what [m.get(k).field.push(x)] does to the map's view. *)
Fixpoint update (k : string) (f : V -> V) (m : t) : t :=
  match m with
  | [] => []
  | (k', v) :: m' =>
      if String.eqb k k' then (k', f v) :: m' else (k', v) :: update k f m'
  end.

Definition keys (m : t) : list string := map fst m.
Definition values (m : t) : list V := map snd m.
End WithValue.
Arguments t : clear implicits.
End JSMap.

(** ** Record types ([types/index.ts]) *)

Module StepConfig.
(** [description] is declared a string, but the validator lets it be
    absent and [buildStepTree] defaults it; [parentId] is optional. *)
Record t := mk {
  id : string;
  title : string;
  description : option string;
  gitRef : string;
  parentId : option string;
  explanation : string
}.
End StepConfig.

Module StepNode.
Record t := mk {
  id : string;
  title : string;
  description : string;
  gitRef : string;
  parentId : option string;   (* [None] is [null] *)
  children : list string;
  explanationPath : string
}.

Definition with_children (n : t) (cs : list string) : t :=
  mk (id n) (title n) (description n) (gitRef n) (parentId n) cs
     (explanationPath n).
End StepNode.

Module TutorialConfig.
Record t := mk {
  name : string;
  description : string;
  version : string;
  steps : list StepConfig.t
}.
End TutorialConfig.

Module Tutorial.
Record t := mk {
  id : string;
  name : string;
  description : string;
  rootPath : string;
  steps : list StepNode.t;
  currentStepId : option string   (* [None] is [null] *)
}.

Definition with_currentStepId (x : t) (s : option string) : t :=
  mk (id x) (name x) (description x) (rootPath x) (steps x) s.
End Tutorial.

(** ** Errors ([utils/errors.ts]) and results of fallible operations *)

Module JsError.
(** The classes an [instanceof] test can tell apart.  Only the classes
    the modelled operations could raise are listed; anything an external
    collaborator throws is a plain [Error]. *)
Inductive cls :=
| Error
| TypeError
| TutorialError
| TutorialNotLoadedError
| StepNotFoundError.

Record t := mk {
  class : cls;
  name : string;
  message : string;
  code : option string;      (* [None]: the object has no [code] field *)
  details : option string    (* [None]: absent or [undefined] *)
}.

(** [new Error(message)] *)
Definition newError (message : string) : t :=
  mk Error "Error" message None None.

(** The engine's error for a property read on [null] or [undefined]. *)
Definition newTypeError (message : string) : t :=
  mk TypeError "TypeError" message None None.

(** [new TutorialNotLoadedError()] *)
Definition newTutorialNotLoadedError : t :=
  mk TutorialNotLoadedError "TutorialNotLoadedError"
     "没有加载的教程，请先打开一个教程" (Some "TUTORIAL_NOT_LOADED") None.

(** [new StepNotFoundError(stepId)] *)
Definition newStepNotFoundError (stepId : string) : t :=
  mk StepNotFoundError "StepNotFoundError"
     ("步骤不存在: " ++ stepId) (Some "STEP_NOT_FOUND") (Some stepId).

(** [e instanceof TutorialError] *)
Definition isTutorialError (e : t) : bool :=
  match class e with
  | Error | TypeError => false
  | _ => true
  end.
End JsError.

Inductive Result (A : Type) : Type :=
| Ok (a : A)
| Throw (e : JsError.t).
Arguments Ok {A} a.
Arguments Throw {A} e.

(** ** Diff records ([types/index.ts]) and simple-git summary entries *)

Module DiffHunk.
(** Line numbers are what [parseInt] returns on a run of decimal digits;
    they are kept as exact naturals. *)
Record t := mk {
  oldStart : N;
  oldLines : N;
  newStart : N;
  newLines : N;
  content : string
}.

Definition with_content (h : t) (c : string) : t :=
  mk (oldStart h) (oldLines h) (newStart h) (newLines h) c.
End DiffHunk.

Inductive FileStatus := added | modified | deleted | renamed.

Module FileDiff.
Record t := mk {
  filePath : string;
  status : FileStatus;
  additions : Z;
  deletions : Z;
  hunks : list DiffHunk.t
}.
End FileDiff.

(** One entry of simple-git's [DiffResult.files]: a text file carries
    [insertions] and [deletions], a binary file carries neither. *)
Inductive DiffResultFile :=
| DiffResultTextFile (file : string) (changes insertions deletions : Z)
| DiffResultBinaryFile (file : string) (before after : Z).

(** ** Untyped values, as [yaml.load] and [JSON.parse] return them *)

Module JValue.

(** Numbers occur only in documents the validator rejects; the payload
    is kept for truthiness alone. *)
#[warnings="-register-all"]
Inductive t :=
| JUndefined
| JNull
| JBool (b : bool)
| JNumber (n : Z)
| JString (s : string)
| JArray (items : list t)
| JObject (fields : list (string * t)).

(** [!v] is [negb (truthy v)]. *)
Definition truthy (v : t) : bool :=
  match v with
  | JUndefined | JNull => false
  | JBool b => b
  | JNumber n => negb (n =? 0)%Z
  | JString s => JS.truthy s
  | JArray _ | JObject _ => true
  end.

(** [typeof v === 'object'] (true of [null] and of arrays). *)
Definition isObjectType (v : t) : bool :=
  match v with
  | JNull | JArray _ | JObject _ => true
  | _ => false
  end.

(** [typeof v === 'string'] *)
Definition isString (v : t) : bool :=
  match v with
  | JString _ => true
  | _ => false
  end.

Definition isUndefined (v : t) : bool :=
  match v with
  | JUndefined => true
  | _ => false
  end.

Fixpoint lookupField (k : string) (fields : list (string * t)) : t :=
  match fields with
  | [] => JUndefined
  | (k', v) :: fields' => if String.eqb k k' then v else lookupField k fields'
  end.

(** [v.k] for one of the property names the validator reads, on a value
    other than [null] and [undefined] (on those the read throws).  None
    of these names is an own property of a string, number, boolean or
    array. *)
Definition prop (v : t) (k : string) : t :=
  match v with
  | JObject fields => lookupField k fields
  | _ => JUndefined
  end.

(** The template-literal rendering of a string value. *)
Definition strOf (v : t) : string :=
  match v with
  | JString s => s
  | _ => ""
  end.

End JValue.

(** ** External collaborators and the state of the services *)

(** The state-changing simple-git commands a service has issued, oldest
    first.  This is a ghost trace: the code does not keep it. *)
Inductive GitCall :=
| CallClone (url targetPath : string)
| CallCheckout (baseDir ref : string)
| CallStash (baseDir : string) (args : list string).

(** Everything outside the repository's own code, over a type [W] of
    states of the outside world (working trees, files, editor windows,
    the user).  Queries read the world; commands may change it, also when
    they fail. *)
Record Host (W : Type) := mkHost {
  (** [simpleGit(baseDir)] *)
  simpleGit : string -> W -> Result unit;
  git_clone : string -> string -> W -> Result unit * W;
  git_checkout : string -> string -> W -> Result unit * W;
  git_stash : string -> list string -> W -> Result unit * W;
  (** [(await git.status()).isClean()] *)
  git_status_isClean : string -> W -> Result bool;
  git_revparse : string -> list string -> W -> Result string;
  git_diffSummary : string -> list string -> W -> Result (list DiffResultFile);
  git_diff : string -> list string -> W -> Result string;
  fs_existsSync : string -> W -> bool;
  fs_readFile : string -> W -> Result string;
  path_join : string -> string -> string;
  (** [path.extname(p).toLowerCase()] *)
  path_extname_lower : string -> string;
  os_tmpdir : string;
  Date_now : W -> Z;
  yaml_load : string -> Result JValue.t;
  JSON_parse : string -> Result JValue.t;
  (** [Buffer.from(s).toString('base64')] *)
  base64 : string -> string;
  (** The answer to [vscode.window.showWarningMessage(message, ...items)]:
      the chosen item, or [None] when the message is dismissed. *)
  showWarningMessage : string -> list string -> W -> option string;
  (** The loop of [refreshOpenEditors] over the visible editors. *)
  revertVisibleEditors : W -> Result unit * W
}.
Arguments simpleGit {W}.
Arguments git_clone {W}.
Arguments git_checkout {W}.
Arguments git_stash {W}.
Arguments git_status_isClean {W}.
Arguments git_revparse {W}.
Arguments git_diffSummary {W}.
Arguments git_diff {W}.
Arguments fs_existsSync {W}.
Arguments fs_readFile {W}.
Arguments path_join {W}.
Arguments path_extname_lower {W}.
Arguments os_tmpdir {W}.
Arguments Date_now {W}.
Arguments yaml_load {W}.
Arguments JSON_parse {W}.
Arguments base64 {W}.
Arguments showWarningMessage {W}.
Arguments revertVisibleEditors {W}.

(** The fields of the [TutorialManager] and of its [GitService], together
    with the outside world and the payloads fired on the two emitters. *)
Record State (W : Type) := mkState {
  world : W;
  git : option string;        (* [GitService.git]: the bound working tree *)
  repoPath : option string;   (* [GitService.repoPath] *)
  gitCalls : list GitCall;
  currentTutorial : option Tutorial.t;
  onTutorialLoaded : list Tutorial.t;
  onStepChanged : list StepNode.t
}.
Arguments mkState {W}.
Arguments world {W}.
Arguments git {W}.
Arguments repoPath {W}.
Arguments gitCalls {W}.
Arguments currentTutorial {W}.
Arguments onTutorialLoaded {W}.
Arguments onStepChanged {W}.

(** A computation that may throw, over the state of the services.  The
    state returned with [Throw] is the state at the throw. *)
Module Eff.
Section WithWorld.
Context {W : Type}.

Definition M (A : Type) : Type := State W -> Result A * State W.

Definition ret {A} (a : A) : M A := fun s => (Ok a, s).

Definition throw {A} (e : JsError.t) : M A := fun s => (Throw e, s).

Definition bind {A B} (c : M A) (k : A -> M B) : M B :=
  fun s =>
    match c s with
    | (Ok a, s') => k a s'
    | (Throw e, s') => (Throw e, s')
    end.

(** A query of the outside world. *)
Definition query {A} (q : W -> Result A) : M A :=
  fun s => (q (world s), s).

(** A command on the outside world. *)
Definition command {A} (c : W -> Result A * W) : M A :=
  fun s =>
    let '(r, w) := c (world s) in
    (r, mkState w (git s) (repoPath s) (gitCalls s) (currentTutorial s)
                (onTutorialLoaded s) (onStepChanged s)).

Definition get : M (State W) := fun s => (Ok s, s).

Definition modify (f : State W -> State W) : M unit :=
  fun s => (Ok tt, f s).
End WithWorld.
Arguments M : clear implicits.
End Eff.

Declare Scope eff_scope.
Delimit Scope eff_scope with eff.
Notation "'let!' x ':=' c 'in' k" := (Eff.bind c (fun x => k))
  (at level 10, x name, c at level 100, k at level 200) : eff_scope.
Notation "'do!' c 'in' k" := (Eff.bind c (fun _ => k))
  (at level 10, c at level 100, k at level 200) : eff_scope.

(** Field updates of the state. *)
Definition set_git {W} (g r : option string) (s : State W) : State W :=
  mkState (world s) g r (gitCalls s) (currentTutorial s)
          (onTutorialLoaded s) (onStepChanged s).

Definition set_repoPath {W} (r : option string) (s : State W) : State W :=
  mkState (world s) (git s) r (gitCalls s) (currentTutorial s)
          (onTutorialLoaded s) (onStepChanged s).

Definition log_gitCall {W} (c : GitCall) (s : State W) : State W :=
  mkState (world s) (git s) (repoPath s) (gitCalls s ++ [c]) (currentTutorial s)
          (onTutorialLoaded s) (onStepChanged s).

Definition set_currentTutorial {W} (t : option Tutorial.t) (s : State W) : State W :=
  mkState (world s) (git s) (repoPath s) (gitCalls s) t
          (onTutorialLoaded s) (onStepChanged s).

Definition fire_onTutorialLoaded {W} (t : Tutorial.t) (s : State W) : State W :=
  mkState (world s) (git s) (repoPath s) (gitCalls s) (currentTutorial s)
          (onTutorialLoaded s ++ [t]) (onStepChanged s).

Definition fire_onStepChanged {W} (n : StepNode.t) (s : State W) : State W :=
  mkState (world s) (git s) (repoPath s) (gitCalls s) (currentTutorial s)
          (onTutorialLoaded s) (onStepChanged s ++ [n]).

(** ** ConfigParser ([services/configParser.ts]) *)

Module ValidationError.
Record t := mk { path : string; message : string }.
End ValidationError.

Module ValidationResult.
Record t := mk { valid : bool; errors : list ValidationError.t }.
End ValidationResult.

Module ConfigParser.
Import JValue.

(** *** validate *)

(** [!x || typeof x !== 'string'] *)
Definition notRequiredString (x : JValue.t) : bool :=
  negb (truthy x) || negb (isString x).

(** [x !== undefined && typeof x !== 'string'] *)
Definition notOptionalString (x : JValue.t) : bool :=
  negb (isUndefined x) && negb (isString x).

Definition err (path message : string) : ValidationError.t :=
  ValidationError.mk path message.

Definition errIf (b : bool) (path message : string) : list ValidationError.t :=
  if b then [err path message] else [].

(** Body of the first [steps.forEach]: the errors to push and the new
    [stepIds]. *)
Definition checkStep (stepIds : gset string) (index : nat) (step : JValue.t)
  : list ValidationError.t * gset string :=
  let stepPath := "steps[" ++ pretty index ++ "]" in
  if negb (truthy step) || negb (isObjectType step) then
    ([err stepPath "step must be an object"], stepIds)
  else
    let s := step in
    let '(idErrors, stepIds') :=
      if notRequiredString (prop s "id") then
        ([err (stepPath ++ ".id") "id is required and must be a string"], stepIds)
      else
        let id := strOf (prop s "id") in
        (errIf (bool_decide (id ∈ stepIds)) (stepPath ++ ".id")
               ("duplicate step id: " ++ id),
         {[ id ]} ∪ stepIds) in
    ((idErrors
      ++ errIf (notRequiredString (prop s "title")) (stepPath ++ ".title")
               "title is required and must be a string"
      ++ errIf (notRequiredString (prop s "gitRef")) (stepPath ++ ".gitRef")
               "gitRef is required and must be a string"
      ++ errIf (notRequiredString (prop s "explanation")) (stepPath ++ ".explanation")
               "explanation is required and must be a string"
      ++ errIf (notOptionalString (prop s "parentId")) (stepPath ++ ".parentId")
               "parentId must be a string if provided"
      ++ errIf (notOptionalString (prop s "description")) (stepPath ++ ".description")
               "description must be a string if provided")%list,
     stepIds').

(** The first [steps.forEach], from position [index] on. *)
Fixpoint checkSteps (stepIds : gset string) (index : nat) (steps : list JValue.t)
  : list ValidationError.t * gset string :=
  match steps with
  | [] => ([], stepIds)
  | step :: steps' =>
      let '(errors, stepIds') := checkStep stepIds index step in
      let '(errors', stepIds'') := checkSteps stepIds' (S index) steps' in
      ((errors ++ errors')%list, stepIds'')
  end.

(** Body of the second [steps.forEach].  Reading [s.parentId] on [null]
    or [undefined] throws. *)
Definition checkParent (stepIds : gset string) (index : nat) (step : JValue.t)
  : Result (list ValidationError.t) :=
  match step with
  | JNull =>
      Throw (JsError.newTypeError
               "Cannot read properties of null (reading 'parentId')")
  | JUndefined =>
      Throw (JsError.newTypeError
               "Cannot read properties of undefined (reading 'parentId')")
  | s =>
      let parentId := prop s "parentId" in
      Ok (errIf (truthy parentId && isString parentId
                 && negb (bool_decide (strOf parentId ∈ stepIds)))
                ("steps[" ++ pretty index ++ "].parentId")
                ("parentId references non-existent step: " ++ strOf parentId))
  end.

Fixpoint checkParents (stepIds : gset string) (index : nat) (steps : list JValue.t)
  : Result (list ValidationError.t) :=
  match steps with
  | [] => Ok []
  | step :: steps' =>
      match checkParent stepIds index step with
      | Throw e => Throw e
      | Ok errors =>
          match checkParents stepIds (S index) steps' with
          | Throw e => Throw e
          | Ok errors' => Ok (errors ++ errors')%list
          end
      end
  end.

Definition validateSteps (steps : list JValue.t) : Result (list ValidationError.t) :=
  let '(errors, stepIds) := checkSteps ∅ 0 steps in
  match checkParents stepIds 0 steps with
  | Throw e => Throw e
  | Ok errors' => Ok (errors ++ errors')%list
  end.

Definition validate (config : JValue.t) : Result ValidationResult.t :=
  if negb (truthy config) || negb (isObjectType config) then
    Ok (ValidationResult.mk false [err "root" "Config must be an object"])
  else
    let cfg := config in
    let errors :=
      (errIf (notRequiredString (prop cfg "name")) "name"
             "name is required and must be a string"
       ++ errIf (notRequiredString (prop cfg "description")) "description"
             "description is required and must be a string"
       ++ errIf (notRequiredString (prop cfg "version")) "version"
             "version is required and must be a string")%list in
    let stepsResult :=
      match prop cfg "steps" with
      | JArray steps =>
          match steps with
          | [] => Ok [err "steps" "steps array must not be empty"]
          | _ :: _ => validateSteps steps
          end
      | _ => Ok [err "steps" "steps is required and must be an array"]
      end in
    match stepsResult with
    | Throw e => Throw e
    | Ok stepErrors =>
        let errors := (errors ++ stepErrors)%list in
        Ok (ValidationResult.mk (bool_decide (length errors = 0%nat)) errors)
    end.

(** *** The typed view of a raw value ([rawConfig as TutorialConfig]) *)

Definition asString (v : JValue.t) : option string :=
  match v with
  | JString s => Some s
  | _ => None
  end.

Definition asOptionalString (v : JValue.t) : option (option string) :=
  match v with
  | JUndefined => Some None
  | JString s => Some (Some s)
  | _ => None
  end.

Definition asStepConfig (v : JValue.t) : option StepConfig.t :=
  match v with
  | JObject _ =>
      id ← asString (prop v "id");
      title ← asString (prop v "title");
      description ← asOptionalString (prop v "description");
      gitRef ← asString (prop v "gitRef");
      parentId ← asOptionalString (prop v "parentId");
      explanation ← asString (prop v "explanation");
      Some (StepConfig.mk id title description gitRef parentId explanation)
  | _ => None
  end.

Definition asTutorialConfig (v : JValue.t) : option TutorialConfig.t :=
  match v with
  | JObject _ =>
      name ← asString (prop v "name");
      description ← asString (prop v "description");
      version ← asString (prop v "version");
      steps ← match prop v "steps" with
               | JArray items => mapM asStepConfig items
               | _ => None
               end;
      Some (TutorialConfig.mk name description version steps)
  | _ => None
  end.

(** *** buildStepTree *)

(** The node created for one config in the first pass. *)
Definition newNode (config : StepConfig.t) : StepNode.t :=
  {| StepNode.id := StepConfig.id config;
     StepNode.title := StepConfig.title config;
     StepNode.description := JS.or_else (StepConfig.description config) "";
     StepNode.gitRef := StepConfig.gitRef config;
     StepNode.parentId := JS.or_null (StepConfig.parentId config);
     StepNode.children := [];
     StepNode.explanationPath := StepConfig.explanation config |}.

(** First pass: [nodeMap.set(config.id, node)] for every config. *)
Definition createNodes (stepConfigs : list StepConfig.t)
  : JSMap.t StepNode.t :=
  fold_left (fun nodeMap config =>
               JSMap.set (StepConfig.id config) (newNode config) nodeMap)
            stepConfigs JSMap.empty.

(** [parent.children.push(node.id)] *)
Definition pushChild (child : string) (parent : StepNode.t) : StepNode.t :=
  StepNode.with_children parent (StepNode.children parent ++ [child]).

(** Body of the second loop for one [node] of [nodeMap.values()].  The
    loop reads only [node.id] and [node.parentId], which are never
    written after creation, so the node can be taken from the map as it
    was before the loop. *)
Definition linkNode (nodeMap : JSMap.t StepNode.t) (node : StepNode.t)
  : JSMap.t StepNode.t :=
  match StepNode.parentId node with
  | Some p =>
      if JS.truthy p then
        match JSMap.get p nodeMap with
        | Some _ => JSMap.update p (pushChild (StepNode.id node)) nodeMap
        | None => nodeMap
        end
      else nodeMap
  | None => nodeMap
  end.

Definition linkNodes (nodeMap : JSMap.t StepNode.t) : JSMap.t StepNode.t :=
  fold_left linkNode (JSMap.values nodeMap) nodeMap.

Definition buildStepTree (stepConfigs : list StepConfig.t)
  : list StepNode.t :=
  JSMap.values (linkNodes (createNodes stepConfigs)).

(** *** parse *)

Section Parse.
Context {W : Type} (H : Host W).
Local Open Scope eff_scope.

Definition formatErrors (errors : list ValidationError.t) : string :=
  JS.join (String "010" "")
          (map (fun e => ValidationError.path e ++ ": " ++ ValidationError.message e)
               errors).

Definition parse (configPath : string) : Eff.M W TutorialConfig.t :=
  let! content := Eff.query (fs_readFile H configPath) in
  let ext := path_extname_lower H configPath in
  let! rawConfig :=
    (if String.eqb ext ".yaml" || String.eqb ext ".yml" then
       Eff.query (fun _ => yaml_load H content)
     else if String.eqb ext ".json" then
       Eff.query (fun _ => JSON_parse H content)
     else
       Eff.throw (JsError.newError
                    ("Unsupported config file format: " ++ ext
                     ++ ". Use .yaml, .yml, or .json"))) in
  let! validationResult := Eff.query (fun _ => validate rawConfig) in
  if negb (ValidationResult.valid validationResult) then
    Eff.throw (JsError.newError
                 ("Invalid tutorial config:" ++ String "010" ""
                  ++ formatErrors (ValidationResult.errors validationResult)))
  else
    (* [return rawConfig as TutorialConfig]: a valid value always has
       the typed view (lemma [validate_typed]); the other branch is
       never taken. *)
    match asTutorialConfig rawConfig with
    | Some config => Eff.ret config
    | None => Eff.throw (JsError.newTypeError "not a TutorialConfig")
    end.
End Parse.

End ConfigParser.

(** ** GitService ([services/gitService.ts]) *)

Module Regex.

Definition isDigit (c : ascii) : bool :=
  let n := nat_of_ascii c in (48 <=? n)%nat && (n <=? 57)%nat.

(** The longest run of decimal digits at the start of [s], and the rest. *)
Fixpoint spanDigits (s : string) : string * string :=
  match s with
  | EmptyString => ("", "")
  | String c s' =>
      if isDigit c then
        let '(d, r) := spanDigits s' in (String c d, r)
      else ("", s)
  end.

(** [,?] *)
Definition optComma (s : string) : string :=
  match s with
  | String c s' => if Ascii.eqb c "," then s' else s
  | EmptyString => s
  end.

(** [parseInt(d, 10)] on a run of decimal digits. *)
Definition digitsValue (acc : N) (d : string) : N :=
  fold_left (fun a c => (10 * a + (N.of_nat (nat_of_ascii c) - 48))%N)
            (list_ascii_of_string d) acc.

Definition parseInt (d : string) : N := digitsValue 0%N d.

(** [.] matches any character but a line terminator: LF, CR, U+2028 and
    U+2029 (in UTF-8: E2 80 A8 and E2 80 A9). *)
Fixpoint noLineTerminator (s : string) : bool :=
  match s with
  | EmptyString => true
  | String c s' =>
      negb (Ascii.eqb c "010") && negb (Ascii.eqb c "013")
      && negb (String.prefix (String "226" (String "128" (String "168" ""))) s)
      && negb (String.prefix (String "226" (String "128" (String "169" ""))) s)
      && noLineTerminator s'
  end.

(** For [s] without line terminators: the text after the rightmost
    [" b/"] of [s] that is followed by at least one character. *)
Fixpoint afterLastSep (s : string) : option string :=
  match s with
  | EmptyString => None
  | String _ s' =>
      match afterLastSep s' with
      | Some g => Some g
      | None =>
          if String.prefix " b/" s && JS.truthy (JS.drop 3 s)
          then Some (JS.drop 3 s) else None
      end
  end.

(** [line.match(/^diff --git a\/(.+) b\/(.+)$/)], returning group 2.
    Both groups are greedy and non-empty, and the match must reach the
    end of the string, so group 2 starts after the rightmost [" b/"]
    that leaves both groups non-empty. *)
Definition fileMatch (line : string) : option string :=
  if String.prefix "diff --git a/" line then
    let rest := JS.drop 13 line in
    if noLineTerminator rest then
      match rest with
      | EmptyString => None
      | String _ rest' => afterLastSep rest'
      end
    else None
  else None.

(** The hunk-header pattern, anchored at the start of the line only:
    ["@@ -"], one or more digits (group 1), an optional comma, any number
    of digits (group 2), [" +"], one or more digits (group 3), an
    optional comma, any number of digits (group 4), [" @@"].  Returns
    the four groups.  Every group is a maximal run of digits: a shorter
    one would leave a digit where the pattern needs a space. *)
Definition hunkMatch (line : string)
  : option (string * string * string * string) :=
  if String.prefix "@@ -" line then
    let '(g1, r1) := spanDigits (JS.drop 4 line) in
    if JS.truthy g1 then
      let '(g2, r2) := spanDigits (optComma r1) in
      if String.prefix " +" r2 then
        let '(g3, r3) := spanDigits (JS.drop 2 r2) in
        if JS.truthy g3 then
          let '(g4, r4) := spanDigits (optComma r3) in
          if String.prefix " @@" r4 then Some (g1, g2, g3, g4) else None
        else None
      else None
    else None
  else None.

End Regex.

Module GitService.

(** ** parseDiffOutput *)

(** The loop variables of [parseDiffOutput]. *)
Record ParseState := mkParse {
  hunksMap : gmap string (list DiffHunk.t);
  currentFile : option string;
  currentHunk : option DiffHunk.t;
  hunkContent : list string
}.

Definition initParse : ParseState := mkParse ∅ None None [].

(** [if (!hunksMap.has(f)) hunksMap.set(f, []); hunksMap.get(f)!.push(h)] *)
Definition pushHunk (f : string) (h : DiffHunk.t)
           (m : gmap string (list DiffHunk.t)) : gmap string (list DiffHunk.t) :=
  <[f := (default [] (m !! f) ++ [h])%list]> m.

(** "Save the previous hunk": guarded by [currentFile && currentHunk]. *)
Definition saveHunk (st : ParseState) : gmap string (list DiffHunk.t) :=
  match currentFile st, currentHunk st with
  | Some f, Some h =>
      if JS.truthy f then
        pushHunk f (DiffHunk.with_content h (JS.join (String "010" "") (hunkContent st)))
                 (hunksMap st)
      else hunksMap st
  | _, _ => hunksMap st
  end.

(** The hunk built from the groups of a hunk header. *)
Definition newHunk (g : string * string * string * string) : DiffHunk.t :=
  let '(g1, g2, g3, g4) := g in
  {| DiffHunk.oldStart := Regex.parseInt g1;
     DiffHunk.oldLines := if JS.truthy g2 then Regex.parseInt g2 else 1%N;
     DiffHunk.newStart := Regex.parseInt g3;
     DiffHunk.newLines := if JS.truthy g4 then Regex.parseInt g4 else 1%N;
     DiffHunk.content := "" |}.

(** [line.startsWith('+') || line.startsWith('-') || line.startsWith(' ')] *)
Definition isHunkLine (line : string) : bool :=
  JS.startsWith line "+" || JS.startsWith line "-" || JS.startsWith line " ".

(** One iteration of [for (const line of lines)]. *)
Definition parseLine (st : ParseState) (line : string) : ParseState :=
  match Regex.fileMatch line with
  | Some f =>
      mkParse (saveHunk st) (Some f) None []
  | None =>
      match Regex.hunkMatch line, JS.truthy_opt (currentFile st) with
      | Some g, true =>
          mkParse (match currentHunk st with
                   | Some _ => saveHunk st
                   | None => hunksMap st
                   end)
                  (currentFile st) (Some (newHunk g)) [line]
      | _, _ =>
          match currentHunk st with
          | Some _ =>
              if isHunkLine line
              then mkParse (hunksMap st) (currentFile st) (currentHunk st)
                           (hunkContent st ++ [line])
              else st
          | None => st
          end
      end
  end.

Definition parseLines (lines : list string) : ParseState :=
  fold_left parseLine lines initParse.

Definition parseDiffOutput (diffOutput : string)
  : gmap string (list DiffHunk.t) :=
  saveHunk (parseLines (JS.split "010" diffOutput)).

(** ** getDiff: classification of one file of the summary *)

Definition fileOf (file : DiffResultFile) : string :=
  match file with
  | DiffResultTextFile f _ _ _ => f
  | DiffResultBinaryFile f _ _ => f
  end.

(** The body of [for (const file of diffSummary.files)]: [status] starts
    as [modified] and is overwritten by three successive checks. *)
Definition fileDiffOf (fromRef : string)
           (hunksMap : gmap string (list DiffHunk.t))
           (file : DiffResultFile) : FileDiff.t :=
  let filePath := fileOf file in
  let status0 := modified in
  let status1 :=
    match file with
    | DiffResultTextFile _ _ insertions deletions =>
        if (0 <? insertions)%Z && (deletions =? 0)%Z && negb (JS.truthy fromRef)
        then added
        else if (0 <? deletions)%Z && (insertions =? 0)%Z then deleted
        else status0
    | DiffResultBinaryFile _ _ _ => status0
    end in
  let status2 := if JS.includes filePath " => " then renamed else status1 in
  let status3 :=
    match hunksMap !! filePath with
    | Some hunks =>
        match hunks with
        | h :: _ => if (DiffHunk.oldLines h =? 0)%N then added else status2
        | [] => status2
        end
    | None => status2
    end in
  {| FileDiff.filePath := filePath;
     FileDiff.status := status3;
     FileDiff.additions :=
       match file with
       | DiffResultTextFile _ _ insertions _ => insertions
       | DiffResultBinaryFile _ _ _ => 0%Z
       end;
     FileDiff.deletions :=
       match file with
       | DiffResultTextFile _ _ _ deletions => deletions
       | DiffResultBinaryFile _ _ _ => 0%Z
       end;
     FileDiff.hunks := default [] (hunksMap !! filePath) |}.

(** ** The methods of the service *)

Section Methods.
Context {W : Type} (H : Host W).
Local Open Scope eff_scope.

(** [this.repoPath = repoPath; this.git = simpleGit(repoPath);] *)
Definition initialize (repoPath : string) : Eff.M W unit :=
  do! Eff.modify (set_repoPath (Some repoPath)) in
  do! Eff.query (simpleGit H repoPath) in
  Eff.modify (set_git (Some repoPath) (Some repoPath)).

Definition getGit : Eff.M W string :=
  let! s := Eff.get in
  match git s with
  | Some baseDir => Eff.ret baseDir
  | None =>
      Eff.throw (JsError.newError
                   "Git service not initialized. Call initialize() first.")
  end.

Definition clone (url targetPath : string) : Eff.M W unit :=
  do! Eff.modify (log_gitCall (CallClone url targetPath)) in
  do! Eff.command (git_clone H url targetPath) in
  initialize targetPath.

Definition checkout (ref : string) : Eff.M W unit :=
  let! baseDir := getGit in
  do! Eff.modify (log_gitCall (CallCheckout baseDir ref)) in
  Eff.command (git_checkout H baseDir ref).

Definition hasUncommittedChanges : Eff.M W bool :=
  let! baseDir := getGit in
  let! isClean := Eff.query (git_status_isClean H baseDir) in
  Eff.ret (negb isClean).

Definition stash : Eff.M W unit :=
  let! baseDir := getGit in
  let args := ["push"; "-m"; "tutorial-system-auto-stash"] in
  do! Eff.modify (log_gitCall (CallStash baseDir args)) in
  Eff.command (git_stash H baseDir args).

Definition stashPop : Eff.M W unit :=
  let! baseDir := getGit in
  do! Eff.modify (log_gitCall (CallStash baseDir ["pop"])) in
  Eff.command (git_stash H baseDir ["pop"]).

Definition getCurrentRef : Eff.M W string :=
  let! baseDir := getGit in
  let! result := Eff.query (git_revparse H baseDir ["HEAD"]) in
  Eff.ret (JS.trim result).

Definition getRepoPath : Eff.M W (option string) :=
  let! s := Eff.get in Eff.ret (repoPath s).

(** [getGit()] is outside the [try]; a failing [revparse] is caught. *)
Definition refExists (ref : string) : Eff.M W bool :=
  let! baseDir := getGit in
  Eff.query (fun w => match git_revparse H baseDir [ref] w with
                      | Ok _ => Ok true
                      | Throw _ => Ok false
                      end).

Definition emptyTree : string := "4b825dc642cb6eb9a060e54bf8d69288fbee4904".

Definition getDiff (fromRef toRef : string) : Eff.M W (list FileDiff.t) :=
  let! baseDir := getGit in
  let refs := if negb (JS.truthy fromRef) then [emptyTree; toRef]
              else [fromRef; toRef] in
  let! diffSummary := Eff.query (git_diffSummary H baseDir refs) in
  let! diffOutput := Eff.query (git_diff H baseDir refs) in
  let hunksMap := parseDiffOutput diffOutput in
  Eff.ret (map (fileDiffOf fromRef hunksMap) diffSummary).
End Methods.

End GitService.

(** ** TutorialManager ([services/tutorialManager.ts]) *)

Module TutorialManager.
Section Methods.
Context {W : Type} (H : Host W).
Local Open Scope eff_scope.

Definition isRemoteUrl (source : string) : bool :=
  JS.startsWith source "http://" || JS.startsWith source "https://"
  || JS.startsWith source "git@" || JS.startsWith source "git://".

Definition getTempDir : string :=
  path_join H (os_tmpdir H) "interactive-tutorial".

Definition configNames : list string :=
  ["tutorial.yaml"; "tutorial.yml"; "tutorial.json"].

Fixpoint firstExisting (repoPath : string) (names : list string) (w : W)
  : option string :=
  match names with
  | [] => None
  | name :: names' =>
      let configPath := path_join H repoPath name in
      if fs_existsSync H configPath w then Some configPath
      else firstExisting repoPath names' w
  end.

Definition findConfigFile (repoPath : string) : Eff.M W (option string) :=
  Eff.query (fun w => Ok (firstExisting repoPath configNames w)).

(** The entry pushed for a step whose ref does not resolve. *)
Definition invalidRefEntry (step : StepConfig.t) : string :=
  StepConfig.id step ++ ": " ++ StepConfig.gitRef step.

(** The loop of [validateGitRefs]: every step is probed, and the
    entries of the steps whose ref does not resolve are collected. *)
Fixpoint collectInvalidRefs (steps : list StepConfig.t) (invalidRefs : list string)
  : Eff.M W (list string) :=
  match steps with
  | [] => Eff.ret invalidRefs
  | step :: steps' =>
      let! exists_ := GitService.refExists H (StepConfig.gitRef step) in
      collectInvalidRefs steps'
        (if negb exists_
         then (invalidRefs ++ [invalidRefEntry step])%list
         else invalidRefs)
  end.

Definition invalidRefsMessage (invalidRefs : list string) : string :=
  "以下步骤的 Git 引用无效:" ++ String "010" ""
  ++ JS.join (String "010" "") invalidRefs.

Definition validateGitRefs (config : TutorialConfig.t) : Eff.M W unit :=
  let! invalidRefs := collectInvalidRefs (TutorialConfig.steps config) [] in
  if (0 <? length invalidRefs)%nat then
    Eff.throw (JsError.newError (invalidRefsMessage invalidRefs))
  else Eff.ret tt.

(** [s.replace(/[/+=]/g, '_')] *)
Fixpoint replaceSlashPlusEq (s : string) : string :=
  match s with
  | EmptyString => EmptyString
  | String c s' =>
      String (if Ascii.eqb c "/" || Ascii.eqb c "+" || Ascii.eqb c "="
              then "_"%char else c)
             (replaceSlashPlusEq s')
  end.

Definition generateTutorialId (repoPath : string) : string :=
  replaceSlashPlusEq (base64 H repoPath).

Definition refreshOpenEditors : Eff.M W unit :=
  Eff.command (revertVisibleEditors H).

Definition loadTutorial (source : string) : Eff.M W Tutorial.t :=
  let! repoPath :=
    (if isRemoteUrl source then
       let! s := Eff.get in
       let tempDir := path_join H getTempDir
                                ("tutorial-" ++ pretty (Date_now H (world s))) in
       do! GitService.clone H source tempDir in
       Eff.ret tempDir
     else
       do! GitService.initialize H source in
       Eff.ret source) in
  let! configPath := findConfigFile repoPath in
  if negb (JS.truthy_opt configPath) then
    Eff.throw (JsError.newError
      "未找到教程配置文件 (tutorial.yaml, tutorial.yml, 或 tutorial.json)")
  else
    let! config := ConfigParser.parse H (default "" configPath) in
    do! validateGitRefs config in
    let steps := ConfigParser.buildStepTree (TutorialConfig.steps config) in
    let tutorial :=
      {| Tutorial.id := generateTutorialId repoPath;
         Tutorial.name := TutorialConfig.name config;
         Tutorial.description := TutorialConfig.description config;
         Tutorial.rootPath := repoPath;
         Tutorial.steps := steps;
         Tutorial.currentStepId := None |} in
    do! Eff.modify (set_currentTutorial (Some tutorial)) in
    do! Eff.modify (fire_onTutorialLoaded tutorial) in
    Eff.ret tutorial.

Definition getCurrentTutorial : Eff.M W (option Tutorial.t) :=
  let! s := Eff.get in Eff.ret (currentTutorial s).

(** [steps.find(s => s.id === stepId)] *)
Definition findStep (steps : list StepNode.t) (stepId : string)
  : option StepNode.t :=
  List.find (fun s => String.eqb (StepNode.id s) stepId) steps.

Definition stashAndContinue : string := "暂存修改并继续".
Definition discardAndContinue : string := "放弃修改并继续".
Definition cancel : string := "取消".

(** The dirty-state gate: [true] when navigation goes on, [false] on
    the early [return]. *)
Definition dirtyGate : Eff.M W bool :=
  let! hasChanges := GitService.hasUncommittedChanges H in
  if hasChanges then
    let! s := Eff.get in
    let choice :=
      showWarningMessage H "当前有未保存的修改，是否继续切换步骤？"
        [stashAndContinue; discardAndContinue; cancel] (world s) in
    match choice with
    | Some c =>
        if String.eqb c stashAndContinue then
          do! GitService.stash H in Eff.ret true
        else if String.eqb c discardAndContinue then Eff.ret true
        else Eff.ret false
    | None => Eff.ret false
    end
  else Eff.ret true.

Definition navigateToStep (stepId : string) : Eff.M W unit :=
  let! s := Eff.get in
  match currentTutorial s with
  | None => Eff.throw (JsError.newError "没有加载的教程")
  | Some tutorial =>
      match findStep (Tutorial.steps tutorial) stepId with
      | None => Eff.throw (JsError.newError ("步骤不存在: " ++ stepId))
      | Some step =>
          let! go := dirtyGate in
          if negb go then Eff.ret tt
          else
            (* [withProgress] runs the callback and passes its failure on;
               the assignment then goes through [this.currentTutorial] as
               it is at that moment *)
            do! GitService.checkout H (StepNode.gitRef step) in
            do! Eff.modify (fun s' =>
                  set_currentTutorial
                    (option_map (fun t => Tutorial.with_currentStepId t (Some stepId))
                                (currentTutorial s')) s') in
            do! Eff.modify (fire_onStepChanged step) in
            refreshOpenEditors
      end
  end.

Definition getCurrentStep : Eff.M W (option StepNode.t) :=
  let! s := Eff.get in
  Eff.ret
    match currentTutorial s with
    | Some tutorial =>
        if JS.truthy_opt (Tutorial.currentStepId tutorial) then
          findStep (Tutorial.steps tutorial)
                   (default "" (Tutorial.currentStepId tutorial))
        else None
    | None => None
    end.

Definition closeTutorial : Eff.M W unit :=
  Eff.modify (set_currentTutorial None).
End Methods.
End TutorialManager.

(** ** ProgressTracker ([services/progressTracker.ts]) *)

Module TutorialProgress.
Record t := mk {
  tutorialId : string;
  currentStepId : option string;   (* [None] is [null] *)
  completedSteps : list string;
  lastAccessTime : Z
}.
End TutorialProgress.

Inductive StepStatus := completed | current | pending.

(** [context.globalState]: the values stored per key, and the number of
    [update] calls made so far. *)
Module Memento.
Record t := mk {
  store : gmap string (gmap string TutorialProgress.t);
  updates : nat
}.

Definition get (key : string) (m : t) : option (gmap string TutorialProgress.t) :=
  store m !! key.

Definition update (key : string) (data : gmap string TutorialProgress.t) (m : t) : t :=
  mk (<[key := data]> (store m)) (S (updates m)).
End Memento.

Module ProgressTracker.

Definition STORAGE_KEY : string := "interactiveTutorial.progress".

(** The fields of the tracker, and the clock behind [Date.now()]:
    [clock n] is the value of the [n]-th reading, [reads] the number of
    readings taken so far. *)
Record t := mk {
  context : option Memento.t;
  progressCache : gmap string TutorialProgress.t;
  clock : nat -> Z;
  reads : nat
}.

Definition Date_now (tr : t) : Z * t :=
  (clock tr (reads tr),
   mk (context tr) (progressCache tr) (clock tr) (S (reads tr))).

Definition set_cache (c : gmap string TutorialProgress.t) (tr : t) : t :=
  mk (context tr) c (clock tr) (reads tr).

Definition loadFromStorage (tr : t) : t :=
  match context tr with
  | None => tr
  | Some ctx =>
      match Memento.get STORAGE_KEY ctx with
      | Some stored => set_cache stored tr
      | None => tr
      end
  end.

Definition initialize (ctx : Memento.t) (tr : t) : t :=
  loadFromStorage (mk (Some ctx) (progressCache tr) (clock tr) (reads tr)).

Definition saveToStorage (tr : t) : t :=
  match context tr with
  | None => tr
  | Some ctx =>
      mk (Some (Memento.update STORAGE_KEY (progressCache tr) ctx))
         (progressCache tr) (clock tr) (reads tr)
  end.

(** The record is the object held by the cache: later writes through
    the returned reference are writes to the cache entry. *)
Definition getProgress (tutorialId : string) (tr : t) : TutorialProgress.t * t :=
  match progressCache tr !! tutorialId with
  | Some cached => (cached, tr)
  | None =>
      let '(now, tr1) := Date_now tr in
      let newProgress := TutorialProgress.mk tutorialId None [] now in
      (newProgress, set_cache (<[tutorialId := newProgress]> (progressCache tr1)) tr1)
  end.

(** A write through the reference [getProgress] returned. *)
Definition mutate (tutorialId : string) (f : TutorialProgress.t -> TutorialProgress.t)
           (tr : t) : t :=
  set_cache (alter f tutorialId (progressCache tr)) tr.

Definition pushCompleted (stepId : string) (p : TutorialProgress.t) : TutorialProgress.t :=
  TutorialProgress.mk (TutorialProgress.tutorialId p) (TutorialProgress.currentStepId p)
                      (TutorialProgress.completedSteps p ++ [stepId])
                      (TutorialProgress.lastAccessTime p).

Definition setLastAccessTime (now : Z) (p : TutorialProgress.t) : TutorialProgress.t :=
  TutorialProgress.mk (TutorialProgress.tutorialId p) (TutorialProgress.currentStepId p)
                      (TutorialProgress.completedSteps p) now.

Definition setCurrentStepId (stepId : string) (p : TutorialProgress.t) : TutorialProgress.t :=
  TutorialProgress.mk (TutorialProgress.tutorialId p) (Some stepId)
                      (TutorialProgress.completedSteps p)
                      (TutorialProgress.lastAccessTime p).

(** [completedSteps.includes(stepId)] *)
Definition includes (l : list string) (stepId : string) : bool :=
  existsb (String.eqb stepId) l.

Definition markStepCompleted (tutorialId stepId : string) (tr : t) : t :=
  let '(progress, tr1) := getProgress tutorialId tr in
  if negb (includes (TutorialProgress.completedSteps progress) stepId) then
    let tr2 := mutate tutorialId (pushCompleted stepId) tr1 in
    let '(now, tr3) := Date_now tr2 in
    let tr4 := mutate tutorialId (setLastAccessTime now) tr3 in
    saveToStorage tr4
  else tr1.

Definition setCurrentStep (tutorialId stepId : string) (tr : t) : t :=
  let '(progress, tr1) := getProgress tutorialId tr in
  let tr2 :=
    match TutorialProgress.currentStepId progress with
    | Some previous =>
        if JS.truthy previous && negb (String.eqb previous stepId)
        then markStepCompleted tutorialId previous tr1
        else tr1
    | None => tr1
    end in
  let tr3 := mutate tutorialId (setCurrentStepId stepId) tr2 in
  let '(now, tr4) := Date_now tr3 in
  let tr5 := mutate tutorialId (setLastAccessTime now) tr4 in
  saveToStorage tr5.

Definition resetProgress (tutorialId : string) (tr : t) : t :=
  let '(now, tr1) := Date_now tr in
  let newProgress := TutorialProgress.mk tutorialId None [] now in
  saveToStorage (set_cache (<[tutorialId := newProgress]> (progressCache tr1)) tr1).

Definition getStepStatus (tutorialId stepId : string) (tr : t) : StepStatus * t :=
  let '(progress, tr1) := getProgress tutorialId tr in
  (match TutorialProgress.currentStepId progress with
   | Some c =>
       if String.eqb c stepId then current
       else if includes (TutorialProgress.completedSteps progress) stepId
            then completed else pending
   | None =>
       if includes (TutorialProgress.completedSteps progress) stepId
       then completed else pending
   end, tr1).

(** [for (const step of steps) statusMap.set(step.id, getStepStatus(...))] *)
Definition getStepsStatus (tutorialId : string) (steps : list StepNode.t) (tr : t)
  : JSMap.t StepStatus * t :=
  fold_left (fun (acc : JSMap.t StepStatus * t) step =>
               let '(statusMap, tr0) := acc in
               let '(status, tr1) := getStepStatus tutorialId (StepNode.id step) tr0 in
               (JSMap.set (StepNode.id step) status statusMap, tr1))
            steps (JSMap.empty, tr).

Definition deleteProgress (tutorialId : string) (tr : t) : t :=
  saveToStorage (set_cache (delete tutorialId (progressCache tr)) tr).

End ProgressTracker.

(** ** Array methods used by the views and the export list *)

Module JSArray.
Section WithElement.
Context {A : Type}.

(** [l.findIndex(pred)]: [None] is [-1]. *)
Fixpoint findIndex (pred : A -> bool) (l : list A) : option nat :=
  match l with
  | [] => None
  | x :: l' => if pred x then Some O else option_map S (findIndex pred l')
  end.

(** What [l.splice(index, 1)] leaves in [l]. *)
Definition spliceOne (index : nat) (l : list A) : list A :=
  (take index l ++ drop (S index) l)%list.
End WithElement.
End JSArray.

(** ** The step tree ([ui/stepTreeProvider.ts]) *)

(** The string a status is in the source. *)
Definition statusName (status : StepStatus) : string :=
  match status with
  | completed => "completed"
  | current => "current"
  | pending => "pending"
  end.

Module StepTreeItem.
(** [vscode.TreeItemCollapsibleState] *)
Inductive CollapsibleState := NotCollapsible | Collapsed | Expanded.

(** The fields the constructor sets; tooltip and icon are functions of
    the step and the status and are left out. *)
Record t := mk {
  stepNode : StepNode.t;
  status : StepStatus;
  collapsibleState : CollapsibleState;
  label : string;
  id : string;
  description : string;
  contextValue : string;
  commandName : string;
  commandArguments : list string
}.

(** [new StepTreeItem(stepNode, status, collapsibleState)] *)
Definition new (stepNode : StepNode.t) (status : StepStatus)
           (collapsibleState : CollapsibleState) : t :=
  {| stepNode := stepNode;
     status := status;
     collapsibleState := collapsibleState;
     label := StepNode.title stepNode;
     id := StepNode.id stepNode;
     description := StepNode.description stepNode;
     contextValue := "step-" ++ statusName status;
     commandName := "interactiveTutorial.navigateToStep";
     commandArguments := [StepNode.id stepNode] |}.
End StepTreeItem.

Module StepTreeProvider.
(** The fields of the provider; [fired] counts the payloads sent on
    [_onDidChangeTreeData].  The tracker is the shared singleton and is
    threaded through the methods that consult it. *)
Record t := mk {
  tutorial : option Tutorial.t;
  stepMap : JSMap.t StepNode.t;
  fired : nat
}.

Definition init : t := mk None JSMap.empty 0.

Definition refresh (p : t) : t := mk (tutorial p) (stepMap p) (S (fired p)).

Definition setTutorial (tutorial : option Tutorial.t) (p : t) : t :=
  let stepMap :=
    match tutorial with
    | Some t =>
        fold_left (fun m step => JSMap.set (StepNode.id step) step m)
                  (Tutorial.steps t) JSMap.empty
    | None => JSMap.empty
    end in
  refresh (mk tutorial stepMap (fired p)).

Definition getStepStatus (stepId : string) (p : t) (tr : ProgressTracker.t)
  : StepStatus * ProgressTracker.t :=
  match tutorial p with
  | None => (pending, tr)
  | Some t => ProgressTracker.getStepStatus (Tutorial.id t) stepId tr
  end.

(** [hasChildren ? Expanded : None] *)
Definition collapsibleStateOf (step : StepNode.t) : StepTreeItem.CollapsibleState :=
  if (0 <? length (StepNode.children step))%nat
  then StepTreeItem.Expanded else StepTreeItem.NotCollapsible.

(** [steps.map(step => ...)] of [createTreeItems] *)
Fixpoint createTreeItems (steps : list StepNode.t) (p : t) (tr : ProgressTracker.t)
  : list StepTreeItem.t * ProgressTracker.t :=
  match steps with
  | [] => ([], tr)
  | step :: steps' =>
      let '(status, tr1) := getStepStatus (StepNode.id step) p tr in
      let item := StepTreeItem.new step status (collapsibleStateOf step) in
      let '(items, tr2) := createTreeItems steps' p tr1 in
      (item :: items, tr2)
  end.

(** [element] is [None] for the root of the view. *)
Definition getChildren (element : option StepTreeItem.t) (p : t)
           (tr : ProgressTracker.t)
  : list StepTreeItem.t * ProgressTracker.t :=
  match tutorial p with
  | None => ([], tr)
  | Some t =>
      match element with
      | None =>
          let rootSteps :=
            List.filter (fun s => negb (JS.truthy_opt (StepNode.parentId s)))
                        (Tutorial.steps t) in
          createTreeItems rootSteps p tr
      | Some element =>
          let childIds := StepNode.children (StepTreeItem.stepNode element) in
          let childSteps := omap (fun id => JSMap.get id (stepMap p)) childIds in
          createTreeItems childSteps p tr
      end
  end.

Definition getParent (element : StepTreeItem.t) (p : t) (tr : ProgressTracker.t)
  : option StepTreeItem.t * ProgressTracker.t :=
  match StepNode.parentId (StepTreeItem.stepNode element) with
  | Some parentId =>
      if JS.truthy parentId then
        match JSMap.get parentId (stepMap p) with
        | Some parentStep =>
            let '(status, tr1) := getStepStatus (StepNode.id parentStep) p tr in
            (Some (StepTreeItem.new parentStep status (collapsibleStateOf parentStep)),
             tr1)
        | None => (None, tr)
        end
      else (None, tr)
  | None => (None, tr)
  end.
End StepTreeProvider.

(** ** The diff view ([ui/diffViewer.ts]) *)

Module DiffFileListProvider.
Record t := mk {
  fileDiffs : list FileDiff.t;
  repoPath : string;
  fromRef : string;
  toRef : string;
  fired : nat
}.

Definition init : t := mk [] "" "" "" 0.

Definition refresh (p : t) : t :=
  mk (fileDiffs p) (repoPath p) (fromRef p) (toRef p) (S (fired p)).

Definition setDiffData (fileDiffs : list FileDiff.t) (repoPath fromRef toRef : string)
           (p : t) : t :=
  refresh (mk fileDiffs repoPath fromRef toRef (fired p)).

Definition clear (p : t) : t :=
  refresh (mk [] (repoPath p) (fromRef p) (toRef p) (fired p)).

(** The constructor arguments of the items [getChildren] returns. *)
Definition getChildren (p : t) : list (FileDiff.t * string * string * string) :=
  map (fun diff => (diff, repoPath p, fromRef p, toRef p)) (fileDiffs p).
End DiffFileListProvider.

Module DiffViewerManager.
(** The manager's provider, and the messages shown with
    [vscode.window.showErrorMessage]. *)
Record t := mk {
  diffFileListProvider : DiffFileListProvider.t;
  errorMessages : list string
}.

Definition init : t := mk DiffFileListProvider.init [].

Section Methods.
Context {W : Type} (H : Host W).

(** Everything the service throws is an [Error]: the message shown is
    built from [error.message]. *)
Definition showStepDiff (currentStep : StepNode.t) (previousStep : option StepNode.t)
           (repoPath : string) (v : t) (s : State W) : t * State W :=
  let fromRef := JS.or_else (option_map StepNode.gitRef previousStep) "" in
  let toRef := StepNode.gitRef currentStep in
  match GitService.getDiff H fromRef toRef s with
  | (Ok diffs, s1) =>
      (mk (DiffFileListProvider.setDiffData diffs repoPath fromRef toRef
             (diffFileListProvider v))
          (errorMessages v), s1)
  | (Throw error, s1) =>
      (mk (DiffFileListProvider.clear (diffFileListProvider v))
          (errorMessages v ++ ["获取 diff 失败: " ++ JsError.message error]), s1)
  end.
End Methods.

Definition clear (v : t) : t :=
  mk (DiffFileListProvider.clear (diffFileListProvider v)) (errorMessages v).
End DiffViewerManager.

(** ** The step-change listener ([extension.ts]) *)

Module Extension.
(** The components [activate] creates, and the requests made to the
    explanation panel ([showFromFile(path, title)]). *)
Record t := mk {
  progressTracker : ProgressTracker.t;
  stepTreeProvider : StepTreeProvider.t;
  diffViewerManager : DiffViewerManager.t;
  explanationRequests : list (string * string)
}.

(** [stepIndex > 0 ? tutorial.steps[stepIndex - 1] : null] *)
Definition previousStepOf (tutorial : Tutorial.t) (step : StepNode.t)
  : option StepNode.t :=
  match JSArray.findIndex (fun s => String.eqb (StepNode.id s) (StepNode.id step))
                  (Tutorial.steps tutorial) with
  | Some (S i) => nth_error (Tutorial.steps tutorial) i
  | _ => None
  end.

Section Listener.
Context {W : Type} (H : Host W).

(** The listener of [onStepChanged], run on the state at the event. *)
Definition onStepChangedListener (step : StepNode.t) (x : t) (s : State W)
  : t * State W :=
  match currentTutorial s with
  | None => (x, s)
  | Some tutorial =>
      let tr := ProgressTracker.setCurrentStep (Tutorial.id tutorial) (StepNode.id step)
                  (progressTracker x) in
      let tree := StepTreeProvider.refresh (stepTreeProvider x) in
      let previousStep := previousStepOf tutorial step in
      let '(diff, s1) :=
        DiffViewerManager.showStepDiff H step previousStep (Tutorial.rootPath tutorial)
                                       (diffViewerManager x) s in
      let explanationPath :=
        path_join H (Tutorial.rootPath tutorial) (StepNode.explanationPath step) in
      (mk tr tree diff
          (explanationRequests x ++ [(explanationPath, StepNode.title step)]), s1)
  end.
End Listener.
End Extension.


(** ** The snippet list ([services/exportModule.ts]) *)

Module CodeSnippet.
Record t := mk {
  id : string;
  filePath : string;
  startLine : option Z;
  endLine : option Z;
  content : string;
  stepId : string
}.
End CodeSnippet.

Module ExportModule.
(** [fired] counts the payloads sent on [onSnippetListChanged]; every
    payload is the list itself. *)
Record t := mk {
  snippetList : list CodeSnippet.t;
  fired : nat
}.

Definition init : t := mk [] 0.

Definition addSnippet (snippet : CodeSnippet.t) (m : t) : t :=
  let exists_ :=
    existsb (fun s => String.eqb (CodeSnippet.id s) (CodeSnippet.id snippet))
            (snippetList m) in
  if negb exists_ then mk (snippetList m ++ [snippet]) (S (fired m)) else m.

Definition removeSnippet (snippetId : string) (m : t) : t :=
  match JSArray.findIndex (fun s => String.eqb (CodeSnippet.id s) snippetId)
                          (snippetList m) with
  | Some index => mk (JSArray.spliceOne index (snippetList m)) (S (fired m))
  | None => m
  end.

(** [[...this.snippetList]] *)
Definition getSnippetList (m : t) : list CodeSnippet.t := snippetList m.

Definition clearSnippetList (m : t) : t := mk [] (S (fired m)).
End ExportModule.
(** ** Vocabulary of the statements *)

(** The distinct elements of a list, each at the place of its first
    occurrence. *)
Fixpoint firstOccurrences (l : list string) : list string :=
  match l with
  | [] => []
  | x :: l' =>
      x :: List.filter (fun y => negb (String.eqb y x)) (firstOccurrences l')
  end.

(** The ids a list of configs declares, in order. *)
Definition ids (cfgs : list StepConfig.t) : list string := map StepConfig.id cfgs.

(** The last config of the list that declares the id [i]. *)
Definition lastWithId (i : string) (cfgs : list StepConfig.t) : option StepConfig.t :=
  last (List.filter (fun c => String.eqb (StepConfig.id c) i) cfgs).

(** [node] names [k] as its parent (a falsy [parentId] names nobody). *)
Definition isChildOf (k : string) (node : StepNode.t) : bool :=
  match StepNode.parentId node with
  | Some p => JS.truthy p && String.eqb p k
  | None => false
  end.

(** The ids of the configs that declare [p] as their parent, in order. *)
Definition declaredChildren (p : string) (cfgs : list StepConfig.t) : list string :=
  ids (List.filter (fun c => bool_decide (StepConfig.parentId c = Some p)) cfgs).

(** A node with the children list the nodes [nodes] give it: the ids of
    the nodes that name it as their parent, in order. *)
Definition linked (nodes : list StepNode.t) (n : StepNode.t) : StepNode.t :=
  StepNode.with_children n
    (map StepNode.id (List.filter (isChildOf (StepNode.id n)) nodes)).

(** *** Diff parsing *)

(** A line that opens a file section or a hunk. *)
Definition isHeader (line : string) : bool :=
  match Regex.fileMatch line, Regex.hunkMatch line with
  | None, None => false
  | _, _ => true
  end.

(** [hdr] is a hunk header with the groups [g] (and not a file header). *)
Definition hunkHeader (hdr : string) (g : string * string * string * string) : Prop :=
  Regex.fileMatch hdr = None /\ Regex.hunkMatch hdr = Some g.

(** [f] is the file of the last file header among [lines]. *)
Definition fileAt (lines : list string) (f : string) : Prop :=
  exists pre fh post,
    lines = (pre ++ fh :: post)%list
    /\ Regex.fileMatch fh = Some f
    /\ Forall (fun l => Regex.fileMatch l = None) post.

(** The text kept for a hunk: its header line, then the lines of its body
    that start with [+], [-] or a space, joined by newlines. *)
Definition hunkText (hdr : string) (body : list string) : string :=
  JS.join (String "010" "") (hdr :: List.filter GitService.isHunkLine body).

(** The text of a hunk as the specification words it: the added, removed
    and context lines alone. *)
Definition statedHunkText (body : list string) : string :=
  JS.join (String "010" "") (List.filter GitService.isHunkLine body).

(** [h], filed under [f], is the hunk that [hdr] opens in [lines]: [body]
    runs up to the next header or to the end of the input. *)
Definition hunkOf (lines : list string) (f : string) (h : DiffHunk.t) : Prop :=
  exists pre hdr body rest g,
    lines = (pre ++ hdr :: body ++ rest)%list
    /\ fileAt pre f
    /\ hunkHeader hdr g
    /\ Forall (fun l => isHeader l = false) body
    /\ (rest = [] \/ exists l rest', rest = l :: rest' /\ isHeader l = true)
    /\ h = DiffHunk.with_content (GitService.newHunk g) (hunkText hdr body).

(** The hunk [h] is filed under [f] in [m]. *)
Definition filed (m : gmap string (list DiffHunk.t)) (f : string) (h : DiffHunk.t)
  : Prop :=
  exists hs, m !! f = Some hs /\ In h hs.

(** *** The invariant of the parsing loop *)

(** A hunk that a later header has closed. *)
Definition closedIn (done : list string) (f : string) (h : DiffHunk.t) : Prop :=
  exists pre hdr body rest g,
    done = (pre ++ hdr :: body ++ rest)%list
    /\ fileAt pre f
    /\ hunkHeader hdr g
    /\ Forall (fun l => isHeader l = false) body
    /\ (exists l rest', rest = l :: rest' /\ isHeader l = true)
    /\ h = DiffHunk.with_content (GitService.newHunk g) (hunkText hdr body).

(** The hunk that is open after the lines [done]. *)
Definition openIn (done : list string) (st : GitService.ParseState) (h : DiffHunk.t) : Prop :=
  exists pre hdr body g f,
    done = (pre ++ hdr :: body)%list
    /\ fileAt pre f
    /\ hunkHeader hdr g
    /\ Forall (fun l => isHeader l = false) body
    /\ h = GitService.newHunk g
    /\ GitService.hunkContent st = hdr :: List.filter GitService.isHunkLine body
    /\ GitService.currentFile st = Some f
    /\ JS.truthy f = true.

Record parseInv (done : list string) (st : GitService.ParseState) : Prop := {
  inv_closed : forall f hs h,
    GitService.hunksMap st !! f = Some hs -> In h hs -> closedIn done f h;
  inv_open : forall h, GitService.currentHunk st = Some h -> openIn done st h;
  inv_file : forall f, GitService.currentFile st = Some f -> fileAt done f
}.

(** *** Status classification *)

(** [insertions > 0 && deletions === 0], for an entry that has counts. *)
Definition insertionsOnly (file : DiffResultFile) : bool :=
  match file with
  | DiffResultTextFile _ _ insertions deletions =>
      (0 <? insertions)%Z && (deletions =? 0)%Z
  | DiffResultBinaryFile _ _ _ => false
  end.

(** [deletions > 0 && insertions === 0], for an entry that has counts. *)
Definition deletionsOnly (file : DiffResultFile) : bool :=
  match file with
  | DiffResultTextFile _ _ insertions deletions =>
      (0 <? deletions)%Z && (insertions =? 0)%Z
  | DiffResultBinaryFile _ _ _ => false
  end.

(** The parsed hunks have an entry for the path, and its first hunk has
    [oldLines == 0]. *)
Definition firstHunkIsNew (hunksMap : gmap string (list DiffHunk.t))
           (filePath : string) : bool :=
  match hunksMap !! filePath with
  | Some (h :: _) => (DiffHunk.oldLines h =? 0)%N
  | _ => false
  end.

(** The priority order as the specification words it. *)
Definition statedStatus (fromRef : string)
           (hunksMap : gmap string (list DiffHunk.t))
           (file : DiffResultFile) : FileStatus :=
  if JS.includes (GitService.fileOf file) " => " then renamed
  else if negb (JS.truthy fromRef) && firstHunkIsNew hunksMap (GitService.fileOf file)
       then added
  else if insertionsOnly file then added
  else if deletionsOnly file then deleted
  else modified.

(** The priority order the successive overwrites of [getDiff] amount to. *)
Definition priorityStatus (fromRef : string)
           (hunksMap : gmap string (list DiffHunk.t))
           (file : DiffResultFile) : FileStatus :=
  if firstHunkIsNew hunksMap (GitService.fileOf file) then added
  else if JS.includes (GitService.fileOf file) " => " then renamed
  else if insertionsOnly file && negb (JS.truthy fromRef) then added
  else if deletionsOnly file then deleted
  else modified.

(** The record [getDiff] builds for a summary entry, given its status. *)
Definition fileDiffWith (status : FileStatus)
           (hunksMap : gmap string (list DiffHunk.t))
           (file : DiffResultFile) : FileDiff.t :=
  {| FileDiff.filePath := GitService.fileOf file;
     FileDiff.status := status;
     FileDiff.additions :=
       match file with
       | DiffResultTextFile _ _ insertions _ => insertions
       | DiffResultBinaryFile _ _ _ => 0%Z
       end;
     FileDiff.deletions :=
       match file with
       | DiffResultTextFile _ _ _ deletions => deletions
       | DiffResultBinaryFile _ _ _ => 0%Z
       end;
     FileDiff.hunks := default [] (hunksMap !! GitService.fileOf file) |}.

(** *** A host for closed examples

    The world is a single value; simple-git answers with a fixed summary
    and a fixed diff text, resolves the refs of [knownRefs] only, reports
    the working tree as [clean], and answers the warning with [answer]. *)
Definition exampleHost (summary : list DiffResultFile) (diffOutput : string)
           (knownRefs : list string) (clean : bool) (answer : option string)
           (config : Result JValue.t)
  : Host unit :=
  {| simpleGit := fun _ _ => Ok tt;
     git_clone := fun _ _ w => (Ok tt, w);
     git_checkout := fun _ ref w =>
       (if bool_decide (ref ∈ knownRefs) then Ok tt
        else Throw (JsError.newError ("pathspec '" ++ ref ++ "' did not match")), w);
     git_stash := fun _ _ w => (Ok tt, w);
     git_status_isClean := fun _ _ => Ok clean;
     git_revparse := fun _ args _ =>
       match args with
       | [ref] => if bool_decide (ref ∈ knownRefs) then Ok ref
                  else Throw (JsError.newError "unknown revision")
       | _ => Throw (JsError.newError "unknown revision")
       end;
     git_diffSummary := fun _ _ _ => Ok summary;
     git_diff := fun _ _ _ => Ok diffOutput;
     fs_existsSync := fun p _ => String.eqb p "/repo/tutorial.json";
     fs_readFile := fun _ _ => Ok "";
     path_join := fun a b => a ++ "/" ++ b;
     path_extname_lower := fun _ => ".json";
     os_tmpdir := "/tmp";
     Date_now := fun _ => 0%Z;
     yaml_load := fun _ => config;
     JSON_parse := fun _ => config;
     base64 := fun s => s;
     showWarningMessage := fun _ _ _ => answer;
     revertVisibleEditors := fun w => (Ok tt, w) |}.

(** A state with the git service bound to [/repo]. *)
Definition boundState (t : option Tutorial.t) : State unit :=
  mkState tt (Some "/repo") (Some "/repo") [] t [] [].

(** The two refs [getDiff] hands to simple-git. *)
Definition comparedRefs (fromRef toRef : string) : list string :=
  if JS.truthy fromRef then [fromRef; toRef] else [GitService.emptyTree; toRef].

(** *** Progress records *)

(** The completed steps recorded for a tutorial (none without a record). *)
Definition completedOf (tutorialId : string) (tr : ProgressTracker.t) : list string :=
  match ProgressTracker.progressCache tr !! tutorialId with
  | Some p => TutorialProgress.completedSteps p
  | None => []
  end.

Definition lastAccessOf (tutorialId : string) (tr : ProgressTracker.t) : option Z :=
  TutorialProgress.lastAccessTime <$> ProgressTracker.progressCache tr !! tutorialId.

Definition currentOf (tutorialId : string) (tr : ProgressTracker.t) : option string :=
  ProgressTracker.progressCache tr !! tutorialId ≫= TutorialProgress.currentStepId.

(** The number of persistence writes made so far. *)
Definition writes (tr : ProgressTracker.t) : nat :=
  match ProgressTracker.context tr with
  | Some ctx => Memento.updates ctx
  | None => 0
  end.

(** The value of the most recent reading of the clock. *)
Definition lastReading (tr : ProgressTracker.t) : Z :=
  ProgressTracker.clock tr (pred (ProgressTracker.reads tr)).

(** *** Loading and navigation *)

(** [ref] resolves in the working tree [baseDir] of the world [w]. *)
Definition resolves {W} (H : Host W) (baseDir : string) (w : W) (ref : string) : bool :=
  match git_revparse H baseDir [ref] w with
  | Ok _ => true
  | Throw _ => false
  end.

(** The steps whose ref does not resolve, in order. *)
Definition offendingSteps {W} (H : Host W) (baseDir : string) (w : W)
           (steps : list StepConfig.t) : list StepConfig.t :=
  List.filter (fun step => negb (resolves H baseDir w (StepConfig.gitRef step))) steps.

(** The part of [loadTutorial] before the refs are checked: binding the
    service (cloning first for a remote source), locating the config
    document and parsing it. *)
Definition loadConfig {W} (H : Host W) (source : string)
  : Eff.M W (string * TutorialConfig.t) :=
  (let! repoPath :=
     (if TutorialManager.isRemoteUrl source then
        let! s := Eff.get in
        let tempDir := path_join H (TutorialManager.getTempDir H)
                                 ("tutorial-" ++ pretty (Date_now H (world s))) in
        do! GitService.clone H source tempDir in
        Eff.ret tempDir
      else
        do! GitService.initialize H source in
        Eff.ret source) in
   let! configPath := TutorialManager.findConfigFile H repoPath in
   if negb (JS.truthy_opt configPath) then
     Eff.throw (JsError.newError
       "未找到教程配置文件 (tutorial.yaml, tutorial.yml, 或 tutorial.json)")
   else
     let! config := ConfigParser.parse H (default "" configPath) in
     Eff.ret (repoPath, config))%eff.

(** The tutorial [loadTutorial] constructs from a parsed config. *)
Definition tutorialOf {W} (H : Host W) (repoPath : string) (config : TutorialConfig.t)
  : Tutorial.t :=
  {| Tutorial.id := TutorialManager.generateTutorialId H repoPath;
     Tutorial.name := TutorialConfig.name config;
     Tutorial.description := TutorialConfig.description config;
     Tutorial.rootPath := repoPath;
     Tutorial.steps := ConfigParser.buildStepTree (TutorialConfig.steps config);
     Tutorial.currentStepId := None |}.

(** A computation that leaves the manager's own fields alone: the current
    tutorial and the payloads fired so far. *)
Definition keepsTutorial {W A} (c : Eff.M W A) : Prop :=
  forall s, currentTutorial (snd (c s)) = currentTutorial s
            /\ onTutorialLoaded (snd (c s)) = onTutorialLoaded s
            /\ onStepChanged (snd (c s)) = onStepChanged s.

(** A computation that leaves the binding of the git service alone. *)
Definition keepsBinding {W A} (c : Eff.M W A) : Prop :=
  forall s, git (snd (c s)) = git s.

(** The question [navigateToStep] asks on a dirty working tree. *)
Definition dirtyAnswer {W} (H : Host W) (w : W) : option string :=
  showWarningMessage H "当前有未保存的修改，是否继续切换步骤？"
    [TutorialManager.stashAndContinue; TutorialManager.discardAndContinue;
     TutorialManager.cancel] w.

(** The part of [navigateToStep] after the step has been found. *)
Definition navigateFrom {W} (H : Host W) (stepId : string) (step : StepNode.t)
  : Eff.M W unit :=
  Eff.bind (TutorialManager.dirtyGate H)
    (fun go =>
       if negb go then Eff.ret tt
       else
         Eff.bind (GitService.checkout H (StepNode.gitRef step))
           (fun _ =>
              Eff.bind
                (Eff.modify (fun s' =>
                   set_currentTutorial
                     (option_map (fun t => Tutorial.with_currentStepId t (Some stepId))
                                 (currentTutorial s')) s'))
                (fun _ =>
                   Eff.bind (Eff.modify (fire_onStepChanged step))
                            (fun _ => TutorialManager.refreshOpenEditors H)))).

(** *** Inputs of the closed examples *)

(** An existing file that gains two lines between two steps. *)
Definition growDiff : string :=
  "diff --git a/a.txt b/a.txt
index 1111111..2222222 100644
--- a/a.txt
+++ b/a.txt
@@ -1,3 +1,5 @@
 one
+two
+three
 four
 five".

Definition growSummary : list DiffResultFile :=
  [DiffResultTextFile "a.txt" 2 2 0].


Definition growBody : list string :=
  [" one"; "+two"; "+three"; " four"; " five"].

(** The hunk the code returns for [growDiff]. *)
Definition growHunk : DiffHunk.t :=
  DiffHunk.mk 1 3 1 5
    "@@ -1,3 +1,5 @@
 one
+two
+three
 four
 five".

(** A tracker bound to an empty store, holding one record for ["T"], with
    a clock that reads 9. *)
Definition exampleTracker : ProgressTracker.t :=
  ProgressTracker.mk (Some (Memento.mk ∅ 0))
    {[ "T" := TutorialProgress.mk "T" (Some "s2") ["s1"] 5 ]}
    (fun _ => 9%Z) 0.

(** A config document with three steps; only the ref [v1] will exist. *)
Definition exampleStep (id gitRef : string) : JValue.t :=
  JValue.JObject [("id", JValue.JString id); ("title", JValue.JString id);
                  ("gitRef", JValue.JString gitRef);
                  ("explanation", JValue.JString "doc.md")].

Definition exampleConfig : JValue.t :=
  JValue.JObject
    [("name", JValue.JString "Demo"); ("description", JValue.JString "A demo");
     ("version", JValue.JString "1.0.0");
     ("steps", JValue.JArray [exampleStep "step-1" "v1"; exampleStep "step-2" "v9";
                              exampleStep "step-3" "v8"])].

(** A loaded tutorial with two steps, at [step-1]. *)
Definition exampleTutorial : Tutorial.t :=
  {| Tutorial.id := "demo"; Tutorial.name := "Demo"; Tutorial.description := "A demo";
     Tutorial.rootPath := "/repo";
     Tutorial.steps :=
       [StepNode.mk "step-1" "Step 1" "" "v1" None ["step-2"] "doc1.md";
        StepNode.mk "step-2" "Step 2" "" "v2" (Some "step-1") [] "doc2.md"];
     Tutorial.currentStepId := Some "step-1" |}.

(** Three configs, the id ["a"] declared twice. *)
Definition duplicateConfigs : list StepConfig.t :=
  [StepConfig.mk "a" "A" None "r1" None "a.md";
   StepConfig.mk "b" "B" None "r2" (Some "a") "b.md";
   StepConfig.mk "a" "A2" None "r3" None "a2.md"].

(** ** Vocabulary of the further properties *)

(** *** Progress *)

(** The status a step has by direct inspection of the record. *)
Definition statusOf (tutorialId stepId : string) (tr : ProgressTracker.t) : StepStatus :=
  if bool_decide (currentOf tutorialId tr = Some stepId) then current
  else if ProgressTracker.includes (completedOf tutorialId tr) stepId then completed
  else pending.

(** The step that [setCurrentStep] completes on the way: the previous
    current step, when it is a non-empty id other than the new one and is
    not completed yet. *)
Definition previousToComplete (tutorialId stepId : string) (tr : ProgressTracker.t)
  : list string :=
  match currentOf tutorialId tr with
  | Some previous =>
      if JS.truthy previous && negb (String.eqb previous stepId)
         && negb (ProgressTracker.includes (completedOf tutorialId tr) previous)
      then [previous] else []
  | None => []
  end.

(** [setCurrentStep] in two halves: the optional completion of the
    previous step, and the writes to the record. *)
Definition setCurrentStepHead (tutorialId stepId : string) (tr : ProgressTracker.t)
  : ProgressTracker.t :=
  let '(progress, tr1) := ProgressTracker.getProgress tutorialId tr in
  match TutorialProgress.currentStepId progress with
  | Some previous =>
      if JS.truthy previous && negb (String.eqb previous stepId)
      then ProgressTracker.markStepCompleted tutorialId previous tr1
      else tr1
  | None => tr1
  end.

Definition setCurrentStepTail (tutorialId stepId : string) (tr2 : ProgressTracker.t)
  : ProgressTracker.t :=
  let tr3 := ProgressTracker.mutate tutorialId
               (ProgressTracker.setCurrentStepId stepId) tr2 in
  let '(now, tr4) := ProgressTracker.Date_now tr3 in
  ProgressTracker.saveToStorage
    (ProgressTracker.mutate tutorialId (ProgressTracker.setLastAccessTime now) tr4).

(** The calls a client of the tracker can make. *)
Inductive TrackerCall :=
| CallGetProgress (tutorialId : string)
| CallMarkStepCompleted (tutorialId stepId : string)
| CallSetCurrentStep (tutorialId stepId : string)
| CallResetProgress (tutorialId : string)
| CallGetStepStatus (tutorialId stepId : string)
| CallDeleteProgress (tutorialId : string).

Definition runCall (tr : ProgressTracker.t) (c : TrackerCall) : ProgressTracker.t :=
  match c with
  | CallGetProgress tutorialId => snd (ProgressTracker.getProgress tutorialId tr)
  | CallMarkStepCompleted tutorialId stepId =>
      ProgressTracker.markStepCompleted tutorialId stepId tr
  | CallSetCurrentStep tutorialId stepId =>
      ProgressTracker.setCurrentStep tutorialId stepId tr
  | CallResetProgress tutorialId => ProgressTracker.resetProgress tutorialId tr
  | CallGetStepStatus tutorialId stepId =>
      snd (ProgressTracker.getStepStatus tutorialId stepId tr)
  | CallDeleteProgress tutorialId => ProgressTracker.deleteProgress tutorialId tr
  end.

Definition runCalls (calls : list TrackerCall) (tr : ProgressTracker.t)
  : ProgressTracker.t :=
  fold_left runCall calls tr.

(** Every record is filed under its own tutorial id and lists no step
    twice. *)
Definition recordsWellFormed (tr : ProgressTracker.t) : Prop :=
  forall tutorialId p,
    ProgressTracker.progressCache tr !! tutorialId = Some p ->
    TutorialProgress.tutorialId p = tutorialId
    /\ NoDup (TutorialProgress.completedSteps p).

(** A tracker as the constructor leaves it, with a given clock. *)
Definition newTracker (clock : nat -> Z) : ProgressTracker.t :=
  ProgressTracker.mk None ∅ clock 0.

(** The calls that end in a save whatever the state: [markStepCompleted]
    saves only when the step is new. *)
Definition savingCall (tr : ProgressTracker.t) (c : TrackerCall) : bool :=
  match c with
  | CallGetProgress _ | CallGetStepStatus _ _ => false
  | CallMarkStepCompleted tutorialId stepId =>
      negb (ProgressTracker.includes (completedOf tutorialId tr) stepId)
  | CallSetCurrentStep _ _ | CallResetProgress _ | CallDeleteProgress _ => true
  end.

(** The entry [getStepsStatus] files for a step id. *)
Definition statusEntry (tutorialId : string) (tr : ProgressTracker.t) (stepId : string)
  : string * StepStatus :=
  (stepId, statusOf tutorialId stepId tr).

(** *** Git *)

(** The error of [getGit] on a service that was never bound. *)
Definition notInitialized : JsError.t :=
  JsError.newError "Git service not initialized. Call initialize() first.".

(** A hunk header as git prints it, with both counts, followed by
    anything. *)
Definition hunkHeaderLine (oldStart oldLines newStart newLines : N) (tail : string)
  : string :=
  "@@ -" ++ pretty oldStart ++ "," ++ pretty oldLines
  ++ " +" ++ pretty newStart ++ "," ++ pretty newLines ++ " @@" ++ tail.

(** A hunk header without counts (git omits a count of one). *)
Definition shortHunkHeaderLine (oldStart newStart : N) (tail : string) : string :=
  "@@ -" ++ pretty oldStart ++ " +" ++ pretty newStart ++ " @@" ++ tail.

(** The header line git prints for a file section. *)
Definition fileHeaderLine (oldPath newPath : string) : string :=
  "diff --git a/" ++ oldPath ++ " b/" ++ newPath.

(** *** Config documents *)

(** What the validator asks of a step and of a document, on the typed
    view. *)
Definition wellFormedStep (c : StepConfig.t) : Prop :=
  StepConfig.id c <> "" /\ StepConfig.title c <> ""
  /\ StepConfig.gitRef c <> "" /\ StepConfig.explanation c <> "".

Definition wellFormedConfig (config : TutorialConfig.t) : Prop :=
  TutorialConfig.name config <> ""
  /\ TutorialConfig.description config <> ""
  /\ TutorialConfig.version config <> ""
  /\ TutorialConfig.steps config <> []
  /\ Forall wellFormedStep (TutorialConfig.steps config)
  /\ NoDup (ids (TutorialConfig.steps config))
  /\ (forall c p, In c (TutorialConfig.steps config) ->
                  StepConfig.parentId c = Some p -> p <> "" ->
                  In p (ids (TutorialConfig.steps config))).

(** The document a typed config is the view of: optional fields that are
    [undefined] are absent. *)
Definition optField (k : string) (v : option string) : list (string * JValue.t) :=
  match v with
  | Some s => [(k, JValue.JString s)]
  | None => []
  end.

Definition ofStepConfig (c : StepConfig.t) : JValue.t :=
  JValue.JObject
    ([("id", JValue.JString (StepConfig.id c));
      ("title", JValue.JString (StepConfig.title c));
      ("gitRef", JValue.JString (StepConfig.gitRef c));
      ("explanation", JValue.JString (StepConfig.explanation c))]
     ++ optField "description" (StepConfig.description c)
     ++ optField "parentId" (StepConfig.parentId c))%list.

Definition ofTutorialConfig (config : TutorialConfig.t) : JValue.t :=
  JValue.JObject
    [("name", JValue.JString (TutorialConfig.name config));
     ("description", JValue.JString (TutorialConfig.description config));
     ("version", JValue.JString (TutorialConfig.version config));
     ("steps", JValue.JArray (map ofStepConfig (TutorialConfig.steps config)))].

(** [null] or [undefined]. *)
Definition nullish (v : JValue.t) : bool :=
  match v with
  | JValue.JNull | JValue.JUndefined => true
  | _ => false
  end.

(** *** The manager *)

(** A computation that only reads: it hands back the state it got. *)
Definition readOnly {W A} (c : Eff.M W A) : Prop :=
  forall s, snd (c s) = s.

(** The arguments of the stash that [navigateToStep] may issue. *)
Definition stashPush : list string := ["push"; "-m"; "tutorial-system-auto-stash"].

(** The directory a remote tutorial is cloned into. *)
Definition cloneTarget {W} (H : Host W) (w : W) : string :=
  path_join H (TutorialManager.getTempDir H) ("tutorial-" ++ pretty (Date_now H w)).

(** The part of [navigateToStep] after the dirty-state gate. *)
Definition completeNavigation {W} (H : Host W) (stepId : string) (step : StepNode.t)
  : Eff.M W unit :=
  Eff.bind (GitService.checkout H (StepNode.gitRef step))
    (fun _ =>
       Eff.bind
         (Eff.modify (fun s' =>
            set_currentTutorial
              (option_map (fun t => Tutorial.with_currentStepId t (Some stepId))
                          (currentTutorial s')) s'))
         (fun _ =>
            Eff.bind (Eff.modify (fire_onStepChanged step))
                     (fun _ => TutorialManager.refreshOpenEditors H))).

(** The state a navigation that went through leaves: the world [w] and
    the commands [calls], the tutorial [t] at the step, the step fired. *)
Definition navigated {W} (stepId : string) (step : StepNode.t) (t : Tutorial.t)
           (w : W) (calls : list GitCall) (s : State W) : State W :=
  mkState w (git s) (repoPath s) calls
          (Some (Tutorial.with_currentStepId t (Some stepId)))
          (onTutorialLoaded s) (onStepChanged s ++ [step]).

(** The state a navigation that failed leaves. *)
Definition stranded {W} (w : W) (calls : list GitCall) (s : State W) : State W :=
  mkState w (git s) (repoPath s) calls (currentTutorial s)
          (onTutorialLoaded s) (onStepChanged s).


(** *** The views *)

(** The item the tree shows for a step, given the record of the
    tutorial. *)
Definition treeItemOf (t : Tutorial.t) (tr : ProgressTracker.t) (step : StepNode.t)
  : StepTreeItem.t :=
  StepTreeItem.new step (statusOf (Tutorial.id t) (StepNode.id step) tr)
                   (StepTreeProvider.collapsibleStateOf step).

(** A step without a parent: [parentId] is [null] or empty. *)
Definition isRoot (step : StepNode.t) : bool :=
  negb (JS.truthy_opt (StepNode.parentId step)).

(** The ref a step's diff starts from: the ref of the step before it,
    or the empty string (the empty tree) when there is none. *)
Definition diffBase (previousStep : option StepNode.t) : string :=
  JS.or_else (option_map StepNode.gitRef previousStep) "".

(** *** The report of the validator *)

(** The errors of the first pass on steps whose fields are in order: one
    for every step whose id was declared before it ([seen] holds the ids
    declared so far). *)
Fixpoint duplicateErrors (seen : list string) (index : nat) (cs : list StepConfig.t)
  : list ValidationError.t :=
  match cs with
  | [] => []
  | c :: cs' =>
      ((if bool_decide (StepConfig.id c ∈ seen)
        then [ConfigParser.err (("steps[" ++ pretty index ++ "]") ++ ".id")
                               ("duplicate step id: " ++ StepConfig.id c)]
        else [])
       ++ duplicateErrors (seen ++ [StepConfig.id c]) (S index) cs')%list
  end.

(** The errors of the second pass: one for every step whose non-empty
    parentId is not among the declared ids. *)
Fixpoint danglingErrors (declared : list string) (index : nat) (cs : list StepConfig.t)
  : list ValidationError.t :=
  match cs with
  | [] => []
  | c :: cs' =>
      (match StepConfig.parentId c with
       | Some p =>
           if JS.truthy p && negb (bool_decide (p ∈ declared))
           then [ConfigParser.err ("steps[" ++ pretty index ++ "].parentId")
                                  ("parentId references non-existent step: " ++ p)]
           else []
       | None => []
       end
       ++ danglingErrors declared (S index) cs')%list
  end.

(** The document the parser of the file's extension made of [content]. *)
Definition loadedAs {W} (H : Host W) (configPath content : string) (raw : JValue.t)
  : Prop :=
  (path_extname_lower H configPath = ".yaml" \/ path_extname_lower H configPath = ".yml")
  /\ yaml_load H content = Ok raw
  \/ path_extname_lower H configPath = ".json" /\ JSON_parse H content = Ok raw.

(** *** The snippet list *)

(** The calls a client of the export list can make. *)
Inductive SnippetCall :=
| CallAddSnippet (snippet : CodeSnippet.t)
| CallRemoveSnippet (snippetId : string)
| CallClearSnippetList.

Definition runSnippetCall (m : ExportModule.t) (c : SnippetCall) : ExportModule.t :=
  match c with
  | CallAddSnippet snippet => ExportModule.addSnippet snippet m
  | CallRemoveSnippet snippetId => ExportModule.removeSnippet snippetId m
  | CallClearSnippetList => ExportModule.clearSnippetList m
  end.

Definition runSnippetCalls (calls : list SnippetCall) (m : ExportModule.t)
  : ExportModule.t :=
  fold_left runSnippetCall calls m.

(** The ids on the list, in order. *)
Definition snippetIds (m : ExportModule.t) : list string :=
  map CodeSnippet.id (ExportModule.snippetList m).

(* ===================================================================== *)
(** * Part II: properties                                                 *)
(* ===================================================================== *)

(** ** Facts about the ordered map *)

Section JSMapFacts.
Context {V : Type}.
Implicit Types (m : JSMap.t V) (k : string) (v : V).

Lemma get_set_same k v m : JSMap.get k (JSMap.set k v m) = Some v.
Proof.
  induction m as [|[k' v'] m IH]; simpl.
  - now rewrite String.eqb_refl.
  - destruct (String.eqb k k') eqn:E; simpl.
    + now rewrite String.eqb_refl.
    + now rewrite E.
Qed.

Lemma get_set_other k k' v m :
  k' <> k -> JSMap.get k' (JSMap.set k v m) = JSMap.get k' m.
Proof.
  intros Hne. induction m as [|[k0 v0] m IH]; simpl.
  - apply String.eqb_neq in Hne. now rewrite Hne.
  - destruct (String.eqb k k0) eqn:E; simpl.
    + apply String.eqb_eq in E. subst k0.
      apply String.eqb_neq in Hne. now rewrite Hne.
    + now rewrite IH.
Qed.

Lemma get_None_keys k m : JSMap.get k m = None <-> ~ In k (JSMap.keys m).
Proof.
  induction m as [|[k0 v0] m IH]; simpl.
  - tauto.
  - destruct (String.eqb k k0) eqn:E.
    + apply String.eqb_eq in E. subst. split; [discriminate | tauto].
    + apply String.eqb_neq in E. rewrite IH. split; intros H.
      * intros [->|Hin]; [congruence | tauto].
      * tauto.
Qed.

(** [set] keeps the position of a key that is present and appends a new
    key at the end. *)
Lemma set_present k v m :
  In k (JSMap.keys m) -> JSMap.keys (JSMap.set k v m) = JSMap.keys m.
Proof.
  induction m as [|[k0 v0] m IH]; simpl; [tauto|].
  intros Hin. destruct (String.eqb k k0) eqn:E; simpl.
  - apply String.eqb_eq in E. now subst.
  - apply String.eqb_neq in E. f_equal. apply IH.
    destruct Hin; [congruence | assumption].
Qed.

Lemma set_absent k v m :
  ~ In k (JSMap.keys m) -> JSMap.set k v m = (m ++ [(k, v)])%list.
Proof.
  induction m as [|[k0 v0] m IH]; simpl; [reflexivity|].
  intros Hnin. destruct (String.eqb k k0) eqn:E.
  - apply String.eqb_eq in E. subst. tauto.
  - f_equal. apply IH. tauto.
Qed.

(** On a map without repeated keys, [update] changes exactly the entry
    of the key. *)
Lemma update_map k (f : V -> V) m :
  NoDup (JSMap.keys m) ->
  JSMap.update k f m
  = map (fun kv => (fst kv, if String.eqb k (fst kv) then f (snd kv) else snd kv)) m.
Proof.
  induction m as [|[k0 v0] m IH]; simpl; [reflexivity|].
  intros Hnd. apply NoDup_cons in Hnd as [Hnin Hnd].
  destruct (String.eqb k k0) eqn:E.
  - f_equal. apply String.eqb_eq in E. subst k0.
    clear IH Hnd. induction m as [|[k1 v1] m IH]; simpl; [reflexivity|].
    simpl in Hnin. rewrite list_elem_of_In in Hnin. simpl in Hnin.
    destruct (String.eqb k k1) eqn:E1.
    + apply String.eqb_eq in E1. subst. tauto.
    + f_equal. apply IH. rewrite list_elem_of_In. tauto.
  - f_equal. now apply IH.
Qed.
End JSMapFacts.

(** ** buildStepTree *)

Section BuildStepTree.
Import ConfigParser.

Lemma filter_neq_notin (x : string) (l : list string) :
  ~ In x l -> List.filter (fun y => negb (String.eqb y x)) l = l.
Proof.
  induction l as [|y l IH]; simpl; [reflexivity|].
  intros Hnin. destruct (String.eqb y x) eqn:E; simpl.
  - apply String.eqb_eq in E. subst. tauto.
  - f_equal. apply IH. tauto.
Qed.

Lemma firstOccurrences_In (l : list string) (x : string) :
  In x (firstOccurrences l) <-> In x l.
Proof.
  induction l as [|y l IH]; simpl; [tauto|].
  rewrite filter_In, IH. destruct (String.eqb x y) eqn:E.
  - apply String.eqb_eq in E. subst. tauto.
  - apply String.eqb_neq in E. simpl. split.
    + intros [->|[? _]]; tauto.
    + intros [->|?]; [tauto|]. right. split; [assumption | reflexivity].
Qed.

Lemma NoDup_filter_bool {A} (f : A -> bool) (l : list A) :
  NoDup l -> NoDup (List.filter f l).
Proof.
  induction 1 as [|x l Hnin Hnd IH]; simpl; [constructor|].
  destruct (f x); [|assumption].
  constructor; [|assumption].
  rewrite list_elem_of_In, filter_In. rewrite list_elem_of_In in Hnin. tauto.
Qed.

Lemma firstOccurrences_NoDup (l : list string) : NoDup (firstOccurrences l).
Proof.
  induction l as [|y l IH]; simpl; constructor.
  - rewrite list_elem_of_In, filter_In. intros [_ H].
    now rewrite String.eqb_refl in H.
  - now apply NoDup_filter_bool.
Qed.

Lemma firstOccurrences_nodup_id (l : list string) :
  NoDup l -> firstOccurrences l = l.
Proof.
  induction 1 as [|x l Hnin Hnd IH]; simpl; [reflexivity|].
  rewrite IH. f_equal. apply filter_neq_notin.
  now rewrite <- list_elem_of_In.
Qed.

(** Reading the list from the left: a new element is appended, a
    repeated one changes nothing. *)
Lemma firstOccurrences_snoc (l : list string) (x : string) :
  firstOccurrences (l ++ [x])
  = if bool_decide (x ∈ l) then firstOccurrences l
    else (firstOccurrences l ++ [x])%list.
Proof.
  induction l as [|y l IH]; simpl; [reflexivity|].
  rewrite IH. destruct (String.eqb x y) eqn:E.
  - apply String.eqb_eq in E. subst y.
    rewrite (bool_decide_eq_true_2 (x ∈ x :: l)) by apply list_elem_of_here.
    case_bool_decide; [reflexivity|].
    rewrite List.filter_app. simpl. rewrite String.eqb_refl. simpl.
    now rewrite app_nil_r.
  - apply String.eqb_neq in E.
    case_bool_decide as Hin.
    + rewrite (bool_decide_eq_true_2 (x ∈ y :: l)); [reflexivity|].
      now apply list_elem_of_further.
    + rewrite (bool_decide_eq_false_2 (x ∈ y :: l)).
      * rewrite List.filter_app. simpl.
        apply String.eqb_neq in E. rewrite E. reflexivity.
      * rewrite elem_of_cons. tauto.
Qed.

Lemma firstOccurrences_length (l : list string) :
  (length (firstOccurrences l) <= length l)%nat.
Proof.
  induction l as [|x l IH] using rev_ind; simpl; [lia|].
  rewrite firstOccurrences_snoc, length_app. simpl.
  case_bool_decide; [lia|]. rewrite length_app. simpl. lia.
Qed.

Lemma firstOccurrences_shorter (l : list string) :
  ~ NoDup l -> (length (firstOccurrences l) < length l)%nat.
Proof.
  induction l as [|x l IH] using rev_ind; simpl.
  - intros H. destruct H. constructor.
  - intros Hdup. rewrite firstOccurrences_snoc, length_app. simpl.
    pose proof (firstOccurrences_length l).
    case_bool_decide as Hin; [lia|].
    rewrite length_app. simpl.
    assert (~ NoDup l).
    { intros Hnd. apply Hdup. apply NoDup_app. split; [assumption|].
      split; [|apply NoDup_singleton].
      intros y Hy Hy'. apply list_elem_of_singleton in Hy'. now subst. }
    specialize (IH H0). lia.
Qed.

Lemma createNodes_snoc cfgs c :
  createNodes (cfgs ++ [c])
  = JSMap.set (StepConfig.id c) (newNode c) (createNodes cfgs).
Proof. unfold createNodes. now rewrite fold_left_app. Qed.

(** One node per distinct id, at the place of the first occurrence. *)
Lemma createNodes_keys cfgs :
  JSMap.keys (createNodes cfgs) = firstOccurrences (ids cfgs).
Proof.
  induction cfgs as [|c cfgs IH] using rev_ind; [reflexivity|].
  rewrite createNodes_snoc. unfold ids in *. rewrite map_app. simpl.
  rewrite firstOccurrences_snoc. case_bool_decide as Hin.
  - rewrite set_present; [assumption|].
    rewrite IH. apply firstOccurrences_In. now apply list_elem_of_In.
  - rewrite set_absent.
    + unfold JSMap.keys in *. rewrite map_app. simpl. now rewrite IH.
    + rewrite IH. rewrite firstOccurrences_In. now rewrite <- list_elem_of_In.
Qed.

Lemma createNodes_NoDup cfgs : NoDup (JSMap.keys (createNodes cfgs)).
Proof. rewrite createNodes_keys. apply firstOccurrences_NoDup. Qed.

Lemma lastWithId_snoc i cfgs c :
  lastWithId i (cfgs ++ [c])
  = if String.eqb (StepConfig.id c) i then Some c else lastWithId i cfgs.
Proof.
  unfold lastWithId. rewrite List.filter_app. simpl.
  destruct (String.eqb (StepConfig.id c) i).
  - apply last_snoc.
  - now rewrite app_nil_r.
Qed.

(** The config that occurs last for an id is the one that is kept. *)
Lemma createNodes_get cfgs i :
  JSMap.get i (createNodes cfgs) = option_map newNode (lastWithId i cfgs).
Proof.
  induction cfgs as [|c cfgs IH] using rev_ind; [reflexivity|].
  rewrite createNodes_snoc, lastWithId_snoc.
  destruct (String.eqb (StepConfig.id c) i) eqn:E.
  - apply String.eqb_eq in E. subst i. apply get_set_same.
  - apply String.eqb_neq in E. rewrite get_set_other by congruence. exact IH.
Qed.

Lemma get_In_NoDup {V} (m : JSMap.t V) k v :
  NoDup (JSMap.keys m) -> In (k, v) m -> JSMap.get k m = Some v.
Proof.
  induction m as [|[k0 v0] m IH]; simpl; [tauto|].
  intros Hnd Hin. apply NoDup_cons in Hnd as [Hnin Hnd].
  destruct Hin as [Heq|Hin].
  - inversion Heq. subst. now rewrite String.eqb_refl.
  - destruct (String.eqb k k0) eqn:E.
    + apply String.eqb_eq in E. subst k0. exfalso. apply Hnin.
      rewrite list_elem_of_In. unfold JSMap.keys.
      apply in_map_iff. now exists (k, v).
    + now apply IH.
Qed.

Lemma lastWithId_Some i cfgs c :
  lastWithId i cfgs = Some c ->
  StepConfig.id c = i /\
  exists pre post, cfgs = (pre ++ c :: post)%list
                   /\ Forall (fun c' => StepConfig.id c' <> i) post.
Proof.
  induction cfgs as [|c0 cfgs IH] using rev_ind.
  - discriminate.
  - rewrite lastWithId_snoc. destruct (String.eqb (StepConfig.id c0) i) eqn:E.
    + intros [= ->]. apply String.eqb_eq in E. split; [assumption|].
      exists cfgs, []. split; [reflexivity | constructor].
    + intros Hl. destruct (IH Hl) as [Hid (pre & post & -> & Hpost)].
      split; [assumption|].
      exists pre, (post ++ [c0])%list. split.
      * now rewrite <- app_assoc.
      * apply Forall_app. split; [assumption|].
        constructor; [|constructor]. now apply String.eqb_neq.
Qed.

(** Every entry of the first pass is the fresh node of the last config
    with its key. *)
Lemma createNodes_entries cfgs k n :
  In (k, n) (createNodes cfgs) ->
  exists c, lastWithId k cfgs = Some c /\ n = newNode c.
Proof.
  intros Hin. apply get_In_NoDup in Hin; [|apply createNodes_NoDup].
  rewrite createNodes_get in Hin.
  destruct (lastWithId k cfgs) as [c|]; [|discriminate].
  inversion Hin. now exists c.
Qed.

(** *** The second pass *)

Lemma linkNode_map (m : JSMap.t StepNode.t) (node : StepNode.t) :
  NoDup (JSMap.keys m) ->
  linkNode m node
  = map (fun kn => (fst kn,
                    if isChildOf (fst kn) node
                    then pushChild (StepNode.id node) (snd kn) else snd kn)) m.
Proof.
  intros Hnd. unfold linkNode, isChildOf.
  destruct (StepNode.parentId node) as [p|].
  - destruct (JS.truthy p); simpl.
    + destruct (JSMap.get p m) eqn:G.
      * now apply update_map.
      * apply get_None_keys in G.
        rewrite <- (map_id m) at 1. apply map_ext_in.
        intros [k n] Hin. simpl.
        destruct (String.eqb p k) eqn:E; [|reflexivity].
        apply String.eqb_eq in E. subst k. exfalso. apply G.
        unfold JSMap.keys. apply in_map_iff. now exists (p, n).
    + rewrite <- (map_id m) at 1. apply map_ext. now intros [k n].
  - rewrite <- (map_id m) at 1. apply map_ext. now intros [k n].
Qed.

Lemma with_children_same (n : StepNode.t) :
  StepNode.with_children n (StepNode.children n) = n.
Proof. now destruct n. Qed.

Lemma linkNodes_fold (vs : list StepNode.t) (m : JSMap.t StepNode.t) :
  NoDup (JSMap.keys m) ->
  fold_left linkNode vs m
  = map (fun kn =>
           (fst kn,
            StepNode.with_children (snd kn)
              (StepNode.children (snd kn)
               ++ map StepNode.id (List.filter (isChildOf (fst kn)) vs)))) m.
Proof.
  revert m. induction vs as [|v vs IH]; intros m Hnd; simpl.
  - rewrite <- (map_id m) at 1. apply map_ext. intros [k n]. simpl.
    now rewrite app_nil_r, with_children_same.
  - rewrite IH.
    + rewrite (linkNode_map m v Hnd), map_map. apply map_ext.
      intros [k n]. simpl. f_equal.
      destruct (isChildOf k v); simpl; [|reflexivity].
      unfold StepNode.with_children. simpl. f_equal.
      now rewrite <- app_assoc.
    + rewrite (linkNode_map m v Hnd). unfold JSMap.keys.
      rewrite map_map. simpl. exact Hnd.
Qed.

(** The tree in closed form: the nodes of the first pass, each with the
    children the other nodes declare. *)
Lemma buildStepTree_linked cfgs :
  buildStepTree cfgs
  = map (linked (JSMap.values (createNodes cfgs)))
        (JSMap.values (createNodes cfgs)).
Proof.
  unfold buildStepTree, linkNodes.
  rewrite linkNodes_fold by apply createNodes_NoDup.
  unfold JSMap.values. rewrite !map_map. apply map_ext_in.
  intros [k n] Hin. simpl.
  destruct (createNodes_entries _ _ _ Hin) as (c & Hlast & ->).
  apply lastWithId_Some in Hlast as [Hid _].
  unfold linked. simpl. now rewrite Hid.
Qed.

Lemma buildStepTree_ids cfgs :
  map StepNode.id (buildStepTree cfgs) = firstOccurrences (ids cfgs).
Proof.
  rewrite buildStepTree_linked, map_map.
  rewrite <- createNodes_keys. unfold JSMap.values, JSMap.keys.
  rewrite map_map. apply map_ext_in. intros [k n] Hin. simpl.
  destruct (createNodes_entries _ _ _ Hin) as (c & Hlast & ->).
  now apply lastWithId_Some in Hlast as [Hid _].
Qed.

(** Without repeated ids the first pass is a plain [map]. *)
Lemma createNodes_unique cfgs :
  NoDup (ids cfgs) ->
  createNodes cfgs = map (fun c => (StepConfig.id c, newNode c)) cfgs.
Proof.
  induction cfgs as [|c cfgs IH] using rev_ind; [reflexivity|].
  unfold ids. rewrite map_app. simpl. intros Hnd.
  apply NoDup_app in Hnd as (Hnd & Hdisj & _).
  rewrite createNodes_snoc, set_absent.
  - rewrite IH by assumption. now rewrite map_app.
  - rewrite createNodes_keys, firstOccurrences_In.
    intros Hin. apply list_elem_of_In in Hin.
    apply (Hdisj _ Hin). apply list_elem_of_here.
Qed.

Lemma truthy_false (s : string) : JS.truthy s = false <-> s = "".
Proof.
  unfold JS.truthy. rewrite negb_false_iff. apply String.eqb_eq.
Qed.

Lemma or_null_Some (x : option string) (k : string) :
  k <> "" -> (JS.or_null x = Some k <-> x = Some k).
Proof.
  intros Hk. destruct x as [p|]; simpl; [|tauto].
  destruct (JS.truthy p) eqn:E; [tauto|].
  apply truthy_false in E. subst p. split; [discriminate | congruence].
Qed.

Lemma isChildOf_newNode k c :
  k <> "" ->
  isChildOf k (newNode c) = bool_decide (StepConfig.parentId c = Some k).
Proof.
  intros Hk. unfold isChildOf.
  change (StepNode.parentId (newNode c)) with (JS.or_null (StepConfig.parentId c)).
  destruct (JS.or_null (StepConfig.parentId c)) as [p|] eqn:E.
  - assert (JS.truthy p = true) as ->.
    { destruct (StepConfig.parentId c) as [q|]; simpl in E; [|discriminate].
      destruct (JS.truthy q) eqn:T; [|discriminate]. congruence. }
    simpl. destruct (String.eqb p k) eqn:E'.
    + apply String.eqb_eq in E'. subst p. symmetry.
      apply bool_decide_eq_true_2. now apply (or_null_Some _ _ Hk).
    + apply String.eqb_neq in E'. symmetry.
      apply bool_decide_eq_false_2. intros Hp.
      apply (or_null_Some _ _ Hk) in Hp. congruence.
  - symmetry. apply bool_decide_eq_false_2. intros Hp.
    apply (or_null_Some _ _ Hk) in Hp. congruence.
Qed.

Lemma filter_map_comm {A B} (f : A -> B) (p : B -> bool) (l : list A) :
  List.filter p (map f l) = map f (List.filter (fun x => p (f x)) l).
Proof.
  induction l as [|x l IH]; simpl; [reflexivity|].
  destruct (p (f x)); simpl; now rewrite IH.
Qed.
End BuildStepTree.

(** C9. On a list with repeated step ids [buildStepTree] returns one node
    per distinct id: the ids of the result are the distinct ids of the
    input at the places of their first occurrences, each node carries the
    fields of the config that occurs last for its id, and the result is
    never longer than the input and strictly shorter when an id repeats. *)
Theorem buildStepTree_duplicate_ids (stepConfigs : list StepConfig.t) :
  map StepNode.id (ConfigParser.buildStepTree stepConfigs)
  = firstOccurrences (ids stepConfigs)
  /\ NoDup (map StepNode.id (ConfigParser.buildStepTree stepConfigs))
  /\ (forall i, In i (map StepNode.id (ConfigParser.buildStepTree stepConfigs))
                <-> In i (ids stepConfigs))
  /\ (forall n, In n (ConfigParser.buildStepTree stepConfigs) ->
        exists c pre post,
          stepConfigs = (pre ++ c :: post)%list
          /\ StepConfig.id c = StepNode.id n
          /\ Forall (fun c' => StepConfig.id c' <> StepNode.id n) post
          /\ StepNode.with_children n [] = ConfigParser.newNode c)
  /\ (length (ConfigParser.buildStepTree stepConfigs) <= length stepConfigs)%nat
  /\ (~ NoDup (ids stepConfigs) ->
      (length (ConfigParser.buildStepTree stepConfigs) < length stepConfigs)%nat).
Proof.
  pose proof (buildStepTree_ids stepConfigs) as Hids.
  assert (Hlen : length (ConfigParser.buildStepTree stepConfigs)
                 = length (firstOccurrences (ids stepConfigs))).
  { rewrite <- Hids. now rewrite length_map. }
  assert (Hcfg : length stepConfigs = length (ids stepConfigs)).
  { unfold ids. now rewrite length_map. }
  repeat split.
  - exact Hids.
  - rewrite Hids. apply firstOccurrences_NoDup.
  - rewrite Hids. apply firstOccurrences_In.
  - rewrite Hids. apply firstOccurrences_In.
  - intros n Hn. rewrite buildStepTree_linked in Hn.
    apply in_map_iff in Hn as (n0 & <- & Hn0).
    unfold JSMap.values in Hn0. apply in_map_iff in Hn0 as ([k n1] & Hk & Hin).
    simpl in Hk. subst n1.
    destruct (createNodes_entries _ _ _ Hin) as (c & Hlast & ->).
    apply lastWithId_Some in Hlast as (Hid & pre & post & Hsplit & Hpost).
    exists c, pre, post. simpl. rewrite Hid. repeat split; assumption.
  - rewrite Hlen, Hcfg. apply firstOccurrences_length.
  - intros Hdup. rewrite Hlen, Hcfg. now apply firstOccurrences_shorter.
Qed.

Lemma buildStepTree_duplicate_ids_witness :
  (length (ConfigParser.buildStepTree duplicateConfigs) < length duplicateConfigs)%nat.
Proof.
  apply (proj2 (proj2 (proj2 (proj2 (proj2
           (buildStepTree_duplicate_ids duplicateConfigs)))))).
  unfold ids. simpl. intros Hnd. apply NoDup_cons in Hnd as [Hnin _].
  apply Hnin. rewrite !elem_of_cons. tauto.
Defined.

(** A repeated id on a concrete list: the later config for ["a"] supplies
    the fields, the first one the place. *)
Example buildStepTree_duplicate_example :
  ConfigParser.buildStepTree duplicateConfigs
  = [StepNode.mk "a" "A2" "" "r3" None ["b"] "a2.md";
     StepNode.mk "b" "B" "" "r2" (Some "a") [] "b.md"].
Proof. reflexivity. Qed.

(** C7. For configs with unique, non-empty ids (what validation
    guarantees) [buildStepTree] returns, in input order, the node of each
    config with exactly the ids of the configs that declare it as parent,
    in input order; a config whose parent id is not declared is accepted
    and appears in no children list. *)
Theorem buildStepTree_validated (stepConfigs : list StepConfig.t) :
  NoDup (ids stepConfigs) ->
  Forall (fun c => StepConfig.id c <> "") stepConfigs ->
  ConfigParser.buildStepTree stepConfigs
  = map (fun c => StepNode.with_children (ConfigParser.newNode c)
                    (declaredChildren (StepConfig.id c) stepConfigs))
        stepConfigs
  /\ map StepNode.id (ConfigParser.buildStepTree stepConfigs) = ids stepConfigs
  /\ (forall c p, In c stepConfigs ->
        StepConfig.parentId c = Some p -> ~ In p (ids stepConfigs) ->
        forall n, In n (ConfigParser.buildStepTree stepConfigs) ->
                  ~ In (StepConfig.id c) (StepNode.children n)).
Proof.
  intros Hnd Hne.
  assert (Heq : ConfigParser.buildStepTree stepConfigs
                = map (fun c => StepNode.with_children (ConfigParser.newNode c)
                                  (declaredChildren (StepConfig.id c) stepConfigs))
                      stepConfigs).
  { rewrite buildStepTree_linked, createNodes_unique by assumption.
    unfold JSMap.values. rewrite !map_map. simpl.
    apply map_ext_in. intros c Hc. unfold linked, declaredChildren, ids.
    simpl. f_equal. rewrite filter_map_comm, map_map. simpl.
    f_equal. apply filter_ext. intros c'.
    apply isChildOf_newNode. rewrite Forall_forall in Hne. apply Hne.
    now apply list_elem_of_In. }
  split; [exact Heq|]. split.
  - rewrite Heq, map_map. reflexivity.
  - intros c p Hc Hp Hnin n Hn Hchild. rewrite Heq in Hn.
    apply in_map_iff in Hn as (c0 & <- & Hc0). simpl in Hchild.
    unfold declaredChildren, ids in Hchild.
    apply in_map_iff in Hchild as (c1 & Hid & Hc1).
    apply filter_In in Hc1 as [Hc1 Hpar]. apply bool_decide_eq_true in Hpar.
    assert (c1 = c).
    { clear - Hnd Hc Hc1 Hid. unfold ids in Hnd.
      induction stepConfigs as [|x l IH]; simpl in *; [tauto|].
      apply NoDup_cons in Hnd as [Hx Hnd].
      rewrite list_elem_of_In in Hx.
      destruct Hc as [->|Hc], Hc1 as [->|Hc1]; try reflexivity.
      - exfalso. apply Hx. rewrite <- Hid. now apply in_map.
      - exfalso. apply Hx. rewrite Hid. now apply in_map.
      - now apply IH. }
    subst c1. rewrite Hp in Hpar. inversion Hpar. subst p.
    apply Hnin. unfold ids. now apply in_map.
Qed.

Lemma buildStepTree_validated_witness :
  ConfigParser.buildStepTree
    [StepConfig.mk "step-1" "Step 1" None "ref1" None "doc1.md";
     StepConfig.mk "step-2a" "Step 2a" None "ref2a" (Some "step-1") "doc2a.md";
     StepConfig.mk "step-2b" "Step 2b" None "ref2b" (Some "step-1") "doc2b.md"]
  = [StepNode.mk "step-1" "Step 1" "" "ref1" None ["step-2a"; "step-2b"] "doc1.md";
     StepNode.mk "step-2a" "Step 2a" "" "ref2a" (Some "step-1") [] "doc2a.md";
     StepNode.mk "step-2b" "Step 2b" "" "ref2b" (Some "step-1") [] "doc2b.md"].
Proof.
  refine (eq_trans (proj1 (buildStepTree_validated _ _ _)) _).
  - unfold ids. simpl. repeat constructor; rewrite ?elem_of_cons, ?elem_of_nil;
      intuition discriminate.
  - repeat constructor; discriminate.
  - reflexivity.
Defined.

(** ** validate: what a valid document guarantees *)

Section Validate.
Import ConfigParser JValue.

Lemma notRequiredString_false v :
  notRequiredString v = false -> exists s, v = JString s /\ s <> "".
Proof.
  unfold notRequiredString. intros Hv. apply orb_false_elim in Hv as [Ht Hs].
  destruct v; try discriminate. exists s. split; [reflexivity|].
  simpl in Ht. apply negb_false_iff in Ht. intros ->. discriminate.
Qed.

Lemma notOptionalString_false v :
  notOptionalString v = false -> asOptionalString v <> None.
Proof. unfold notOptionalString. destruct v; simpl; congruence. Qed.

Lemma errIf_nil b p m : errIf b p m = [] -> b = false.
Proof. unfold errIf. now destruct b. Qed.

(** A step without errors is an object with the typed view, a non-empty
    id that was not seen before, and a registered id. *)
Lemma checkStep_ok stepIds index step stepIds' :
  checkStep stepIds index step = ([], stepIds') ->
  exists c, asStepConfig step = Some c
            /\ StepConfig.id c <> ""
            /\ (StepConfig.id c ∉ stepIds)
            /\ stepIds' = {[ StepConfig.id c ]} ∪ stepIds.
Proof.
  unfold checkStep.
  destruct (negb (truthy step) || negb (isObjectType step)); [discriminate|].
  destruct (notRequiredString (prop step "id")) eqn:Eid; [discriminate|].
  intros Hc. inversion Hc as [[Herr Hids]]. clear Hc.
  repeat (apply app_eq_nil in Herr as [?%errIf_nil Herr]).
  apply errIf_nil in Herr.
  destruct (notRequiredString_false _ Eid) as (id & Hid & Hidne).
  destruct (notRequiredString_false _ H0) as (title & Htitle & _).
  destruct (notRequiredString_false _ H1) as (gitRef & HgitRef & _).
  destruct (notRequiredString_false _ H2) as (explanation & Hexpl & _).
  apply notOptionalString_false in H3, Herr.
  destruct step; try (simpl in Hid; discriminate).
  destruct (asOptionalString (prop (JObject fields) "description")) as [d|] eqn:Ed;
    [|congruence].
  destruct (asOptionalString (prop (JObject fields) "parentId")) as [p|] eqn:Ep;
    [|congruence].
  unfold asStepConfig. cbn [prop] in *.
  rewrite Hid, Htitle, Ed, HgitRef, Ep, Hexpl.
  simpl. eexists. split; [reflexivity|]. simpl.
  rewrite Hid in H. simpl in H. apply bool_decide_eq_false in H.
  split_and!; try assumption. reflexivity.
Qed.

Lemma checkSteps_ok steps : forall stepIds index stepIds',
  checkSteps stepIds index steps = ([], stepIds') ->
  exists cs, mapM asStepConfig steps = Some cs
             /\ Forall (fun c => StepConfig.id c <> "") cs
             /\ NoDup (ids cs)
             /\ (forall x, In x (ids cs) -> x ∉ stepIds)
             /\ (forall x, x ∈ stepIds' <-> x ∈ stepIds \/ In x (ids cs)).
Proof.
  induction steps as [|step steps IH]; intros stepIds index stepIds'; simpl.
  - intros [= <-]. exists []. split_and!; try constructor; simpl; tauto.
  - destruct (checkStep stepIds index step) as [errors stepIds1] eqn:E1.
    destruct (checkSteps stepIds1 (S index) steps) as [errors' stepIds2] eqn:E2.
    intros Hc. inversion Hc as [[Herr Hids]]. subst stepIds2.
    apply app_eq_nil in Herr as [-> ->].
    destruct (checkStep_ok _ _ _ _ E1) as (c & Hc1 & Hne & Hfresh & ->).
    destruct (IH _ _ _ E2) as (cs & Hcs & Hnes & Hnd & Hfr & Hset).
    exists (c :: cs). rewrite Hc1. simpl. rewrite Hcs. simpl.
    split_and!.
    + reflexivity.
    + now constructor.
    + constructor; [|assumption]. rewrite list_elem_of_In. intros Hin.
      apply (Hfr _ Hin). apply elem_of_union. left. now apply elem_of_singleton.
    + intros x [<-|Hin]; [assumption|]. specialize (Hfr _ Hin).
      intros Hx. apply Hfr. apply elem_of_union. now right.
    + intros x. rewrite Hset, elem_of_union, elem_of_singleton. simpl.
      assert (x = StepConfig.id c <-> StepConfig.id c = x) as -> by (split; congruence).
      tauto.
Qed.

Lemma checkParents_ok steps : forall stepIds index cs,
  checkParents stepIds index steps = Ok [] ->
  mapM asStepConfig steps = Some cs ->
  forall c p, In c cs -> StepConfig.parentId c = Some p -> p <> "" -> p ∈ stepIds.
Proof.
  induction steps as [|step steps IH]; intros stepIds index cs; simpl.
  - intros _ [= <-] c p [].
  - destruct (checkParent stepIds index step) as [errors|e] eqn:E1; [|discriminate].
    destruct (checkParents stepIds (S index) steps) as [errors'|e] eqn:E2;
      [|discriminate].
    intros [= Herr]. apply app_eq_nil in Herr as [-> ->].
    destruct (asStepConfig step) as [c0|] eqn:Ec0; simpl; [|discriminate].
    destruct (mapM asStepConfig steps) as [cs0|] eqn:Ecs0; simpl; [|discriminate].
    intros [= <-] c p [<-|Hin] Hp Hpne.
    + unfold asStepConfig in Ec0. destruct step; try discriminate.
      simpl in Ec0.
      repeat match type of Ec0 with
             | (?x ≫= _) = Some _ =>
                 let E := fresh "E" in
                 destruct x eqn:E; simpl in Ec0; [|discriminate]
             end.
      inversion Ec0; subst c0. simpl in Hp. subst.
      unfold checkParent in E1. inversion E1 as [Herr]. apply errIf_nil in Herr.
      simpl in Herr.
      destruct (lookupField "parentId" fields); try discriminate.
      simpl in *.
      repeat match goal with
             | Hs : Some (Some _) = Some (Some _) |- _ => inversion Hs; subst; clear Hs
             end.
      assert (JS.truthy p = true) as Ht.
      { unfold JS.truthy. apply negb_true_iff. now apply String.eqb_neq. }
      rewrite Ht in Herr. simpl in Herr. apply negb_false_iff in Herr.
      now apply bool_decide_eq_true in Herr.
    + eapply IH; eauto.
Qed.

(** A document that [validate] accepts has the typed view that [parse]
    returns, and its steps have unique, non-empty ids and parents that are
    declared. *)
Lemma validate_typed (raw : JValue.t) (r : ValidationResult.t) :
  validate raw = Ok r ->
  ValidationResult.valid r = true ->
  exists config,
    asTutorialConfig raw = Some config
    /\ NoDup (ids (TutorialConfig.steps config))
    /\ Forall (fun c => StepConfig.id c <> "") (TutorialConfig.steps config)
    /\ (forall c p, In c (TutorialConfig.steps config) ->
                    StepConfig.parentId c = Some p -> p <> "" ->
                    In p (ids (TutorialConfig.steps config))).
Proof.
  unfold validate.
  destruct (negb (truthy raw) || negb (isObjectType raw)).
  { intros [= <-]. discriminate. }
  destruct (prop raw "steps") as [| | | | |steps|] eqn:Esteps;
    try (intros [= <-]; simpl; intros Hv; apply bool_decide_eq_true in Hv;
         rewrite length_app in Hv; simpl in Hv; lia).
  destruct steps as [|step steps].
  { intros [= <-]; simpl; intros Hv; apply bool_decide_eq_true in Hv.
    rewrite length_app in Hv; simpl in Hv; lia. }
  destruct (validateSteps (step :: steps)) as [stepErrors|e] eqn:Ev; [|discriminate].
  intros [= <-]. simpl. intros Hv. apply bool_decide_eq_true in Hv.
  apply length_zero_iff_nil in Hv.
  apply app_eq_nil in Hv as [Hv ->].
  repeat (apply app_eq_nil in Hv as [?%errIf_nil Hv]). apply errIf_nil in Hv.
  destruct (notRequiredString_false _ H) as (name & Hname & _).
  destruct (notRequiredString_false _ H0) as (description & Hdesc & _).
  destruct (notRequiredString_false _ Hv) as (version & Hver & _).
  unfold validateSteps in Ev.
  destruct (checkSteps ∅ 0 (step :: steps)) as [errors stepIds] eqn:Ecs.
  destruct (checkParents stepIds 0 (step :: steps)) as [errors'|e] eqn:Ecp;
    [|discriminate].
  inversion Ev as [Herr]. apply app_eq_nil in Herr as [-> ->].
  destruct (checkSteps_ok _ _ _ _ Ecs) as (cs & Hcs & Hne & Hnd & _ & Hset).
  destruct raw; try (simpl in Hname; discriminate).
  unfold asTutorialConfig. rewrite Hname, Hdesc, Hver, Esteps, Hcs. simpl.
  eexists. split; [reflexivity|]. simpl. split_and!; try assumption.
  intros c p Hin Hp Hpne.
  pose proof (checkParents_ok _ _ _ _ Ecp Hcs c p Hin Hp Hpne) as Hmem.
  apply Hset in Hmem as [Hmem|Hmem]; [set_solver | assumption].
Qed.
End Validate.

(** On the steps of a validated document [buildStepTree] inverts the
    declared parent relation (C7 applied to what [parse] returns). *)
Corollary buildStepTree_of_validated (raw : JValue.t) (r : ValidationResult.t)
          (config : TutorialConfig.t) :
  ConfigParser.validate raw = Ok r ->
  ValidationResult.valid r = true ->
  ConfigParser.asTutorialConfig raw = Some config ->
  ConfigParser.buildStepTree (TutorialConfig.steps config)
  = map (fun c => StepNode.with_children (ConfigParser.newNode c)
                    (declaredChildren (StepConfig.id c) (TutorialConfig.steps config)))
        (TutorialConfig.steps config).
Proof.
  intros Hv Hok Hc.
  destruct (validate_typed raw r Hv Hok) as (config' & Hc' & Hnd & Hne & _).
  rewrite Hc in Hc'. inversion Hc'; subst config'.
  rewrite buildStepTree_linked, createNodes_unique by assumption.
  unfold JSMap.values. rewrite !map_map. simpl.
  apply map_ext_in. intros c Hin. unfold linked, declaredChildren, ids.
  simpl. f_equal. rewrite filter_map_comm, map_map. simpl.
  f_equal. apply filter_ext. intros c'.
  apply isChildOf_newNode. rewrite Forall_forall in Hne. apply Hne.
  now apply list_elem_of_In.
Qed.

(** ** getDiff: status classification *)

Section DiffStatus.

(** The three successive overwrites of [status] are a priority order. *)
Lemma fileDiffOf_priority fromRef hunksMap file :
  GitService.fileDiffOf fromRef hunksMap file
  = fileDiffWith (priorityStatus fromRef hunksMap file) hunksMap file.
Proof.
  unfold GitService.fileDiffOf, fileDiffWith, priorityStatus, firstHunkIsNew.
  f_equal.
  destruct (hunksMap !! GitService.fileOf file) as [[|h hs]|];
    try destruct (DiffHunk.oldLines h =? 0)%N; try reflexivity;
    destruct (JS.includes (GitService.fileOf file) " => "); try reflexivity;
    destruct file as [f c i d|f b a]; simpl; try reflexivity;
    destruct (0 <? i)%Z, (d =? 0)%Z, (JS.truthy fromRef), (0 <? d)%Z, (i =? 0)%Z;
    reflexivity.
Qed.

Context {W : Type} (H : Host W).

Lemma getDiff_run fromRef toRef (s : State W) baseDir summary diffOutput :
  git s = Some baseDir ->
  git_diffSummary H baseDir (comparedRefs fromRef toRef) (world s) = Ok summary ->
  git_diff H baseDir (comparedRefs fromRef toRef) (world s) = Ok diffOutput ->
  GitService.getDiff H fromRef toRef s
  = (Ok (map (GitService.fileDiffOf fromRef (GitService.parseDiffOutput diffOutput))
             summary), s).
Proof.
  intros Hgit Hsum Hdiff.
  unfold GitService.getDiff, GitService.getGit, Eff.bind, Eff.get, Eff.query,
    Eff.ret, comparedRefs in *.
  rewrite Hgit. simpl.
  destruct (JS.truthy fromRef); simpl; now rewrite Hsum, Hdiff.
Qed.

End DiffStatus.

(** C1 (as amended). Whenever simple-git answers, [getDiff] returns one
    record per summary entry, in order, and its status follows this
    priority order: a first parsed hunk with [oldLines = 0] gives [added]
    in every comparison; otherwise a path with the rename arrow gives
    [renamed]; otherwise, in the empty-tree comparison only, insertions
    without deletions give [added]; otherwise deletions without insertions
    give [deleted]; otherwise [modified]. *)
Theorem getDiff_status_priority {W : Type} (H : Host W)
        (fromRef toRef : string) (s : State W)
        (baseDir : string) (summary : list DiffResultFile) (diffOutput : string) :
  git s = Some baseDir ->
  git_diffSummary H baseDir (comparedRefs fromRef toRef) (world s) = Ok summary ->
  git_diff H baseDir (comparedRefs fromRef toRef) (world s) = Ok diffOutput ->
  GitService.getDiff H fromRef toRef s
  = (Ok (map (fun file =>
                fileDiffWith
                  (priorityStatus fromRef (GitService.parseDiffOutput diffOutput) file)
                  (GitService.parseDiffOutput diffOutput) file)
             summary), s).
Proof.
  intros Hgit Hsum Hdiff.
  rewrite (getDiff_run H _ _ _ _ _ _ Hgit Hsum Hdiff).
  do 2 f_equal. apply map_ext. intros file. apply fileDiffOf_priority.
Qed.

Lemma getDiff_status_priority_witness :
  GitService.getDiff (exampleHost growSummary growDiff [] true None (Ok JValue.JNull))
                     "step-1" "step-2" (boundState None)
  = (Ok [FileDiff.mk "a.txt" modified 2 0
           [DiffHunk.mk 1 3 1 5
              "@@ -1,3 +1,5 @@
 one
+two
+three
 four
 five"]],
     boundState None).
Proof.
  refine (eq_trans
            (getDiff_status_priority
               (exampleHost growSummary growDiff [] true None (Ok JValue.JNull))
               "step-1" "step-2" (boundState None) "/repo" growSummary growDiff
               _ _ _) _).
  - reflexivity.
  - reflexivity.
  - reflexivity.
  - vm_compute. reflexivity.
Defined.

(** C1 as stated fails: between two real refs, a file with insertions and
    no deletions whose first hunk is not new is [modified] for the code,
    while the stated order makes it [added]. *)
Lemma getDiff_status_counterexample :
  (exists hunksMap,
     GitService.getDiff (exampleHost growSummary growDiff [] true None (Ok JValue.JNull))
                        "step-1" "step-2" (boundState None)
     = (Ok [fileDiffWith modified hunksMap (DiffResultTextFile "a.txt" 2 2 0)],
        boundState None))
  /\ statedStatus "step-1" (GitService.parseDiffOutput growDiff)
                  (DiffResultTextFile "a.txt" 2 2 0) = added
  /\ FileDiff.status
       (GitService.fileDiffOf "step-1" (GitService.parseDiffOutput growDiff)
                              (DiffResultTextFile "a.txt" 2 2 0))
     <> statedStatus "step-1" (GitService.parseDiffOutput growDiff)
                     (DiffResultTextFile "a.txt" 2 2 0).
Proof.
  split; [|split].
  - exists (GitService.parseDiffOutput growDiff). vm_compute. reflexivity.
  - vm_compute. reflexivity.
  - vm_compute. discriminate.
Qed.

(** ** parseDiffOutput: the content of a hunk *)

Section ParseDiff.
Import GitService.

Lemma pushHunk_lookup f h (m : gmap string (list DiffHunk.t)) f0 hs x :
  pushHunk f h m !! f0 = Some hs -> In x hs ->
  (exists hs0, m !! f0 = Some hs0 /\ In x hs0) \/ (f0 = f /\ x = h).
Proof.
  unfold pushHunk. intros Hl Hin.
  destruct (decide (f = f0)) as [->|Hne].
  - rewrite lookup_insert_eq in Hl. inversion Hl; subst hs.
    apply in_app_or in Hin as [Hin|[->|[]]]; [|now right].
    left. destruct (m !! f0) as [hs0|]; simpl in Hin; [|contradiction].
    now exists hs0.
  - rewrite lookup_insert_ne in Hl by assumption. left. now exists hs.
Qed.

Lemma isHeader_file line f : Regex.fileMatch line = Some f -> isHeader line = true.
Proof. unfold isHeader. now intros ->. Qed.

Lemma isHeader_hunk line g : Regex.hunkMatch line = Some g -> isHeader line = true.
Proof. unfold isHeader. intros ->. now destruct (Regex.fileMatch line). Qed.

Lemma isHeader_false line :
  Regex.fileMatch line = None -> Regex.hunkMatch line = None ->
  isHeader line = false.
Proof. unfold isHeader. now intros -> ->. Qed.

Lemma closedIn_snoc done f h line :
  closedIn done f h -> closedIn (done ++ [line]) f h.
Proof.
  intros (pre & hdr & body & rest & g & -> & Hf & Hh & Hb & (l & rest' & -> & Hl) & ->).
  exists pre, hdr, body, (l :: rest' ++ [line])%list, g.
  split_and!; try assumption; try reflexivity; try (split; assumption).
  - repeat (rewrite <- List.app_assoc; simpl). reflexivity.
  - now exists l, (rest' ++ [line])%list.
Qed.

Lemma fileAt_snoc done f line :
  Regex.fileMatch line = None -> fileAt done f -> fileAt (done ++ [line]) f.
Proof.
  intros Hline (pre & fh & post & -> & Hfh & Hpost).
  exists pre, fh, (post ++ [line])%list. split_and!; try assumption; try reflexivity; try (split; assumption).
  - now rewrite <- List.app_assoc.
  - apply Forall_app. split; [assumption|]. now constructor.
Qed.

(** Closing the open hunk at a header line. *)
Lemma saveHunk_closed done st line :
  parseInv done st -> isHeader line = true ->
  forall f hs h, saveHunk st !! f = Some hs -> In h hs ->
                 closedIn (done ++ [line]) f h.
Proof.
  intros [Hc Ho Hf] Hline f hs h Hl Hin. unfold saveHunk in Hl.
  destruct (currentFile st) as [cf|] eqn:Ecf;
    [destruct (currentHunk st) as [ch|] eqn:Ech;
     [destruct (JS.truthy cf) eqn:Et|]|];
    try (apply closedIn_snoc; now apply (Hc f hs h)).
  destruct (pushHunk_lookup _ _ _ _ _ _ Hl Hin) as [(hs0 & Hl0 & Hin0)|[-> ->]].
  - apply closedIn_snoc. now apply (Hc f hs0 h).
  - destruct (Ho ch eq_refl)
      as (pre & hdr & body & g & f' & -> & Hfa & Hh & Hb & -> & Hcont & Hcf' & _).
    rewrite Ecf in Hcf'. inversion Hcf'; subst f'.
    exists pre, hdr, body, [line], g. split_and!; try assumption; try reflexivity; try (split; assumption).
    + now rewrite <- List.app_assoc.
    + now exists line, [].
    + now rewrite Hcont.
Qed.

(** A line that is no header for the current state: it joins the open
    hunk when it starts with [+], [-] or a space, and is dropped
    otherwise. *)
Lemma plainLine_inv done st line :
  parseInv done st ->
  Regex.fileMatch line = None ->
  Regex.hunkMatch line = None \/ currentHunk st = None ->
  parseInv (done ++ [line])
    match currentHunk st with
    | Some _ =>
        if isHunkLine line
        then mkParse (hunksMap st) (currentFile st) (currentHunk st)
                     (hunkContent st ++ [line])
        else st
    | None => st
    end.
Proof.
  intros [Hc Ho Hf] Efm Hplain.
  assert (Hclosed : forall f hs h, hunksMap st !! f = Some hs -> In h hs ->
                                   closedIn (done ++ [line]) f h).
  { intros f hs h Hl Hin. apply closedIn_snoc. now apply (Hc f hs h). }
  assert (Hfile : forall f, currentFile st = Some f -> fileAt (done ++ [line]) f).
  { intros f Hcf. apply fileAt_snoc; [assumption|]. now apply Hf. }
  destruct (currentHunk st) as [ch|] eqn:Ech.
  - destruct Hplain as [Ehm|?]; [|discriminate].
    assert (Hnh : isHeader line = false) by now apply isHeader_false.
    destruct (Ho ch eq_refl)
      as (pre & hdr & body & g & f' & -> & Hfa & Hhd & Hb & -> & Hcont & Hcf & Ht).
    assert (Hbody : Forall (fun l => isHeader l = false) (body ++ [line])).
    { apply Forall_app. split; [assumption|]. now constructor. }
    destruct (isHunkLine line) eqn:Ehl.
    + constructor; simpl; [exact Hclosed| |exact Hfile].
      intros h Hh. try rewrite Ech in Hh. inversion Hh; subst h.
      exists pre, hdr, (body ++ [line])%list, g, f'.
      split_and!; try assumption; try reflexivity.
      * now rewrite <- List.app_assoc.
      * simpl. rewrite Hcont, List.filter_app. simpl. now rewrite Ehl.
    + constructor; [exact Hclosed| |exact Hfile].
      intros h Hh. try rewrite Ech in Hh. inversion Hh; subst h.
      exists pre, hdr, (body ++ [line])%list, g, f'.
      split_and!; try assumption; try reflexivity.
      * now rewrite <- List.app_assoc.
      * rewrite Hcont, List.filter_app. simpl. rewrite Ehl. now rewrite app_nil_r.
  - constructor; [exact Hclosed| |exact Hfile].
    intros h Hh. congruence.
Qed.

Lemma parseLine_inv done st line :
  parseInv done st -> parseInv (done ++ [line]) (parseLine st line).
Proof.
  intros Hinv. pose proof Hinv as [Hc Ho Hf]. unfold parseLine.
  destruct (Regex.fileMatch line) as [f'|] eqn:Efm.
  - (* a file header *)
    constructor; simpl.
    + apply (saveHunk_closed done st line Hinv). now apply (isHeader_file _ f').
    + discriminate.
    + intros f [= <-]. exists done, line, [].
      split_and!; [reflexivity | assumption | constructor].
  - destruct (Regex.hunkMatch line) as [g|] eqn:Ehm;
      [destruct (JS.truthy_opt (currentFile st)) eqn:Etf|].
    + (* a hunk header inside a file section *)
      destruct (currentFile st) as [cf|] eqn:Ecf; [|discriminate]. simpl in Etf.
      constructor; simpl.
      * intros f hs h Hl Hin. destruct (currentHunk st) as [ch|] eqn:Ech.
        -- apply (saveHunk_closed done st line Hinv (isHeader_hunk _ _ Ehm) f hs h Hl Hin).
        -- apply closedIn_snoc. now apply (Hc f hs h).
      * intros h [= <-]. exists done, line, [], g, cf.
        split_and!; try assumption; try reflexivity.
        -- now apply Hf.
        -- split; assumption.
        -- constructor.
      * intros f Hcf. apply fileAt_snoc; [assumption|]. now apply Hf.
    + (* a hunk header before any file header: an ordinary line *)
      apply plainLine_inv; [assumption..|]. right.
      destruct (currentHunk st) as [ch|] eqn:Ech; [|reflexivity].
      destruct (Ho ch eq_refl) as (? & ? & ? & ? & f' & _ & _ & _ & _ & _ & _ & Hcf & Ht).
      rewrite Hcf in Etf. simpl in Etf. congruence.
    + (* neither header *)
      apply plainLine_inv; [assumption..|]. now left.
Qed.

Lemma parseLines_inv lines : parseInv lines (parseLines lines).
Proof.
  unfold parseLines.
  induction lines as [|line lines IH] using rev_ind.
  - constructor; simpl.
    + intros f hs h Hl. now rewrite lookup_empty in Hl.
    + discriminate.
    + discriminate.
  - rewrite fold_left_app. simpl. now apply parseLine_inv.
Qed.

Lemma closedIn_hunkOf lines f h : closedIn lines f h -> hunkOf lines f h.
Proof.
  intros (pre & hdr & body & rest & g & H1 & H2 & H3 & H4 & H5 & H6).
  exists pre, hdr, body, rest, g. split_and!; try assumption. now right.
Qed.

(** Every hunk of the result is the hunk some header line opens. *)
Lemma parseLines_hunkOf lines f hs h :
  saveHunk (parseLines lines) !! f = Some hs -> In h hs -> hunkOf lines f h.
Proof.
  pose proof (parseLines_inv lines) as Hinv. pose proof Hinv as [Hc Ho Hf].
  set (st := parseLines lines) in *. unfold saveHunk.
  intros Hl Hin.
  destruct (currentFile st) as [cf|] eqn:Ecf;
    [destruct (currentHunk st) as [ch|] eqn:Ech;
     [destruct (JS.truthy cf) eqn:Et|]|];
    try (apply closedIn_hunkOf; now apply (Hc f hs h)).
  destruct (pushHunk_lookup _ _ _ _ _ _ Hl Hin) as [(hs0 & Hl0 & Hin0)|[-> ->]].
  - apply closedIn_hunkOf. now apply (Hc f hs0 h).
  - destruct (Ho ch eq_refl)
      as (pre & hdr & body & g & f' & Hd & Hfa & Hh & Hb & -> & Hcont & Hcf' & _).
    rewrite Ecf in Hcf'. inversion Hcf'; subst f'.
    exists pre, hdr, body, [], g. split_and!; try assumption.
    + now rewrite app_nil_r.
    + now left.
    + unfold hunkText. now rewrite Hcont.
Qed.
(** *** Every hunk header inside a file section yields its hunk *)

Lemma filed_pushHunk m f h f' h' : filed m f h -> filed (pushHunk f' h' m) f h.
Proof.
  intros (hs & Hl & Hin). unfold filed, pushHunk.
  destruct (decide (f' = f)) as [->|Hne].
  - rewrite lookup_insert_eq, Hl. simpl. eexists. split; [reflexivity|].
    apply in_or_app. now left.
  - rewrite lookup_insert_ne by assumption. now exists hs.
Qed.

Lemma filed_pushHunk_new m f h : filed (pushHunk f h m) f h.
Proof.
  unfold filed, pushHunk. rewrite lookup_insert_eq. eexists. split; [reflexivity|].
  apply in_or_app. right. now left.
Qed.

Lemma filed_saveHunk st f h : filed (hunksMap st) f h -> filed (saveHunk st) f h.
Proof.
  intros Hf. unfold saveHunk.
  destruct (currentFile st) as [cf|]; [|assumption].
  destruct (currentHunk st) as [ch|]; [|assumption].
  destruct (JS.truthy cf); [|assumption]. now apply filed_pushHunk.
Qed.

Lemma filed_parseLine st line f h :
  filed (hunksMap st) f h -> filed (hunksMap (parseLine st line)) f h.
Proof.
  intros Hf. unfold parseLine.
  destruct (Regex.fileMatch line); simpl; [now apply filed_saveHunk|].
  destruct (Regex.hunkMatch line); [destruct (JS.truthy_opt (currentFile st))|];
    simpl;
    try (destruct (currentHunk st); [destruct (isHunkLine line)|]; simpl;
         assumption).
  destruct (currentHunk st); [now apply filed_saveHunk | assumption].
Qed.

Lemma filed_fold lines st f h :
  filed (hunksMap st) f h -> filed (hunksMap (fold_left parseLine lines st)) f h.
Proof.
  revert st. induction lines as [|line lines IH]; intros st Hf; simpl; [assumption|].
  apply IH. now apply filed_parseLine.
Qed.

Lemma afterLastSep_truthy s g : Regex.afterLastSep s = Some g -> JS.truthy g = true.
Proof.
  induction s as [|c s IH]; [discriminate|].
  change (Regex.afterLastSep (String c s))
    with (match Regex.afterLastSep s with
          | Some g => Some g
          | None =>
              if String.prefix " b/" (String c s) && JS.truthy (JS.drop 3 (String c s))
              then Some (JS.drop 3 (String c s)) else None
          end).
  destruct (Regex.afterLastSep s) as [g'|].
  - intros [= <-]. now apply IH.
  - destruct (String.prefix " b/" (String c s)); cbn [andb]; [|discriminate].
    destruct (JS.truthy (JS.drop 3 (String c s))) eqn:Et; [|discriminate].
    now intros [= <-].
Qed.

(** The file name a file header yields is never empty. *)
Lemma fileMatch_truthy line f : Regex.fileMatch line = Some f -> JS.truthy f = true.
Proof.
  unfold Regex.fileMatch.
  destruct (String.prefix "diff --git a/" line); [|discriminate].
  destruct (Regex.noLineTerminator (JS.drop 13 line)); [|discriminate].
  destruct (JS.drop 13 line); [discriminate|]. apply afterLastSep_truthy.
Qed.

Lemma currentFile_plain st line :
  Regex.fileMatch line = None -> currentFile (parseLine st line) = currentFile st.
Proof.
  intros Hfm. unfold parseLine. rewrite Hfm.
  destruct (Regex.hunkMatch line); [destruct (JS.truthy_opt (currentFile st))|];
    simpl; try reflexivity;
    destruct (currentHunk st); try reflexivity;
    destruct (isHunkLine line); reflexivity.
Qed.

Lemma currentFile_fileAt pre f st :
  fileAt pre f -> currentFile (fold_left parseLine pre st) = Some f.
Proof.
  intros (p1 & fh & post & -> & Hfh & Hpost).
  rewrite fold_left_app. simpl.
  set (st1 := fold_left parseLine p1 st).
  assert (Hcf : currentFile (parseLine st1 fh) = Some f).
  { unfold parseLine. now rewrite Hfh. }
  revert Hcf. generalize (parseLine st1 fh). clear st1.
  induction Hpost as [|l post Hl Hpost IH]; intros st2 Hcf; simpl; [assumption|].
  apply IH. now rewrite currentFile_plain.
Qed.

(** The lines of a hunk body extend the open hunk's text. *)
Lemma body_fold body : forall st h,
  Forall (fun l => isHeader l = false) body ->
  currentHunk st = Some h ->
  fold_left parseLine body st
  = mkParse (hunksMap st) (currentFile st) (Some h)
            (hunkContent st ++ List.filter isHunkLine body).
Proof.
  induction body as [|line body IH]; intros st h Hb Hch; simpl.
  - rewrite app_nil_r, <- Hch. now destruct st.
  - apply Forall_cons in Hb as [Hl Hb]. unfold isHeader in Hl.
    destruct (Regex.fileMatch line) eqn:Efm; [discriminate|].
    destruct (Regex.hunkMatch line) eqn:Ehm; [discriminate|].
    assert (Hstep : parseLine st line
                    = mkParse (hunksMap st) (currentFile st) (Some h)
                              (hunkContent st
                               ++ if isHunkLine line then [line] else [])).
    { unfold parseLine. rewrite Efm, Ehm, Hch.
      destruct (isHunkLine line); [reflexivity|].
      rewrite app_nil_r, <- Hch. now destruct st. }
    rewrite Hstep. erewrite (IH _ h Hb); [|reflexivity]. simpl.
    destruct (isHunkLine line); simpl; now rewrite <- List.app_assoc.
Qed.

Lemma parseLines_hunk_found lines f h :
  hunkOf lines f h -> filed (saveHunk (parseLines lines)) f h.
Proof.
  intros (pre & hdr & body & rest & g & -> & Hfa & [Hfm Hhm] & Hb & Hrest & ->).
  unfold parseLines. rewrite fold_left_app. simpl.
  set (st := fold_left parseLine pre initParse).
  pose proof (currentFile_fileAt pre f initParse Hfa) as Hcf. fold st in Hcf.
  assert (Ht : JS.truthy f = true).
  { destruct Hfa as (? & fh & ? & _ & Hfh & _). now apply (fileMatch_truthy fh). }
  assert (Hopen : exists m, parseLine st hdr = mkParse m (Some f) (Some (newHunk g)) [hdr]).
  { unfold parseLine. rewrite Hfm, Hhm, Hcf. simpl. rewrite Ht. eexists. reflexivity. }
  destruct Hopen as (m & ->). rewrite fold_left_app.
  erewrite (body_fold body _ (newHunk g) Hb); [|reflexivity]. simpl.
  destruct Hrest as [->|(l & rest' & -> & Hl)]; simpl.
  - unfold saveHunk. simpl. rewrite Ht. apply filed_pushHunk_new.
  - apply filed_saveHunk, filed_fold.
    assert (Hflush : forall st', currentFile st' = Some f ->
              currentHunk st' = Some (newHunk g) ->
              hunkContent st' = hdr :: List.filter isHunkLine body ->
              filed (hunksMap (parseLine st' l)) f
                    (DiffHunk.with_content (newHunk g) (hunkText hdr body))).
    { intros st' H1 H2 H3.
      assert (Hsave : filed (saveHunk st') f
                (DiffHunk.with_content (newHunk g) (hunkText hdr body))).
      { unfold saveHunk. rewrite H1, H2, Ht, H3. apply filed_pushHunk_new. }
      unfold parseLine. unfold isHeader in Hl.
      destruct (Regex.fileMatch l); simpl; [assumption|].
      destruct (Regex.hunkMatch l); [|discriminate].
      rewrite H1. simpl. rewrite Ht. simpl. now rewrite H2. }
    now apply Hflush.
Qed.

End ParseDiff.

(** C5 (as amended). The hunks [parseDiffOutput] returns are exactly the
    hunks that the hunk-header lines inside file sections open, and the
    content of each is its header line followed by the lines up to the
    next file or hunk header (or the end of the input) that start with
    [+], [-] or a space, in their order, joined by newlines. *)
Theorem parseDiffOutput_hunk_content (diffOutput : string) (f : string)
        (h : DiffHunk.t) :
  filed (GitService.parseDiffOutput diffOutput) f h
  <-> hunkOf (JS.split "010" diffOutput) f h.
Proof.
  unfold GitService.parseDiffOutput. split.
  - intros (hunks & Hlookup & Hin).
    exact (parseLines_hunkOf _ f hunks h Hlookup Hin).
  - intros Hhunk. now apply parseLines_hunk_found.
Qed.

Lemma parseDiffOutput_hunk_content_witness :
  hunkOf (JS.split "010" growDiff) "a.txt" growHunk.
Proof.
  apply (proj1 (parseDiffOutput_hunk_content growDiff "a.txt" growHunk)).
  exists [growHunk]. split.
  - vm_compute. reflexivity.
  - left. reflexivity.
Defined.

(** C5 as stated fails: the content starts with the [@@] header line, so
    it is not the added, removed and context lines alone. *)
Lemma parseDiffOutput_content_counterexample :
  JS.split "010" growDiff
  = (["diff --git a/a.txt b/a.txt"; "index 1111111..2222222 100644";
      "--- a/a.txt"; "+++ b/a.txt"]
     ++ "@@ -1,3 +1,5 @@" :: growBody ++ [])%list
  /\ GitService.parseDiffOutput growDiff !! "a.txt" = Some [growHunk]
  /\ DiffHunk.content growHunk = hunkText "@@ -1,3 +1,5 @@" growBody
  /\ DiffHunk.content growHunk <> statedHunkText growBody.
Proof.
  split_and!.
  - vm_compute. reflexivity.
  - vm_compute. reflexivity.
  - vm_compute. reflexivity.
  - vm_compute. discriminate.
Qed.


(** ** ProgressTracker *)

Section Progress.
Import ProgressTracker.

Lemma includes_In (l : list string) (stepId : string) :
  includes l stepId = true <-> In stepId l.
Proof.
  unfold includes. rewrite existsb_exists. split.
  - intros (x & Hx & E). apply String.eqb_eq in E. now subst.
  - intros Hin. exists stepId. split; [assumption | apply String.eqb_refl].
Qed.

Lemma includes_not_In (l : list string) (stepId : string) :
  includes l stepId = false <-> ~ In stepId l.
Proof.
  rewrite <- includes_In. destruct (includes l stepId); split; congruence.
Qed.

Lemma alter_present {A} (f : A -> A) (m : gmap string A) (i : string) (x : A) :
  m !! i = Some x -> alter f i m = <[i := f x]> m.
Proof.
  intros Hx. apply map_eq. intros j. destruct (decide (i = j)) as [->|Hne].
  - now rewrite lookup_alter_eq, lookup_insert_eq, Hx.
  - now rewrite lookup_alter_ne, lookup_insert_ne.
Qed.

Lemma getProgress_cached tutorialId tr p :
  progressCache tr !! tutorialId = Some p -> getProgress tutorialId tr = (p, tr).
Proof. unfold getProgress. now intros ->. Qed.

(** The already-present case: the call changes nothing at all. *)
Lemma markStepCompleted_present tutorialId stepId tr p :
  progressCache tr !! tutorialId = Some p ->
  In stepId (TutorialProgress.completedSteps p) ->
  markStepCompleted tutorialId stepId tr = tr.
Proof.
  intros Hp Hin. unfold markStepCompleted.
  rewrite (getProgress_cached _ _ _ Hp).
  apply includes_In in Hin. now rewrite Hin.
Qed.

(** The record exists and the step is new. *)
Lemma markStepCompleted_new tutorialId stepId tr p :
  progressCache tr !! tutorialId = Some p ->
  ~ In stepId (TutorialProgress.completedSteps p) ->
  markStepCompleted tutorialId stepId tr
  = saveToStorage
      (mk (context tr)
          (<[tutorialId :=
               TutorialProgress.mk (TutorialProgress.tutorialId p)
                 (TutorialProgress.currentStepId p)
                 (TutorialProgress.completedSteps p ++ [stepId])
                 (clock tr (reads tr))]> (progressCache tr))
          (clock tr) (S (reads tr))).
Proof.
  intros Hp Hnin. unfold markStepCompleted.
  rewrite (getProgress_cached _ _ _ Hp).
  apply includes_not_In in Hnin. rewrite Hnin. simpl.
  unfold mutate, set_cache. simpl. f_equal. f_equal.
  rewrite (alter_present _ _ _ _ Hp).
  rewrite (alter_present _ _ _ (pushCompleted stepId p)) by apply lookup_insert_eq.
  now rewrite insert_insert_eq.
Qed.

(** No record yet: one is created, then the step is added to it. *)
Lemma markStepCompleted_fresh tutorialId stepId tr :
  progressCache tr !! tutorialId = None ->
  markStepCompleted tutorialId stepId tr
  = saveToStorage
      (mk (context tr)
          (<[tutorialId :=
               TutorialProgress.mk tutorialId None [stepId]
                 (clock tr (S (reads tr)))]> (progressCache tr))
          (clock tr) (S (S (reads tr)))).
Proof.
  intros Hp. unfold markStepCompleted, getProgress. rewrite Hp. simpl.
  unfold mutate, set_cache. simpl. f_equal. f_equal.
  rewrite (alter_present (pushCompleted stepId) _ _
             (TutorialProgress.mk tutorialId None [] (clock tr (reads tr))))
    by apply lookup_insert_eq.
  rewrite (alter_present _ _ _ (pushCompleted stepId
             (TutorialProgress.mk tutorialId None [] (clock tr (reads tr)))))
    by apply lookup_insert_eq.
  now rewrite !insert_insert_eq.
Qed.

Lemma writes_saveToStorage tr :
  writes (saveToStorage tr)
  = match context tr with Some _ => S (writes tr) | None => writes tr end.
Proof.
  unfold writes, saveToStorage.
  destruct (context tr) eqn:E; simpl; rewrite ?E; reflexivity.
Qed.

Lemma cache_saveToStorage tr : progressCache (saveToStorage tr) = progressCache tr.
Proof. unfold saveToStorage. destruct (context tr); reflexivity. Qed.

Lemma reads_saveToStorage tr : reads (saveToStorage tr) = reads tr.
Proof. unfold saveToStorage. destruct (context tr); reflexivity. Qed.

Lemma clock_saveToStorage tr : clock (saveToStorage tr) = clock tr.
Proof. unfold saveToStorage. destruct (context tr); reflexivity. Qed.
End Progress.

(** C4 (as amended). [markStepCompleted] is idempotent; when the step is
    already recorded the call changes nothing (the set, [lastAccessTime]
    and the store are as before, and the clock is not read); when it is
    new, the step is appended, [lastAccessTime] becomes the reading of the
    clock taken in the call, and the cache is written to the store; the
    store is written only when the set changed. *)
Theorem markStepCompleted_effect (tutorialId stepId : string) (tr : ProgressTracker.t) :
  ProgressTracker.markStepCompleted tutorialId stepId
    (ProgressTracker.markStepCompleted tutorialId stepId tr)
  = ProgressTracker.markStepCompleted tutorialId stepId tr
  /\ (In stepId (completedOf tutorialId tr) ->
      ProgressTracker.markStepCompleted tutorialId stepId tr = tr)
  /\ (~ In stepId (completedOf tutorialId tr) ->
      completedOf tutorialId (ProgressTracker.markStepCompleted tutorialId stepId tr)
      = (completedOf tutorialId tr ++ [stepId])%list
      /\ lastAccessOf tutorialId (ProgressTracker.markStepCompleted tutorialId stepId tr)
         = Some (lastReading (ProgressTracker.markStepCompleted tutorialId stepId tr))
      /\ (ProgressTracker.reads tr
          < ProgressTracker.reads (ProgressTracker.markStepCompleted tutorialId stepId tr))%nat
      /\ writes (ProgressTracker.markStepCompleted tutorialId stepId tr)
         = match ProgressTracker.context tr with
           | Some _ => S (writes tr)
           | None => writes tr
           end
      /\ (forall ctx,
            ProgressTracker.context (ProgressTracker.markStepCompleted tutorialId stepId tr)
            = Some ctx ->
            Memento.get ProgressTracker.STORAGE_KEY ctx
            = Some (ProgressTracker.progressCache
                      (ProgressTracker.markStepCompleted tutorialId stepId tr))))
  /\ (writes (ProgressTracker.markStepCompleted tutorialId stepId tr) <> writes tr ->
      completedOf tutorialId (ProgressTracker.markStepCompleted tutorialId stepId tr)
      <> completedOf tutorialId tr).
Proof.
  assert (Hpresent : In stepId (completedOf tutorialId tr) ->
                     ProgressTracker.markStepCompleted tutorialId stepId tr = tr).
  { unfold completedOf.
    destruct (ProgressTracker.progressCache tr !! tutorialId) as [p|] eqn:Hp;
      [|intros []].
    now apply markStepCompleted_present. }
  assert (Hnew : ~ In stepId (completedOf tutorialId tr) ->
            exists p' tr0,
              ProgressTracker.markStepCompleted tutorialId stepId tr
              = ProgressTracker.saveToStorage tr0
              /\ ProgressTracker.progressCache tr0
                 = <[tutorialId := p']> (ProgressTracker.progressCache tr)
              /\ TutorialProgress.completedSteps p'
                 = (completedOf tutorialId tr ++ [stepId])%list
              /\ TutorialProgress.lastAccessTime p'
                 = ProgressTracker.clock tr0 (pred (ProgressTracker.reads tr0))
              /\ (ProgressTracker.reads tr < ProgressTracker.reads tr0)%nat
              /\ ProgressTracker.context tr0 = ProgressTracker.context tr).
  { unfold completedOf.
    destruct (ProgressTracker.progressCache tr !! tutorialId) as [p|] eqn:Hp; intros Hnin.
    - rewrite (markStepCompleted_new _ _ _ _ Hp Hnin).
      eexists _, _. split; [reflexivity|]. simpl. split_and!; try reflexivity. lia.
    - rewrite (markStepCompleted_fresh _ _ _ Hp).
      eexists _, _. split; [reflexivity|]. simpl. split_and!; try reflexivity. lia. }
  assert (Happ : forall l : list string, (l ++ [stepId])%list <> l).
  { intros l E. apply (f_equal (@length string)) in E.
    rewrite length_app in E. simpl in E. lia. }
  split_and!.
  - destruct (in_dec string_dec stepId (completedOf tutorialId tr)) as [Hin|Hnin].
    + now rewrite !Hpresent.
    + destruct (Hnew Hnin) as (p' & tr0 & E & Hc & Hs & _).
      unfold completedOf in Hs.
      apply (markStepCompleted_present _ _ _ p').
      * rewrite E, cache_saveToStorage, Hc. apply lookup_insert_eq.
      * rewrite Hs. apply in_or_app. right. now left.
  - exact Hpresent.
  - intros Hnin. destruct (Hnew Hnin) as (p' & tr0 & E & Hc & Hs & Hl & Hr & Hctx).
    rewrite E. split_and!.
    + unfold completedOf at 1. rewrite cache_saveToStorage, Hc, lookup_insert_eq.
      exact Hs.
    + unfold lastAccessOf, lastReading.
      rewrite cache_saveToStorage, Hc, lookup_insert_eq, reads_saveToStorage,
        clock_saveToStorage. simpl. now rewrite Hl.
    + now rewrite reads_saveToStorage.
    + rewrite writes_saveToStorage, Hctx. unfold writes. now rewrite Hctx.
    + intros ctx. unfold ProgressTracker.saveToStorage.
      destruct (ProgressTracker.context tr0) as [c|] eqn:Ec; simpl;
        [|rewrite Ec; discriminate].
      intros [= <-]. unfold Memento.get, Memento.update. simpl.
      apply lookup_insert_eq.
  - intros Hw. destruct (in_dec string_dec stepId (completedOf tutorialId tr)) as [Hin|Hnin].
    + rewrite (Hpresent Hin) in Hw. congruence.
    + destruct (Hnew Hnin) as (p' & tr0 & E & Hc & Hs & _).
      rewrite E. unfold completedOf at 1.
      rewrite cache_saveToStorage, Hc, lookup_insert_eq, Hs. apply Happ.
Qed.

Lemma markStepCompleted_effect_witness :
  ProgressTracker.markStepCompleted "T" "s1" exampleTracker = exampleTracker
  /\ completedOf "T" (ProgressTracker.markStepCompleted "T" "s3" exampleTracker)
     = ["s1"; "s3"].
Proof.
  split.
  - apply (proj1 (proj2 (markStepCompleted_effect "T" "s1" exampleTracker))).
    vm_compute. now left.
  - refine (eq_trans
              (proj1 (proj1 (proj2 (proj2 (markStepCompleted_effect "T" "s3" exampleTracker))) _))
              _).
    + vm_compute. intros [H|[]]. discriminate.
    + vm_compute. reflexivity.
Defined.

(** C4 as stated fails: marking a step that is already completed does not
    refresh [lastAccessTime]; the clock is not even read. *)
Lemma markStepCompleted_refresh_counterexample :
  In "s1" (completedOf "T" exampleTracker)
  /\ ProgressTracker.clock exampleTracker (ProgressTracker.reads exampleTracker) = 9%Z
  /\ lastAccessOf "T" (ProgressTracker.markStepCompleted "T" "s1" exampleTracker)
     = Some 5%Z
  /\ ProgressTracker.reads (ProgressTracker.markStepCompleted "T" "s1" exampleTracker)
     = ProgressTracker.reads exampleTracker.
Proof.
  split_and!.
  - vm_compute. now left.
  - reflexivity.
  - vm_compute. reflexivity.
  - vm_compute. reflexivity.
Qed.

(** C10. Selecting the step that is already current leaves the completed
    steps as they are: the call rewrites [currentStepId] with the same
    value, sets [lastAccessTime] to a new reading of the clock, saves, and
    touches no other record. *)
Theorem setCurrentStep_same_step (tutorialId stepId : string)
        (tr : ProgressTracker.t) (p : TutorialProgress.t) :
  ProgressTracker.progressCache tr !! tutorialId = Some p ->
  TutorialProgress.currentStepId p = Some stepId ->
  ProgressTracker.setCurrentStep tutorialId stepId tr
  = ProgressTracker.saveToStorage
      (ProgressTracker.mk (ProgressTracker.context tr)
         (<[tutorialId :=
              TutorialProgress.mk (TutorialProgress.tutorialId p) (Some stepId)
                (TutorialProgress.completedSteps p)
                (ProgressTracker.clock tr (ProgressTracker.reads tr))]>
            (ProgressTracker.progressCache tr))
         (ProgressTracker.clock tr) (S (ProgressTracker.reads tr)))
  /\ completedOf tutorialId (ProgressTracker.setCurrentStep tutorialId stepId tr)
     = completedOf tutorialId tr
  /\ currentOf tutorialId (ProgressTracker.setCurrentStep tutorialId stepId tr)
     = Some stepId
  /\ (forall other, other <> tutorialId ->
        ProgressTracker.progressCache
          (ProgressTracker.setCurrentStep tutorialId stepId tr) !! other
        = ProgressTracker.progressCache tr !! other).
Proof.
  intros Hp Hcur.
  assert (E : ProgressTracker.setCurrentStep tutorialId stepId tr
              = ProgressTracker.saveToStorage
                  (ProgressTracker.mk (ProgressTracker.context tr)
                     (<[tutorialId :=
                          TutorialProgress.mk (TutorialProgress.tutorialId p) (Some stepId)
                            (TutorialProgress.completedSteps p)
                            (ProgressTracker.clock tr (ProgressTracker.reads tr))]>
                        (ProgressTracker.progressCache tr))
                     (ProgressTracker.clock tr) (S (ProgressTracker.reads tr)))).
  { unfold ProgressTracker.setCurrentStep.
    rewrite (getProgress_cached _ _ _ Hp), Hcur, String.eqb_refl, andb_false_r.
    simpl. unfold ProgressTracker.mutate, ProgressTracker.set_cache. simpl.
    f_equal. f_equal.
    rewrite (alter_present _ _ _ _ Hp).
    rewrite (alter_present _ _ _ (ProgressTracker.setCurrentStepId stepId p))
      by apply lookup_insert_eq.
    now rewrite insert_insert_eq. }
  split; [exact E|]. rewrite E. split_and!.
  - unfold completedOf. rewrite cache_saveToStorage. simpl.
    now rewrite lookup_insert_eq, Hp.
  - unfold currentOf. rewrite cache_saveToStorage. simpl.
    now rewrite lookup_insert_eq.
  - intros other Hne. rewrite cache_saveToStorage. simpl.
    now rewrite lookup_insert_ne.
Qed.

Lemma setCurrentStep_same_step_witness :
  completedOf "T" (ProgressTracker.setCurrentStep "T" "s2" exampleTracker) = ["s1"].
Proof.
  refine (eq_trans
            (proj1 (proj2 (setCurrentStep_same_step "T" "s2" exampleTracker
                             (TutorialProgress.mk "T" (Some "s2") ["s1"] 5) _ _)))
            _).
  - vm_compute. reflexivity.
  - reflexivity.
  - vm_compute. reflexivity.
Defined.

(** ** The effect monad *)

Section EffFacts.
Context {W : Type}.

Lemma bind_Ok {A B} (c : Eff.M W A) (k : A -> Eff.M W B) s a s1 :
  c s = (Ok a, s1) -> Eff.bind c k s = k a s1.
Proof. unfold Eff.bind. now intros ->. Qed.

Lemma bind_Throw {A B} (c : Eff.M W A) (k : A -> Eff.M W B) s e s1 :
  c s = (Throw e, s1) -> Eff.bind c k s = (Throw e, s1).
Proof. unfold Eff.bind. now intros ->. Qed.

Lemma bind_inv {A B} (c : Eff.M W A) (k : A -> Eff.M W B) s r s' :
  Eff.bind c k s = (r, s') ->
  (exists e, c s = (Throw e, s') /\ r = Throw e)
  \/ (exists a s1, c s = (Ok a, s1) /\ k a s1 = (r, s')).
Proof.
  unfold Eff.bind. destruct (c s) as [[a|e] s1].
  - intros Hk. right. now exists a, s1.
  - intros [= <- <-]. left. now exists e.
Qed.

Lemma keeps_ret {A} (a : A) : keepsTutorial (Eff.ret (W := W) a).
Proof. now intros s. Qed.

Lemma keeps_throw {A} e : keepsTutorial (Eff.throw (W := W) (A := A) e).
Proof. now intros s. Qed.

Lemma keeps_get : keepsTutorial (Eff.get (W := W)).
Proof. now intros s. Qed.

Lemma keeps_query {A} (q : W -> Result A) : keepsTutorial (Eff.query q).
Proof. now intros s. Qed.

Lemma keeps_command {A} (c : W -> Result A * W) : keepsTutorial (Eff.command c).
Proof. intros s. unfold Eff.command. now destruct (c (world s)). Qed.

Lemma keeps_bind {A B} (c : Eff.M W A) (k : A -> Eff.M W B) :
  keepsTutorial c -> (forall a, keepsTutorial (k a)) -> keepsTutorial (Eff.bind c k).
Proof.
  intros Hc Hk s. unfold Eff.bind. specialize (Hc s).
  destruct (c s) as [[a|e] s1]; simpl in *; [|assumption].
  destruct (Hk a s1) as (H1 & H2 & H3). destruct Hc as (H4 & H5 & H6).
  split_and!; congruence.
Qed.

Lemma keeps_modify (f : State W -> State W) :
  (forall s, currentTutorial (f s) = currentTutorial s
             /\ onTutorialLoaded (f s) = onTutorialLoaded s
             /\ onStepChanged (f s) = onStepChanged s) ->
  keepsTutorial (Eff.modify f).
Proof. intros Hf s. apply Hf. Qed.

Lemma binding_ret {A} (a : A) : keepsBinding (Eff.ret (W := W) a).
Proof. now intros s. Qed.

Lemma binding_throw {A} e : keepsBinding (Eff.throw (W := W) (A := A) e).
Proof. now intros s. Qed.

Lemma binding_get : keepsBinding (Eff.get (W := W)).
Proof. now intros s. Qed.

Lemma binding_query {A} (q : W -> Result A) : keepsBinding (Eff.query q).
Proof. now intros s. Qed.

Lemma binding_command {A} (c : W -> Result A * W) : keepsBinding (Eff.command c).
Proof. intros s. unfold Eff.command. now destruct (c (world s)). Qed.

Lemma binding_bind {A B} (c : Eff.M W A) (k : A -> Eff.M W B) :
  keepsBinding c -> (forall a, keepsBinding (k a)) -> keepsBinding (Eff.bind c k).
Proof.
  intros Hc Hk s. unfold Eff.bind. specialize (Hc s).
  destruct (c s) as [[a|e] s1]; simpl in *; [|assumption].
  rewrite (Hk a s1). exact Hc.
Qed.

Lemma binding_modify (f : State W -> State W) :
  (forall s, git (f s) = git s) -> keepsBinding (Eff.modify f).
Proof. intros Hf s. apply Hf. Qed.
End EffFacts.

Create HintDb keeps discriminated.
#[export] Hint Resolve keeps_ret keeps_throw keeps_get keeps_query keeps_command
  keeps_bind : keeps.
#[export] Hint Resolve binding_ret binding_throw binding_get binding_query
  binding_command binding_bind : keeps.

Ltac keeps :=
  repeat first
    [ apply keeps_bind; [|intros ?]
    | apply binding_bind; [|intros ?]
    | apply keeps_modify; now intros ?
    | apply binding_modify; now intros ?
    | solve [auto with keeps]
    | match goal with
      | |- context [match ?x with _ => _ end] => destruct x
      end ].

(** ** What the services leave alone *)

Section Frames.
Context {W : Type} (H : Host W).

Lemma getGit_keeps : keepsTutorial (GitService.getGit (W := W)).
Proof. unfold GitService.getGit. keeps. Qed.

Lemma initialize_keeps p : keepsTutorial (GitService.initialize H p).
Proof. unfold GitService.initialize. keeps. Qed.

Lemma clone_keeps u p : keepsTutorial (GitService.clone H u p).
Proof.
  unfold GitService.clone. keeps.
Qed.

Lemma checkout_keeps ref : keepsTutorial (GitService.checkout H ref).
Proof. unfold GitService.checkout. pose proof getGit_keeps. keeps. Qed.

Lemma hasUncommittedChanges_keeps : keepsTutorial (GitService.hasUncommittedChanges H).
Proof. unfold GitService.hasUncommittedChanges. pose proof getGit_keeps. keeps. Qed.

Lemma stash_keeps : keepsTutorial (GitService.stash H).
Proof. unfold GitService.stash. pose proof getGit_keeps. keeps. Qed.

Lemma refExists_keeps ref : keepsTutorial (GitService.refExists H ref).
Proof. unfold GitService.refExists. pose proof getGit_keeps. keeps. Qed.

Lemma findConfigFile_keeps p : keepsTutorial (TutorialManager.findConfigFile H p).
Proof. unfold TutorialManager.findConfigFile. keeps. Qed.

Lemma parse_keeps p : keepsTutorial (ConfigParser.parse H p).
Proof. unfold ConfigParser.parse. keeps. Qed.

Lemma collectInvalidRefs_keeps steps acc :
  keepsTutorial (TutorialManager.collectInvalidRefs H steps acc).
Proof.
  revert acc. induction steps as [|step steps IH]; intros acc; simpl.
  - keeps.
  - apply keeps_bind; [apply refExists_keeps|]. intros b. apply IH.
Qed.

Lemma validateGitRefs_keeps config :
  keepsTutorial (TutorialManager.validateGitRefs H config).
Proof.
  unfold TutorialManager.validateGitRefs.
  apply keeps_bind; [apply collectInvalidRefs_keeps|]. intros l. keeps.
Qed.

Lemma dirtyGate_keeps : keepsTutorial (TutorialManager.dirtyGate H).
Proof.
  unfold TutorialManager.dirtyGate.
  pose proof hasUncommittedChanges_keeps. pose proof stash_keeps. keeps.
Qed.

Lemma loadConfig_keeps source : keepsTutorial (loadConfig H source).
Proof.
  unfold loadConfig.
  pose proof (fun u p => clone_keeps u p). pose proof (fun p => initialize_keeps p).
  pose proof (fun p => findConfigFile_keeps p). pose proof (fun p => parse_keeps p).
  keeps.
Qed.
End Frames.

(** ** loadTutorial *)

Section LoadTutorial.
Context {W : Type} (H : Host W).

Lemma refExists_bound ref (s : State W) baseDir :
  git s = Some baseDir ->
  GitService.refExists H ref s = (Ok (resolves H baseDir (world s) ref), s).
Proof.
  intros Hg. unfold GitService.refExists, GitService.getGit, Eff.bind, Eff.get,
    Eff.query, Eff.ret, resolves.
  rewrite Hg. simpl. now destruct (git_revparse H baseDir [ref] (world s)).
Qed.

(** Every step is probed; the entries of the offending ones are
    collected in order. *)
Lemma collectInvalidRefs_bound steps acc (s : State W) baseDir :
  git s = Some baseDir ->
  TutorialManager.collectInvalidRefs H steps acc s
  = (Ok (acc ++ map TutorialManager.invalidRefEntry
                    (offendingSteps H baseDir (world s) steps))%list, s).
Proof.
  intros Hg. revert acc. induction steps as [|step steps IH]; intros acc; simpl.
  - now rewrite app_nil_r.
  - rewrite (bind_Ok _ _ _ _ _ (refExists_bound _ _ _ Hg)). rewrite IH.
    destruct (resolves H baseDir (world s) (StepConfig.gitRef step)); simpl.
    + reflexivity.
    + now rewrite <- List.app_assoc.
Qed.

Lemma validateGitRefs_bound config (s : State W) baseDir :
  git s = Some baseDir ->
  TutorialManager.validateGitRefs H config s
  = match offendingSteps H baseDir (world s) (TutorialConfig.steps config) with
    | [] => (Ok tt, s)
    | bad =>
        (Throw (JsError.newError
                  (TutorialManager.invalidRefsMessage
                     (map TutorialManager.invalidRefEntry bad))), s)
    end.
Proof.
  intros Hg. unfold TutorialManager.validateGitRefs.
  rewrite (bind_Ok _ _ _ _ _ (collectInvalidRefs_bound _ [] _ _ Hg)). simpl.
  now destruct (offendingSteps H baseDir (world s) (TutorialConfig.steps config)).
Qed.

(** [loadTutorial] is [loadConfig], then the check of the refs, then the
    construction and publication of the tutorial. *)
Lemma loadTutorial_stages source (s : State W) :
  TutorialManager.loadTutorial H source s
  = match loadConfig H source s with
    | (Throw e, s1) => (Throw e, s1)
    | (Ok (repoPath, config), s1) =>
        match TutorialManager.validateGitRefs H config s1 with
        | (Throw e, s2) => (Throw e, s2)
        | (Ok _, s2) =>
            (Ok (tutorialOf H repoPath config),
             fire_onTutorialLoaded (tutorialOf H repoPath config)
               (set_currentTutorial (Some (tutorialOf H repoPath config)) s2))
        end
    end.
Proof.
  unfold TutorialManager.loadTutorial, loadConfig.
  destruct (TutorialManager.isRemoteUrl source);
    unfold Eff.bind, Eff.get, Eff.ret, Eff.throw, Eff.modify; simpl;
    repeat (match goal with
            | |- context [match ?x with (_, _) => _ end] =>
                lazymatch x with
                | context [match _ with _ => _ end] => fail
                | _ => destruct x as [[?|?] ?]
                end
            | |- context [if ?b then _ else _] =>
                lazymatch b with
                | context [match _ with _ => _ end] => fail
                | _ => destruct b
                end
            end; simpl);
    try reflexivity.
Qed.

Lemma initialize_binds p (s s1 : State W) u :
  GitService.initialize H p s = (Ok u, s1) -> git s1 = Some p.
Proof.
  unfold GitService.initialize, Eff.bind, Eff.modify, Eff.query. simpl.
  destruct (simpleGit H p (world s)); [|discriminate]. now intros [= _ <-].
Qed.

Lemma findConfigFile_binding p : keepsBinding (TutorialManager.findConfigFile H p).
Proof. unfold TutorialManager.findConfigFile. keeps. Qed.

Lemma parse_binding p : keepsBinding (ConfigParser.parse H p).
Proof. unfold ConfigParser.parse. keeps. Qed.

(** After [loadConfig] the git service is bound to the repository. *)
Lemma loadConfig_binds source (s s1 : State W) repoPath config :
  loadConfig H source s = (Ok (repoPath, config), s1) -> git s1 = Some repoPath.
Proof.
  unfold loadConfig. intros Hl.
  apply bind_inv in Hl as [(e & _ & [=])|(p & s2 & Hp & Hl)].
  assert (Hb : git s2 = Some p).
  { destruct (TutorialManager.isRemoteUrl source).
    - apply bind_inv in Hp as [(e & _ & [=])|(s0 & s0' & Hget & Hp)].
      apply bind_inv in Hp as [(e & _ & [=])|(u & s3 & Hc & Hr)].
      inversion Hr; subst. clear Hr.
      unfold GitService.clone in Hc.
      apply bind_inv in Hc as [(e & _ & [=])|(u1 & s4 & _ & Hc)].
      apply bind_inv in Hc as [(e & _ & [=])|(u2 & s5 & _ & Hc)].
      now apply initialize_binds in Hc.
    - apply bind_inv in Hp as [(e & _ & [=])|(u & s3 & Hc & Hr)].
      inversion Hr; subst. now apply initialize_binds in Hc. }
  apply bind_inv in Hl as [(e & _ & [=])|(cp & s3 & Hf & Hl)].
  pose proof (findConfigFile_binding p s2) as Hb1. rewrite Hf in Hb1. simpl in Hb1.
  destruct (negb (JS.truthy_opt cp)); [discriminate|].
  apply bind_inv in Hl as [(e & _ & [=])|(c & s4 & Hparse & Hr)].
  pose proof (parse_binding (default "" cp) s3) as Hb2. rewrite Hparse in Hb2.
  simpl in Hb2. inversion Hr; subst. congruence.
Qed.
End LoadTutorial.

(** C3. [loadTutorial] probes the ref of every step before it builds the
    graph.  When some refs do not resolve, the load fails with a report
    that lists every offending step; otherwise the tutorial is built and
    published.  Whenever the load fails, the current tutorial and the
    payloads fired so far are as before. *)
Theorem loadTutorial_validates_refs {W : Type} (H : Host W)
        (source : string) (s : State W) :
  (forall e s',
      TutorialManager.loadTutorial H source s = (Throw e, s') ->
      currentTutorial s' = currentTutorial s
      /\ onTutorialLoaded s' = onTutorialLoaded s)
  /\ (forall repoPath config s1,
        loadConfig H source s = (Ok (repoPath, config), s1) ->
        (forall step,
            In step (TutorialConfig.steps config) ->
            resolves H repoPath (world s1) (StepConfig.gitRef step) = false ->
            In (TutorialManager.invalidRefEntry step)
               (map TutorialManager.invalidRefEntry
                    (offendingSteps H repoPath (world s1) (TutorialConfig.steps config))))
        /\ (offendingSteps H repoPath (world s1) (TutorialConfig.steps config) <> [] ->
            TutorialManager.loadTutorial H source s
            = (Throw (JsError.newError
                        (TutorialManager.invalidRefsMessage
                           (map TutorialManager.invalidRefEntry
                                (offendingSteps H repoPath (world s1)
                                                (TutorialConfig.steps config))))),
               s1))
        /\ (offendingSteps H repoPath (world s1) (TutorialConfig.steps config) = [] ->
            TutorialManager.loadTutorial H source s
            = (Ok (tutorialOf H repoPath config),
               fire_onTutorialLoaded (tutorialOf H repoPath config)
                 (set_currentTutorial (Some (tutorialOf H repoPath config)) s1)))).
Proof.
  split.
  - intros e s' Hl. rewrite loadTutorial_stages in Hl.
    pose proof (loadConfig_keeps H source s) as (K1 & K2 & _).
    destruct (loadConfig H source s) as [[[repoPath config]|e1] s1]; simpl in *.
    + pose proof (validateGitRefs_keeps H config s1) as (K3 & K4 & _).
      destruct (TutorialManager.validateGitRefs H config s1) as [[u|e2] s2];
        simpl in *; [discriminate|].
      inversion Hl; subst. split; congruence.
    + inversion Hl; subst. now split.
  - intros repoPath config s1 Hc.
    pose proof (loadConfig_binds H _ _ _ _ _ Hc) as Hb.
    rewrite loadTutorial_stages, Hc, (validateGitRefs_bound H config s1 repoPath Hb).
    split_and!.
    + intros step Hin Hr. apply in_map. apply filter_In. split; [assumption|].
      now rewrite Hr.
    + intros Hbad.
      now destruct (offendingSteps H repoPath (world s1) (TutorialConfig.steps config)).
    + now intros ->.
Qed.

Lemma loadTutorial_validates_refs_witness :
  TutorialManager.loadTutorial
    (exampleHost [] "" ["v1"] true None (Ok exampleConfig)) "/repo"
    (mkState tt None None [] (Some exampleTutorial) [] [])
  = (Throw (JsError.newError
              "以下步骤的 Git 引用无效:
step-2: v9
step-3: v8"),
     mkState tt (Some "/repo") (Some "/repo") [] (Some exampleTutorial) [] []).
Proof.
  destruct (proj2 (loadTutorial_validates_refs
                     (exampleHost [] "" ["v1"] true None (Ok exampleConfig)) "/repo"
                     (mkState tt None None [] (Some exampleTutorial) [] []))
                  "/repo"
                  (TutorialConfig.mk "Demo" "A demo" "1.0.0"
                     [StepConfig.mk "step-1" "step-1" None "v1" None "doc.md";
                      StepConfig.mk "step-2" "step-2" None "v9" None "doc.md";
                      StepConfig.mk "step-3" "step-3" None "v8" None "doc.md"])
                  (mkState tt (Some "/repo") (Some "/repo") [] (Some exampleTutorial) [] []))
    as (_ & Hbad & _).
  - vm_compute. reflexivity.
  - refine (eq_trans (Hbad _) _).
    + vm_compute. discriminate.
    + vm_compute. reflexivity.
Defined.

(** ** navigateToStep *)

Section NavigateToStep.
Context {W : Type} (H : Host W).

Lemma findStep_None steps stepId :
  TutorialManager.findStep steps stepId = None
  <-> ~ In stepId (map StepNode.id steps).
Proof.
  unfold TutorialManager.findStep. induction steps as [|n steps IH]; simpl.
  - tauto.
  - destruct (String.eqb (StepNode.id n) stepId) eqn:E.
    + apply String.eqb_eq in E. split; [discriminate | tauto].
    + apply String.eqb_neq in E. rewrite IH. tauto.
Qed.

Lemma navigateToStep_found stepId (s : State W) t step :
  currentTutorial s = Some t ->
  TutorialManager.findStep (Tutorial.steps t) stepId = Some step ->
  TutorialManager.navigateToStep H stepId s = navigateFrom H stepId step s.
Proof.
  intros Ht Hs. unfold TutorialManager.navigateToStep.
  unfold Eff.bind at 1. unfold Eff.get. now rewrite Ht, Hs.
Qed.

(** On a dirty tree, any answer but the two "continue" items stops the
    navigation before anything is done. *)
Lemma dirtyGate_cancel (s : State W) baseDir :
  git s = Some baseDir ->
  git_status_isClean H baseDir (world s) = Ok false ->
  dirtyAnswer H (world s) <> Some TutorialManager.stashAndContinue ->
  dirtyAnswer H (world s) <> Some TutorialManager.discardAndContinue ->
  TutorialManager.dirtyGate H s = (Ok false, s).
Proof.
  intros Hg Hst Hn1 Hn2.
  unfold TutorialManager.dirtyGate, GitService.hasUncommittedChanges,
    GitService.getGit, Eff.bind, Eff.get, Eff.query, Eff.ret.
  rewrite Hg. simpl. rewrite Hst. simpl.
  fold (dirtyAnswer H (world s)).
  destruct (dirtyAnswer H (world s)) as [c|]; [|reflexivity].
  destruct (String.eqb c TutorialManager.stashAndContinue) eqn:E1.
  { apply String.eqb_eq in E1. congruence. }
  destruct (String.eqb c TutorialManager.discardAndContinue) eqn:E2.
  { apply String.eqb_eq in E2. congruence. }
  reflexivity.
Qed.

Lemma checkout_bound ref (s : State W) baseDir :
  git s = Some baseDir ->
  GitService.checkout H ref s
  = (fst (git_checkout H baseDir ref (world s)),
     mkState (snd (git_checkout H baseDir ref (world s))) (git s) (repoPath s)
             (gitCalls s ++ [CallCheckout baseDir ref]) (currentTutorial s)
             (onTutorialLoaded s) (onStepChanged s)).
Proof.
  intros Hg. unfold GitService.checkout, GitService.getGit, Eff.bind, Eff.get,
    Eff.modify, Eff.command. rewrite Hg. simpl.
  destruct (git_checkout H baseDir ref (world s)); simpl. now rewrite Hg.
Qed.

Lemma checkout_Ok_bound ref (s s1 : State W) u :
  GitService.checkout H ref s = (Ok u, s1) ->
  exists baseDir w', git s = Some baseDir
                     /\ git_checkout H baseDir ref (world s) = (Ok tt, w').
Proof.
  unfold GitService.checkout, GitService.getGit. intros Hc.
  apply bind_inv in Hc as [(e & _ & [=])|(b & s2 & Hg & Hc)].
  unfold Eff.bind, Eff.get in Hg.
  destruct (git s) as [baseDir|] eqn:Eg; [|discriminate].
  inversion Hg; subst. exists b, (snd (git_checkout H b ref (world s2))).
  split; [reflexivity|].
  apply bind_inv in Hc as [(e & _ & [=])|(u1 & s3 & Hm & Hc)].
  inversion Hm; subst. unfold Eff.command in Hc. simpl in Hc.
  destruct (git_checkout H b ref (world s2)) as [[[]|e] w']; simpl;
    [reflexivity | discriminate].
Qed.
End NavigateToStep.

(** C2. With a current tutorial [t] that has the step: on a dirty tree an
    answer other than the two "continue" items returns with the whole
    state as it was (no checkout is issued, the world and the current
    tutorial are untouched); a failing checkout makes the navigation fail
    with the current tutorial as it was and nothing fired; and the current
    tutorial changes only after a checkout that succeeded, to [t] with
    [currentStepId] set to the target. *)
Theorem navigateToStep_atomic {W : Type} (H : Host W) (stepId : string)
        (s : State W) (t : Tutorial.t) (step : StepNode.t) :
  currentTutorial s = Some t ->
  TutorialManager.findStep (Tutorial.steps t) stepId = Some step ->
  (forall baseDir,
      git s = Some baseDir ->
      git_status_isClean H baseDir (world s) = Ok false ->
      dirtyAnswer H (world s) <> Some TutorialManager.stashAndContinue ->
      dirtyAnswer H (world s) <> Some TutorialManager.discardAndContinue ->
      TutorialManager.navigateToStep H stepId s = (Ok tt, s))
  /\ (forall s1 baseDir e w',
        TutorialManager.dirtyGate H s = (Ok true, s1) ->
        git s1 = Some baseDir ->
        git_checkout H baseDir (StepNode.gitRef step) (world s1) = (Throw e, w') ->
        exists s2,
          TutorialManager.navigateToStep H stepId s = (Throw e, s2)
          /\ currentTutorial s2 = Some t
          /\ onStepChanged s2 = onStepChanged s)
  /\ (forall r s',
        TutorialManager.navigateToStep H stepId s = (r, s') ->
        currentTutorial s' <> Some t ->
        exists s1 baseDir w',
          TutorialManager.dirtyGate H s = (Ok true, s1)
          /\ git s1 = Some baseDir
          /\ git_checkout H baseDir (StepNode.gitRef step) (world s1) = (Ok tt, w')
          /\ currentTutorial s' = Some (Tutorial.with_currentStepId t (Some stepId))).
Proof.
  intros Ht Hs. rewrite (navigateToStep_found H _ _ _ _ Ht Hs).
  pose proof (dirtyGate_keeps H s) as (G1 & _ & G3).
  split_and!.
  - intros baseDir Hg Hst Hn1 Hn2. unfold navigateFrom.
    now rewrite (bind_Ok _ _ _ _ _ (dirtyGate_cancel H s baseDir Hg Hst Hn1 Hn2)).
  - intros s1 baseDir e w' Hgate Hg Hco. unfold navigateFrom.
    rewrite (bind_Ok _ _ _ _ _ Hgate). simpl.
    rewrite Hgate in G1, G3. simpl in G1, G3.
    eexists. split.
    + apply bind_Throw. rewrite (checkout_bound H _ _ _ Hg), Hco. reflexivity.
    + simpl. split; congruence.
  - intros r s' Hnav Hchg. unfold navigateFrom in Hnav.
    apply bind_inv in Hnav as [(e & Hgate & _)|(go & s1 & Hgate & Hnav)].
    { rewrite Hgate in G1. simpl in G1. congruence. }
    rewrite Hgate in G1. simpl in G1.
    destruct go; simpl in Hnav.
    2:{ inversion Hnav; subst. congruence. }
    pose proof (checkout_keeps H (StepNode.gitRef step) s1) as (C1 & _).
    apply bind_inv in Hnav as [(e & Hco & _)|(u & s2 & Hco & Hnav)].
    { rewrite Hco in C1. simpl in C1. congruence. }
    rewrite Hco in C1. simpl in C1.
    destruct (checkout_Ok_bound H _ _ _ _ Hco) as (baseDir & w' & Hg & Hok).
    exists s1, baseDir, w'. split_and!; try assumption.
    apply bind_inv in Hnav as [(e & [=] & _)|(u1 & s3 & Hm & Hnav)].
    inversion Hm; subst s3. clear Hm.
    apply bind_inv in Hnav as [(e & [=] & _)|(u2 & s4 & Hm & Hnav)].
    inversion Hm; subst s4. clear Hm.
    pose proof (keeps_command (revertVisibleEditors H)
                  (fire_onStepChanged step
                     (set_currentTutorial
                        (option_map (fun t => Tutorial.with_currentStepId t (Some stepId))
                                    (currentTutorial s2)) s2))) as (R1 & _).
    unfold TutorialManager.refreshOpenEditors in Hnav. rewrite Hnav in R1.
    simpl in R1. rewrite R1, C1, G1, Ht. reflexivity.
Qed.

Lemma navigateToStep_atomic_witness :
  TutorialManager.navigateToStep
    (exampleHost [] "" ["v1"; "v2"] false (Some TutorialManager.cancel) (Ok JValue.JNull))
    "step-2" (boundState (Some exampleTutorial))
  = (Ok tt, boundState (Some exampleTutorial)).
Proof.
  apply (proj1 (navigateToStep_atomic
                  (exampleHost [] "" ["v1"; "v2"] false (Some TutorialManager.cancel)
                               (Ok JValue.JNull))
                  "step-2" (boundState (Some exampleTutorial)) exampleTutorial
                  (StepNode.mk "step-2" "Step 2" "" "v2" (Some "step-1") [] "doc2.md")
                  eq_refl eq_refl) "/repo").
  - reflexivity.
  - reflexivity.
  - vm_compute. discriminate.
  - vm_compute. discriminate.
Defined.

(** A checkout that fails (the ref of the step is unknown to the working
    tree): the navigation fails and [currentStepId] stays at [step-1]. *)
Example navigateToStep_checkout_fails :
  exists e s',
    TutorialManager.navigateToStep
      (exampleHost [] "" ["v1"] true None (Ok JValue.JNull))
      "step-2" (boundState (Some exampleTutorial)) = (Throw e, s')
    /\ currentTutorial s' = Some exampleTutorial
    /\ gitCalls s' = [CallCheckout "/repo" "v2"].
Proof. eexists _, _. vm_compute. split_and!; reflexivity. Qed.

(** A successful navigation, for comparison. *)
Example navigateToStep_succeeds :
  exists s',
    TutorialManager.navigateToStep
      (exampleHost [] "" ["v1"; "v2"] true None (Ok JValue.JNull))
      "step-2" (boundState (Some exampleTutorial)) = (Ok tt, s')
    /\ currentTutorial s'
       = Some (Tutorial.with_currentStepId exampleTutorial (Some "step-2"))
    /\ gitCalls s' = [CallCheckout "/repo" "v2"]
    /\ map StepNode.id (onStepChanged s') = ["step-2"].
Proof. eexists. vm_compute. split_and!; reflexivity. Qed.

(** C6 (as amended). Without a current tutorial, and with a step id that
    the current tutorial does not have, [navigateToStep] throws a plain
    [Error] that carries a message only: it has no [code] and no
    [details], and it is not an instance of [TutorialError]. The state is
    left as it was. *)
Theorem navigateToStep_plain_errors {W : Type} (H : Host W)
        (stepId : string) (s : State W) :
  (currentTutorial s = None ->
   TutorialManager.navigateToStep H stepId s
   = (Throw (JsError.mk JsError.Error "Error" "没有加载的教程" None None), s))
  /\ (forall t,
        currentTutorial s = Some t ->
        ~ In stepId (map StepNode.id (Tutorial.steps t)) ->
        TutorialManager.navigateToStep H stepId s
        = (Throw (JsError.mk JsError.Error "Error" ("步骤不存在: " ++ stepId) None None),
           s))
  /\ (forall e s',
        TutorialManager.navigateToStep H stepId s = (Throw e, s') ->
        currentTutorial s = None
        \/ (exists t, currentTutorial s = Some t
                      /\ ~ In stepId (map StepNode.id (Tutorial.steps t))) ->
        JsError.isTutorialError e = false).
Proof.
  assert (H1 : currentTutorial s = None ->
               TutorialManager.navigateToStep H stepId s
               = (Throw (JsError.newError "没有加载的教程"), s)).
  { intros Hn. unfold TutorialManager.navigateToStep, Eff.bind, Eff.get.
    now rewrite Hn. }
  assert (H2 : forall t, currentTutorial s = Some t ->
                 ~ In stepId (map StepNode.id (Tutorial.steps t)) ->
                 TutorialManager.navigateToStep H stepId s
                 = (Throw (JsError.newError ("步骤不存在: " ++ stepId)), s)).
  { intros t Ht Hnin. apply findStep_None in Hnin.
    unfold TutorialManager.navigateToStep, Eff.bind, Eff.get.
    now rewrite Ht, Hnin. }
  split_and!.
  - exact H1.
  - exact H2.
  - intros e s' Hnav [Hn|(t & Ht & Hnin)].
    + rewrite (H1 Hn) in Hnav. now inversion Hnav.
    + rewrite (H2 t Ht Hnin) in Hnav. now inversion Hnav.
Qed.

Lemma navigateToStep_plain_errors_witness :
  TutorialManager.navigateToStep
    (exampleHost [] "" [] true None (Ok JValue.JNull)) "step-9"
    (boundState (Some exampleTutorial))
  = (Throw (JsError.mk JsError.Error "Error" "步骤不存在: step-9" None None),
     boundState (Some exampleTutorial)).
Proof.
  apply (proj1 (proj2 (navigateToStep_plain_errors
                         (exampleHost [] "" [] true None (Ok JValue.JNull)) "step-9"
                         (boundState (Some exampleTutorial))))
               exampleTutorial eq_refl).
  simpl. intros [E|[E|[]]]; discriminate.
Defined.

(** C6 as stated fails: the error thrown for an unknown step is not the
    [StepNotFoundError] object, and the one thrown without a tutorial is
    not the [TutorialNotLoadedError] object. *)
Lemma navigateToStep_typed_error_counterexample :
  fst (TutorialManager.navigateToStep
         (exampleHost [] "" [] true None (Ok JValue.JNull)) "step-9"
         (boundState (Some exampleTutorial)))
  <> Throw (JsError.newStepNotFoundError "step-9")
  /\ fst (TutorialManager.navigateToStep
            (exampleHost [] "" [] true None (Ok JValue.JNull)) "step-1"
            (boundState None))
     <> Throw JsError.newTutorialNotLoadedError.
Proof. split; vm_compute; discriminate. Qed.

(* ===================================================================== *)
(** * Part III: further properties of the services                        *)
(* ===================================================================== *)

(** ** ProgressTracker: records, statuses and persistence *)

Section ProgressMore.
Import ProgressTracker.

Lemma getProgress_fresh tutorialId tr :
  progressCache tr !! tutorialId = None ->
  getProgress tutorialId tr
  = (TutorialProgress.mk tutorialId None [] (clock tr (reads tr)),
     mk (context tr)
        (<[tutorialId := TutorialProgress.mk tutorialId None [] (clock tr (reads tr))]>
           (progressCache tr))
        (clock tr) (S (reads tr))).
Proof. unfold getProgress. now intros ->. Qed.

Lemma getProgress_registered tutorialId tr :
  progressCache (snd (getProgress tutorialId tr)) !! tutorialId
  = Some (fst (getProgress tutorialId tr)).
Proof.
  destruct (progressCache tr !! tutorialId) as [p|] eqn:Hp.
  - now rewrite (getProgress_cached _ _ _ Hp).
  - rewrite (getProgress_fresh _ _ Hp). simpl. apply lookup_insert_eq.
Qed.

Lemma statusOf_record tutorialId stepId tr p :
  progressCache tr !! tutorialId = Some p ->
  statusOf tutorialId stepId tr
  = match TutorialProgress.currentStepId p with
    | Some c =>
        if String.eqb c stepId then current
        else if includes (TutorialProgress.completedSteps p) stepId
             then completed else pending
    | None =>
        if includes (TutorialProgress.completedSteps p) stepId
        then completed else pending
    end.
Proof.
  intros Hp. unfold statusOf, currentOf, completedOf. rewrite Hp. simpl.
  destruct (TutorialProgress.currentStepId p) as [c|].
  - destruct (String.eqb c stepId) eqn:E.
    + apply String.eqb_eq in E. subst. now rewrite bool_decide_eq_true_2.
    + apply String.eqb_neq in E. rewrite bool_decide_eq_false_2; [reflexivity|].
      congruence.
  - now rewrite bool_decide_eq_false_2.
Qed.

(** [getStepStatus] reads the status off the record (creating an empty
    record first when there is none). *)
Lemma getStepStatus_statusOf tutorialId stepId tr :
  getStepStatus tutorialId stepId tr
  = (statusOf tutorialId stepId tr, snd (getProgress tutorialId tr)).
Proof.
  unfold getStepStatus.
  destruct (progressCache tr !! tutorialId) as [p|] eqn:Hp.
  - rewrite (getProgress_cached _ _ _ Hp), (statusOf_record _ _ _ _ Hp). simpl.
    now destruct (TutorialProgress.currentStepId p).
  - rewrite (getProgress_fresh _ _ Hp). simpl.
    unfold statusOf, currentOf, completedOf. rewrite Hp. reflexivity.
Qed.

Lemma setCurrentStep_split tutorialId stepId tr :
  setCurrentStep tutorialId stepId tr
  = setCurrentStepTail tutorialId stepId (setCurrentStepHead tutorialId stepId tr).
Proof.
  unfold setCurrentStep, setCurrentStepHead, setCurrentStepTail.
  now destruct (getProgress tutorialId tr).
Qed.

(** The tail of [setCurrentStep], on a tracker that holds the record. *)
Lemma setCurrentStepTail_record tutorialId stepId tr p :
  progressCache tr !! tutorialId = Some p ->
  setCurrentStepTail tutorialId stepId tr
  = saveToStorage
      (mk (context tr)
          (<[tutorialId :=
               TutorialProgress.mk (TutorialProgress.tutorialId p) (Some stepId)
                 (TutorialProgress.completedSteps p) (clock tr (reads tr))]>
             (progressCache tr))
          (clock tr) (S (reads tr))).
Proof.
  intros Hp. unfold setCurrentStepTail. simpl. unfold mutate, set_cache. simpl.
  f_equal. f_equal.
  rewrite (alter_present _ _ _ _ Hp).
  rewrite (alter_present _ _ _ (setCurrentStepId stepId p)) by apply lookup_insert_eq.
  now rewrite insert_insert_eq.
Qed.

(** The head of [setCurrentStep]: afterwards the record exists and lists
    the previous step when it had to be completed. *)
Lemma setCurrentStepHead_record tutorialId stepId tr :
  exists p2,
    progressCache (setCurrentStepHead tutorialId stepId tr) !! tutorialId = Some p2
    /\ TutorialProgress.completedSteps p2
       = (completedOf tutorialId tr ++ previousToComplete tutorialId stepId tr)%list
    /\ TutorialProgress.tutorialId p2
       = match progressCache tr !! tutorialId with
         | Some q => TutorialProgress.tutorialId q
         | None => tutorialId
         end
    /\ (forall other, other <> tutorialId ->
          progressCache (setCurrentStepHead tutorialId stepId tr) !! other
          = progressCache tr !! other)
    /\ writes (setCurrentStepHead tutorialId stepId tr)
       = match context tr with
         | Some _ => (writes tr + length (previousToComplete tutorialId stepId tr))%nat
         | None => writes tr
         end
    /\ (context (setCurrentStepHead tutorialId stepId tr) = None <-> context tr = None).
Proof.
  unfold setCurrentStepHead, previousToComplete, currentOf, completedOf.
  destruct (progressCache tr !! tutorialId) as [p|] eqn:Hp.
  - rewrite (getProgress_cached _ _ _ Hp). simpl.
    assert (Hsame : exists p2,
              progressCache tr !! tutorialId = Some p2
              /\ TutorialProgress.completedSteps p2
                 = (TutorialProgress.completedSteps p ++ [])%list
              /\ TutorialProgress.tutorialId p2 = TutorialProgress.tutorialId p
              /\ (forall other, other <> tutorialId ->
                    progressCache tr !! other = progressCache tr !! other)
              /\ writes tr = match context tr with
                             | Some _ => (writes tr + 0)%nat
                             | None => writes tr
                             end
              /\ (context tr = None <-> context tr = None)).
    { exists p. split_and!; try reflexivity; try tauto.
      - now rewrite app_nil_r.
      - destruct (context tr); lia. }
    destruct (TutorialProgress.currentStepId p) as [previous|] eqn:Hcur;
      [|exact Hsame].
    destruct (JS.truthy previous && negb (String.eqb previous stepId)) eqn:Hcond;
      [|exact Hsame].
    destruct (includes (TutorialProgress.completedSteps p) previous) eqn:Hinc; simpl.
    + apply includes_In in Hinc.
      rewrite (markStepCompleted_present _ _ _ _ Hp Hinc). exact Hsame.
    + apply includes_not_In in Hinc.
      rewrite (markStepCompleted_new _ _ _ _ Hp Hinc).
      eexists. rewrite cache_saveToStorage. simpl. split_and!.
      * apply lookup_insert_eq.
      * reflexivity.
      * reflexivity.
      * intros other Hne. now rewrite lookup_insert_ne.
      * rewrite writes_saveToStorage. simpl. unfold writes. simpl.
        destruct (context tr); simpl; lia.
      * unfold saveToStorage. simpl. destruct (context tr); simpl; split; congruence.
  - rewrite (getProgress_fresh _ _ Hp). simpl.
    exists (TutorialProgress.mk tutorialId None [] (clock tr (reads tr))).
    split_and!.
    + apply lookup_insert_eq.
    + reflexivity.
    + reflexivity.
    + intros other Hne. now rewrite lookup_insert_ne.
    + unfold writes. simpl. destruct (context tr); simpl; lia.
    + reflexivity.
Qed.

Lemma stored_saveToStorage tr ctx' :
  context (saveToStorage tr) = Some ctx' ->
  Memento.get STORAGE_KEY ctx' = Some (progressCache (saveToStorage tr)).
Proof.
  unfold saveToStorage. destruct (context tr) as [c|] eqn:Ec; simpl.
  - intros [= <-]. unfold Memento.get, Memento.update. simpl. apply lookup_insert_eq.
  - rewrite Ec. discriminate.
Qed.

Lemma context_saveToStorage_None tr :
  context (saveToStorage tr) = None <-> context tr = None.
Proof.
  unfold saveToStorage. destruct (context tr) eqn:Ec; simpl; [|now rewrite Ec].
  split; discriminate.
Qed.

(** A fresh tracker bound to the store a save left behind holds the
    saved cache. *)
Lemma initialize_saved tr ctx' tr0 :
  context (saveToStorage tr) = Some ctx' ->
  progressCache (initialize ctx' tr0) = progressCache (saveToStorage tr).
Proof.
  intros Hc. unfold initialize, loadFromStorage. simpl.
  now rewrite (stored_saveToStorage _ _ Hc).
Qed.

Lemma currentOf_setCurrentStep tutorialId stepId tr :
  currentOf tutorialId (setCurrentStep tutorialId stepId tr) = Some stepId.
Proof.
  rewrite setCurrentStep_split.
  destruct (setCurrentStepHead_record tutorialId stepId tr) as (p2 & Hp2 & _).
  rewrite (setCurrentStepTail_record _ _ _ _ Hp2).
  unfold currentOf. rewrite cache_saveToStorage. simpl.
  now rewrite lookup_insert_eq.
Qed.

Lemma completedOf_setCurrentStep tutorialId stepId tr :
  completedOf tutorialId (setCurrentStep tutorialId stepId tr)
  = (completedOf tutorialId tr ++ previousToComplete tutorialId stepId tr)%list.
Proof.
  rewrite setCurrentStep_split.
  destruct (setCurrentStepHead_record tutorialId stepId tr) as (p2 & Hp2 & Hc & _).
  rewrite (setCurrentStepTail_record _ _ _ _ Hp2).
  unfold completedOf at 1. rewrite cache_saveToStorage. simpl.
  now rewrite lookup_insert_eq.
Qed.

Lemma others_setCurrentStep tutorialId stepId tr other :
  other <> tutorialId ->
  progressCache (setCurrentStep tutorialId stepId tr) !! other
  = progressCache tr !! other.
Proof.
  intros Hne. rewrite setCurrentStep_split.
  destruct (setCurrentStepHead_record tutorialId stepId tr)
    as (p2 & Hp2 & _ & _ & Hothers & _).
  rewrite (setCurrentStepTail_record _ _ _ _ Hp2).
  rewrite cache_saveToStorage. simpl.
  rewrite lookup_insert_ne by congruence. now apply Hothers.
Qed.

(** What [markStepCompleted] does to the two fields the status reads. *)
Lemma markStepCompleted_fields tutorialId stepId tr :
  currentOf tutorialId (markStepCompleted tutorialId stepId tr)
  = currentOf tutorialId tr
  /\ completedOf tutorialId (markStepCompleted tutorialId stepId tr)
     = (completedOf tutorialId tr
        ++ if includes (completedOf tutorialId tr) stepId then [] else [stepId])%list.
Proof.
  unfold currentOf, completedOf.
  destruct (progressCache tr !! tutorialId) as [p|] eqn:Hp.
  - destruct (includes (TutorialProgress.completedSteps p) stepId) eqn:Hinc.
    + apply includes_In in Hinc.
      rewrite (markStepCompleted_present _ _ _ _ Hp Hinc), Hp. simpl.
      now rewrite app_nil_r.
    + apply includes_not_In in Hinc.
      rewrite (markStepCompleted_new _ _ _ _ Hp Hinc), cache_saveToStorage. simpl.
      now rewrite lookup_insert_eq.
  - rewrite (markStepCompleted_fresh _ _ _ Hp), cache_saveToStorage. simpl.
    now rewrite lookup_insert_eq.
Qed.

Lemma includes_app l1 l2 x : includes (l1 ++ l2) x = includes l1 x || includes l2 x.
Proof. unfold includes. apply existsb_app. Qed.

(** *** Well-formed records *)

Lemma wellFormed_insert tr tr' k p :
  recordsWellFormed tr ->
  progressCache tr' = <[k := p]> (progressCache tr) ->
  TutorialProgress.tutorialId p = k ->
  NoDup (TutorialProgress.completedSteps p) ->
  recordsWellFormed tr'.
Proof.
  intros Hwf Hc Hid Hnd t q. rewrite Hc.
  destruct (decide (k = t)) as [->|Hne].
  - rewrite lookup_insert_eq. intros [= <-]. now split.
  - rewrite lookup_insert_ne by assumption. apply Hwf.
Qed.

Lemma wellFormed_getProgress tutorialId tr :
  recordsWellFormed tr -> recordsWellFormed (snd (getProgress tutorialId tr)).
Proof.
  intros Hwf. destruct (progressCache tr !! tutorialId) as [p|] eqn:Hp.
  - now rewrite (getProgress_cached _ _ _ Hp).
  - rewrite (getProgress_fresh _ _ Hp). simpl.
    eapply wellFormed_insert; [exact Hwf | reflexivity | reflexivity |].
    simpl. apply NoDup_nil_2.
Qed.

Lemma NoDup_snoc (l : list string) (x : string) :
  NoDup l -> ~ In x l -> NoDup (l ++ [x]).
Proof.
  intros Hnd Hnin. apply NoDup_app. split_and!.
  - assumption.
  - intros y Hy Hx. apply list_elem_of_singleton in Hx as ->.
    now apply list_elem_of_In in Hy.
  - apply NoDup_singleton.
Qed.

Lemma wellFormed_markStepCompleted tutorialId stepId tr :
  recordsWellFormed tr -> recordsWellFormed (markStepCompleted tutorialId stepId tr).
Proof.
  intros Hwf. destruct (progressCache tr !! tutorialId) as [p|] eqn:Hp.
  - destruct (Hwf _ _ Hp) as [Hid Hnd].
    destruct (includes (TutorialProgress.completedSteps p) stepId) eqn:Hinc.
    + apply includes_In in Hinc.
      now rewrite (markStepCompleted_present _ _ _ _ Hp Hinc).
    + apply includes_not_In in Hinc.
      rewrite (markStepCompleted_new _ _ _ _ Hp Hinc).
      eapply wellFormed_insert; [exact Hwf | rewrite cache_saveToStorage; reflexivity | exact Hid |].
      simpl. now apply NoDup_snoc.
  - rewrite (markStepCompleted_fresh _ _ _ Hp).
    eapply wellFormed_insert; [exact Hwf | rewrite cache_saveToStorage; reflexivity | reflexivity |].
    simpl. apply NoDup_singleton.
Qed.

Lemma wellFormed_setCurrentStepHead tutorialId stepId tr :
  recordsWellFormed tr -> recordsWellFormed (setCurrentStepHead tutorialId stepId tr).
Proof.
  intros Hwf. unfold setCurrentStepHead.
  pose proof (wellFormed_getProgress tutorialId tr Hwf) as Hwf1.
  destruct (getProgress tutorialId tr) as [progress tr1]. simpl in Hwf1.
  destruct (TutorialProgress.currentStepId progress) as [previous|]; [|assumption].
  destruct (JS.truthy previous && negb (String.eqb previous stepId)); [|assumption].
  now apply wellFormed_markStepCompleted.
Qed.

Lemma wellFormed_setCurrentStep tutorialId stepId tr :
  recordsWellFormed tr -> recordsWellFormed (setCurrentStep tutorialId stepId tr).
Proof.
  intros Hwf. rewrite setCurrentStep_split.
  pose proof (wellFormed_setCurrentStepHead tutorialId stepId tr Hwf) as Hwf2.
  destruct (setCurrentStepHead_record tutorialId stepId tr) as (p2 & Hp2 & _).
  rewrite (setCurrentStepTail_record _ _ _ _ Hp2).
  destruct (Hwf2 _ _ Hp2) as [Hid Hnd].
  eapply wellFormed_insert; [exact Hwf2 | rewrite cache_saveToStorage; reflexivity | exact Hid |].
  exact Hnd.
Qed.

Lemma wellFormed_resetProgress tutorialId tr :
  recordsWellFormed tr -> recordsWellFormed (resetProgress tutorialId tr).
Proof.
  intros Hwf. unfold resetProgress. simpl.
  eapply wellFormed_insert; [exact Hwf | rewrite cache_saveToStorage; reflexivity | reflexivity |].
  simpl. apply NoDup_nil_2.
Qed.

Lemma wellFormed_deleteProgress tutorialId tr :
  recordsWellFormed tr -> recordsWellFormed (deleteProgress tutorialId tr).
Proof.
  intros Hwf t q. unfold deleteProgress. rewrite cache_saveToStorage. simpl.
  intros Hq. apply lookup_delete_Some in Hq as [_ Hq]. now apply Hwf.
Qed.

Lemma wellFormed_runCall tr c :
  recordsWellFormed tr -> recordsWellFormed (runCall tr c).
Proof.
  intros Hwf. destruct c; simpl.
  - now apply wellFormed_getProgress.
  - now apply wellFormed_markStepCompleted.
  - now apply wellFormed_setCurrentStep.
  - now apply wellFormed_resetProgress.
  - rewrite getStepStatus_statusOf. simpl. now apply wellFormed_getProgress.
  - now apply wellFormed_deleteProgress.
Qed.

(** *** Calls that save *)

Lemma savingCall_saves tr c :
  savingCall tr c = true -> exists tr', runCall tr c = saveToStorage tr'.
Proof.
  destruct c as [t|t s|t s|t|t s|t]; simpl; try discriminate; intros Hs.
  - unfold completedOf in Hs.
    destruct (progressCache tr !! t) as [p|] eqn:Hp.
    + apply negb_true_iff, includes_not_In in Hs.
      rewrite (markStepCompleted_new _ _ _ _ Hp Hs). eauto.
    + rewrite (markStepCompleted_fresh _ _ _ Hp). eauto.
  - rewrite setCurrentStep_split.
    destruct (setCurrentStepHead_record t s tr) as (p2 & Hp2 & _).
    rewrite (setCurrentStepTail_record _ _ _ _ Hp2). eauto.
  - unfold resetProgress. simpl. eauto.
  - unfold deleteProgress. eauto.
Qed.

(** *** The batch of statuses *)

Lemma statusOf_getProgress tutorialId stepId tr :
  statusOf tutorialId stepId (snd (getProgress tutorialId tr))
  = statusOf tutorialId stepId tr.
Proof.
  destruct (progressCache tr !! tutorialId) as [p|] eqn:Hp.
  - now rewrite (getProgress_cached _ _ _ Hp).
  - rewrite (getProgress_fresh _ _ Hp). simpl.
    unfold statusOf, currentOf, completedOf. simpl.
    now rewrite lookup_insert_eq, Hp.
Qed.

Lemma getProgress_again tutorialId tr :
  snd (getProgress tutorialId (snd (getProgress tutorialId tr)))
  = snd (getProgress tutorialId tr).
Proof.
  now rewrite (getProgress_cached _ _ _ (getProgress_registered tutorialId tr)).
Qed.

Lemma set_same_value {V} (k : string) (v : V) (m : JSMap.t V) :
  JSMap.get k m = Some v -> JSMap.set k v m = m.
Proof.
  induction m as [|[k0 v0] m IH]; simpl; [discriminate|].
  destruct (String.eqb k k0) eqn:E.
  - apply String.eqb_eq in E. now intros [= ->]; subst.
  - intros H. now rewrite IH.
Qed.

Lemma get_map_entry {V} (f : string -> V) (l : list string) (k : string) :
  In k l -> JSMap.get k (map (fun i => (i, f i)) l) = Some (f k).
Proof.
  induction l as [|x l IH]; simpl; [tauto|].
  destruct (String.eqb k x) eqn:E.
  - apply String.eqb_eq in E. now subst.
  - apply String.eqb_neq in E. intros [->|Hin]; [congruence | now apply IH].
Qed.

Lemma getStepsStatus_fold tutorialId steps tr :
  getStepsStatus tutorialId steps tr
  = (map (statusEntry tutorialId tr) (firstOccurrences (map StepNode.id steps)),
     match steps with [] => tr | _ :: _ => snd (getProgress tutorialId tr) end).
Proof.
  unfold getStepsStatus.
  induction steps as [|step steps IH] using rev_ind; [reflexivity|].
  rewrite fold_left_app, IH. simpl.
  rewrite getStepStatus_statusOf, (map_app StepNode.id). cbn [map].
  rewrite firstOccurrences_snoc. simpl.
  assert (Hst : statusOf tutorialId (StepNode.id step)
                  match steps with [] => tr | _ :: _ => snd (getProgress tutorialId tr) end
                = statusOf tutorialId (StepNode.id step) tr).
  { destruct steps; [reflexivity | apply statusOf_getProgress]. }
  assert (Htr : snd (getProgress tutorialId
                  match steps with [] => tr | _ :: _ => snd (getProgress tutorialId tr) end)
                = snd (getProgress tutorialId tr)).
  { destruct steps; [reflexivity | apply getProgress_again]. }
  rewrite Hst, Htr. f_equal.
  - case_bool_decide as Hin.
    + apply set_same_value. unfold statusEntry.
      apply (get_map_entry (fun i => statusOf tutorialId i tr)).
      apply firstOccurrences_In. now apply list_elem_of_In.
    + rewrite set_absent, map_app; [reflexivity|].
      unfold JSMap.keys. rewrite map_map. simpl. rewrite map_id.
      rewrite firstOccurrences_In. now rewrite <- list_elem_of_In.
  - now destruct steps.
Qed.
End ProgressMore.


(** X1. [setCurrentStep] makes the step current and appends the previous
    current step to the completed steps exactly when that step is a
    non-empty id, differs from the new one and is not completed yet; it
    sets [lastAccessTime] to the last reading of the clock, leaves the
    other records alone, and (with a store bound) saves the cache once,
    plus once more when it completed the previous step. *)
Theorem setCurrentStep_effect (tutorialId stepId : string) (tr : ProgressTracker.t) :
  currentOf tutorialId (ProgressTracker.setCurrentStep tutorialId stepId tr)
  = Some stepId
  /\ completedOf tutorialId (ProgressTracker.setCurrentStep tutorialId stepId tr)
     = (completedOf tutorialId tr ++ previousToComplete tutorialId stepId tr)%list
  /\ lastAccessOf tutorialId (ProgressTracker.setCurrentStep tutorialId stepId tr)
     = Some (lastReading (ProgressTracker.setCurrentStep tutorialId stepId tr))
  /\ (forall other, other <> tutorialId ->
        ProgressTracker.progressCache
          (ProgressTracker.setCurrentStep tutorialId stepId tr) !! other
        = ProgressTracker.progressCache tr !! other)
  /\ writes (ProgressTracker.setCurrentStep tutorialId stepId tr)
     = match ProgressTracker.context tr with
       | Some _ => S (writes tr + length (previousToComplete tutorialId stepId tr))
       | None => writes tr
       end.
Proof.
  rewrite setCurrentStep_split.
  destruct (setCurrentStepHead_record tutorialId stepId tr)
    as (p2 & Hp2 & Hcompleted & _ & Hothers & Hwrites & Hctx).
  rewrite (setCurrentStepTail_record _ _ _ _ Hp2).
  split_and!.
  - unfold currentOf. rewrite cache_saveToStorage. simpl.
    now rewrite lookup_insert_eq.
  - unfold completedOf at 1. rewrite cache_saveToStorage. simpl.
    now rewrite lookup_insert_eq.
  - unfold lastAccessOf, lastReading.
    rewrite cache_saveToStorage, reads_saveToStorage, clock_saveToStorage. simpl.
    now rewrite lookup_insert_eq.
  - intros other Hne. rewrite cache_saveToStorage. simpl.
    rewrite lookup_insert_ne by congruence. now apply Hothers.
  - rewrite writes_saveToStorage. simpl. unfold writes at 1 2. simpl.
    fold (writes (setCurrentStepHead tutorialId stepId tr)). rewrite Hwrites.
    destruct (ProgressTracker.context (setCurrentStepHead tutorialId stepId tr)) eqn:E1,
             (ProgressTracker.context tr) eqn:E2; try reflexivity.
    + destruct Hctx as [_ H]. discriminate (H eq_refl).
    + destruct Hctx as [H _]. discriminate (H eq_refl).
Qed.


(** X2. Moving on completes the step left behind: after [setCurrentStep]
    on a non-empty id [a] and then on another id [b], the status of [a]
    is [completed] and the status of [b] is [current]. *)
Theorem setCurrentStep_advances (tutorialId a b : string) (tr : ProgressTracker.t) :
  JS.truthy a = true ->
  a <> b ->
  let tr' := ProgressTracker.setCurrentStep tutorialId b
               (ProgressTracker.setCurrentStep tutorialId a tr) in
  fst (ProgressTracker.getStepStatus tutorialId a tr') = completed
  /\ fst (ProgressTracker.getStepStatus tutorialId b tr') = current.
Proof.
  intros Ha Hne tr'. subst tr'.
  rewrite !getStepStatus_statusOf. simpl. unfold statusOf.
  rewrite !currentOf_setCurrentStep, completedOf_setCurrentStep. split.
  - rewrite bool_decide_eq_false_2 by congruence.
    rewrite includes_app. unfold previousToComplete.
    rewrite currentOf_setCurrentStep, Ha.
    apply String.eqb_neq in Hne. rewrite Hne. simpl.
    destruct (ProgressTracker.includes
                (completedOf tutorialId (ProgressTracker.setCurrentStep tutorialId a tr)) a)
      eqn:Hinc; simpl; [reflexivity|].
    unfold ProgressTracker.includes. simpl. now rewrite String.eqb_refl.
  - now rewrite bool_decide_eq_true_2.
Qed.

Lemma setCurrentStep_advances_witness :
  fst (ProgressTracker.getStepStatus "T" "s1"
         (ProgressTracker.setCurrentStep "T" "s2"
            (ProgressTracker.setCurrentStep "T" "s1" (newTracker (fun _ => 0%Z)))))
  = completed.
Proof.
  apply (setCurrentStep_advances "T" "s1" "s2" (newTracker (fun _ => 0%Z))).
  - reflexivity.
  - discriminate.
Defined.

(** X3. Whatever sequence of calls is made, every record stays filed
    under its own tutorial id and its completed steps never list a step
    twice. *)
Theorem tracker_records_well_formed (calls : list TrackerCall) (tr : ProgressTracker.t) :
  recordsWellFormed tr -> recordsWellFormed (runCalls calls tr).
Proof.
  unfold runCalls. revert tr.
  induction calls as [|c calls IH]; intros tr Hwf; simpl; [assumption|].
  apply IH. now apply wellFormed_runCall.
Qed.

Lemma tracker_records_well_formed_witness :
  recordsWellFormed
    (runCalls [CallSetCurrentStep "T" "s1"; CallMarkStepCompleted "T" "s1";
               CallSetCurrentStep "T" "s2"; CallMarkStepCompleted "T" "s1"]
              (newTracker (fun _ => 0%Z))).
Proof.
  apply tracker_records_well_formed.
  intros tutorialId p Hp. vm_compute in Hp. discriminate.
Defined.

(** X4. What a saving call leaves in the store is the whole cache: a
    tracker initialised from that store afterwards holds exactly the
    records of the tracker that saved.  The saving calls are
    [setCurrentStep], [resetProgress], [deleteProgress], and
    [markStepCompleted] of a step that is not recorded yet.  The save
    copies the records into a plain object, so no record may be filed
    under the key [__proto__], which is not an own property there. *)
Theorem saved_progress_reloads (c : TrackerCall) (tr tr0 : ProgressTracker.t)
        (ctx' : Memento.t) :
  savingCall tr c = true ->
  ProgressTracker.progressCache (runCall tr c) !! "__proto__" = None ->
  ProgressTracker.context (runCall tr c) = Some ctx' ->
  ProgressTracker.progressCache (ProgressTracker.initialize ctx' tr0)
  = ProgressTracker.progressCache (runCall tr c).
Proof.
  intros Hs _ Hc. destruct (savingCall_saves _ _ Hs) as [tr' E].
  rewrite E in *. now apply initialize_saved.
Qed.

Lemma saved_progress_reloads_witness :
  ProgressTracker.progressCache
    (ProgressTracker.initialize
       (Memento.mk {[ ProgressTracker.STORAGE_KEY :=
                        {[ "T" := TutorialProgress.mk "T" (Some "s3") ["s1"; "s2"] 9 ]} ]} 2)
       (newTracker (fun _ => 0%Z)))
  = ProgressTracker.progressCache (runCall exampleTracker (CallSetCurrentStep "T" "s3")).
Proof.
  apply (saved_progress_reloads (CallSetCurrentStep "T" "s3") exampleTracker).
  - reflexivity.
  - vm_compute. reflexivity.
  - vm_compute. reflexivity.
Defined.

(** X5. [resetProgress] and [deleteProgress] both forget the tutorial:
    afterwards every step of it reads [pending]; the records of the other
    tutorials are untouched.  After a reset an empty record is left, with
    the reading of the clock as access time; after a delete there is no
    record. *)
Theorem reset_and_delete_forget (tutorialId : string) (tr : ProgressTracker.t) :
  (forall stepId,
      fst (ProgressTracker.getStepStatus tutorialId stepId
             (ProgressTracker.resetProgress tutorialId tr)) = pending
      /\ fst (ProgressTracker.getStepStatus tutorialId stepId
                (ProgressTracker.deleteProgress tutorialId tr)) = pending)
  /\ (forall other, other <> tutorialId ->
        ProgressTracker.progressCache (ProgressTracker.resetProgress tutorialId tr) !! other
        = ProgressTracker.progressCache tr !! other
        /\ ProgressTracker.progressCache (ProgressTracker.deleteProgress tutorialId tr) !! other
           = ProgressTracker.progressCache tr !! other)
  /\ ProgressTracker.progressCache (ProgressTracker.resetProgress tutorialId tr) !! tutorialId
     = Some (TutorialProgress.mk tutorialId None []
               (lastReading (ProgressTracker.resetProgress tutorialId tr)))
  /\ ProgressTracker.progressCache (ProgressTracker.deleteProgress tutorialId tr) !! tutorialId
     = None.
Proof.
  assert (Hreset : ProgressTracker.progressCache (ProgressTracker.resetProgress tutorialId tr)
                   = <[tutorialId :=
                         TutorialProgress.mk tutorialId None []
                           (ProgressTracker.clock tr (ProgressTracker.reads tr))]>
                       (ProgressTracker.progressCache tr)).
  { unfold ProgressTracker.resetProgress. simpl. now rewrite cache_saveToStorage. }
  assert (Hdelete : ProgressTracker.progressCache (ProgressTracker.deleteProgress tutorialId tr)
                    = delete tutorialId (ProgressTracker.progressCache tr)).
  { unfold ProgressTracker.deleteProgress. now rewrite cache_saveToStorage. }
  split_and!.
  - intros stepId. rewrite !getStepStatus_statusOf. simpl.
    unfold statusOf, currentOf, completedOf. rewrite Hreset, Hdelete.
    now rewrite lookup_insert_eq, lookup_delete_eq.
  - intros other Hne. rewrite Hreset, Hdelete.
    now rewrite lookup_insert_ne, lookup_delete_ne by congruence.
  - rewrite Hreset, lookup_insert_eq. unfold lastReading, ProgressTracker.resetProgress.
    simpl. now rewrite reads_saveToStorage, clock_saveToStorage.
  - now rewrite Hdelete, lookup_delete_eq.
Qed.

(** X6. [getStepsStatus] returns one entry per distinct step id, in the
    order of first occurrence, each holding the status the record gives
    the step; it saves nothing, and its only effect is to register an
    empty record when the tutorial has none and the list is not empty. *)
Theorem getStepsStatus_entries (tutorialId : string) (steps : list StepNode.t)
        (tr : ProgressTracker.t) :
  fst (ProgressTracker.getStepsStatus tutorialId steps tr)
  = map (statusEntry tutorialId tr) (firstOccurrences (map StepNode.id steps))
  /\ snd (ProgressTracker.getStepsStatus tutorialId steps tr)
     = match steps with
       | [] => tr
       | _ :: _ => snd (ProgressTracker.getProgress tutorialId tr)
       end
  /\ ProgressTracker.context (snd (ProgressTracker.getStepsStatus tutorialId steps tr))
     = ProgressTracker.context tr.
Proof.
  rewrite getStepsStatus_fold. simpl. split_and!; try reflexivity.
  destruct steps as [|step steps]; [reflexivity|].
  unfold ProgressTracker.getProgress.
  now destruct (ProgressTracker.progressCache tr !! tutorialId).
Qed.

(** X7. [markStepCompleted] never changes which step is current: a step
    that is current keeps the status [current] even when it is the one
    marked; otherwise the marked step reads [completed], and every other
    step keeps its status. *)
Theorem markStepCompleted_status (tutorialId stepId x : string) (tr : ProgressTracker.t) :
  statusOf tutorialId x (ProgressTracker.markStepCompleted tutorialId stepId tr)
  = if bool_decide (currentOf tutorialId tr = Some x) then current
    else if String.eqb x stepId then completed
    else statusOf tutorialId x tr.
Proof.
  destruct (markStepCompleted_fields tutorialId stepId tr) as [Hcur Hcomp].
  unfold statusOf. rewrite Hcur, Hcomp, includes_app.
  case_bool_decide; [reflexivity|].
  destruct (String.eqb x stepId) eqn:E.
  - apply String.eqb_eq in E. subst x.
    destruct (ProgressTracker.includes (completedOf tutorialId tr) stepId) eqn:Hinc;
      simpl; [reflexivity|].
    unfold ProgressTracker.includes. simpl. now rewrite String.eqb_refl.
  - destruct (ProgressTracker.includes (completedOf tutorialId tr) stepId);
      simpl; [now rewrite orb_false_r|].
    unfold ProgressTracker.includes at 2. simpl. rewrite E. simpl.
    now rewrite orb_false_r.
Qed.

(** ** GitService: binding, queries and the two header patterns *)

Section GitMore.
Context {W : Type} (H : Host W).

Lemma getGit_unbound (s : State W) :
  git s = None -> GitService.getGit s = (Throw notInitialized, s).
Proof. unfold GitService.getGit, Eff.bind, Eff.get. now intros ->. Qed.

Lemma getGit_bound (s : State W) baseDir :
  git s = Some baseDir -> GitService.getGit s = (Ok baseDir, s).
Proof. unfold GitService.getGit, Eff.bind, Eff.get. now intros ->. Qed.

Lemma bind_getGit_unbound {A} (k : string -> Eff.M W A) (s : State W) :
  git s = None -> Eff.bind GitService.getGit k s = (Throw notInitialized, s).
Proof. intros Hg. unfold Eff.bind. now rewrite (getGit_unbound s Hg). Qed.

Lemma bind_getGit_bound {A} (k : string -> Eff.M W A) (s : State W) baseDir :
  git s = Some baseDir -> Eff.bind GitService.getGit k s = k baseDir s.
Proof. intros Hg. unfold Eff.bind. now rewrite (getGit_bound s _ Hg). Qed.

Lemma query_state {A} (q : W -> Result A) (s : State W) :
  snd (Eff.query q s) = s.
Proof. reflexivity. Qed.
End GitMore.

(** *** Computations that only read *)

Section ReadOnly.
Context {W : Type} (H : Host W).

Lemma readOnly_ret {A} (a : A) : readOnly (Eff.ret (W := W) a).
Proof. now intros s. Qed.

Lemma readOnly_throw {A} e : readOnly (Eff.throw (W := W) (A := A) e).
Proof. now intros s. Qed.

Lemma readOnly_get : readOnly (Eff.get (W := W)).
Proof. now intros s. Qed.

Lemma readOnly_query {A} (q : W -> Result A) : readOnly (Eff.query q).
Proof. now intros s. Qed.

Lemma readOnly_bind {A B} (c : Eff.M W A) (k : A -> Eff.M W B) :
  readOnly c -> (forall a, readOnly (k a)) -> readOnly (Eff.bind c k).
Proof.
  intros Hc Hk s. unfold Eff.bind. specialize (Hc s).
  destruct (c s) as [[a|e] s1]; simpl in *; subst; [apply Hk | reflexivity].
Qed.

Lemma getGit_readOnly : readOnly (GitService.getGit (W := W)).
Proof.
  unfold GitService.getGit. apply readOnly_bind; [apply readOnly_get|].
  intros s. destruct (git s); [apply readOnly_ret | apply readOnly_throw].
Qed.

Lemma refExists_readOnly ref : readOnly (GitService.refExists H ref).
Proof.
  unfold GitService.refExists. apply readOnly_bind; [apply getGit_readOnly|].
  intros b. apply readOnly_query.
Qed.

Lemma hasUncommittedChanges_readOnly : readOnly (GitService.hasUncommittedChanges H).
Proof.
  unfold GitService.hasUncommittedChanges.
  apply readOnly_bind; [apply getGit_readOnly|]. intros b.
  apply readOnly_bind; [apply readOnly_query|]. intros c. apply readOnly_ret.
Qed.

Lemma findConfigFile_readOnly p : readOnly (TutorialManager.findConfigFile H p).
Proof. apply readOnly_query. Qed.

Lemma parse_readOnly p : readOnly (ConfigParser.parse H p).
Proof.
  unfold ConfigParser.parse.
  apply readOnly_bind; [apply readOnly_query|]. intros content.
  apply readOnly_bind.
  { destruct (_ || _); [apply readOnly_query|].
    destruct (String.eqb _ _); [apply readOnly_query | apply readOnly_throw]. }
  intros raw. apply readOnly_bind; [apply readOnly_query|]. intros r.
  destruct (negb _); [apply readOnly_throw|].
  destruct (ConfigParser.asTutorialConfig raw);
    [apply readOnly_ret | apply readOnly_throw].
Qed.

Lemma collectInvalidRefs_readOnly steps : forall acc,
  readOnly (TutorialManager.collectInvalidRefs H steps acc).
Proof.
  induction steps as [|step steps IH]; intros acc; simpl.
  - apply readOnly_ret.
  - apply readOnly_bind; [apply refExists_readOnly|]. intros b. apply IH.
Qed.

Lemma validateGitRefs_readOnly config :
  readOnly (TutorialManager.validateGitRefs H config).
Proof.
  unfold TutorialManager.validateGitRefs.
  apply readOnly_bind; [apply collectInvalidRefs_readOnly|]. intros l.
  destruct (_ <? _)%nat; [apply readOnly_throw | apply readOnly_ret].
Qed.
End ReadOnly.

Section Digits.
Import Regex.

Lemma pretty_N_char_digit (y : N) :
  (y < 10)%N ->
  isDigit (pretty_N_char y) = true
  /\ (N.of_nat (nat_of_ascii (pretty_N_char y)) - 48)%N = y.
Proof.
  intros Hy.
  assert (y = 0 \/ y = 1 \/ y = 2 \/ y = 3 \/ y = 4 \/ y = 5 \/ y = 6
          \/ y = 7 \/ y = 8 \/ y = 9)%N as Hc by lia.
  repeat (destruct Hc as [->|Hc]; [now vm_compute|]). subst. now vm_compute.
Qed.

Lemma spanDigits_String c s :
  spanDigits (String c s)
  = if isDigit c then (String c (fst (spanDigits s)), snd (spanDigits s))
    else ("", String c s).
Proof. simpl. destruct (isDigit c); [|reflexivity]. now destruct (spanDigits s). Qed.

(** A run of digits followed by something that does not start with a
    digit is split exactly there. *)
Lemma spanDigits_app d r :
  spanDigits d = (d, "") -> spanDigits r = ("", r) ->
  spanDigits (d ++ r) = (d, r).
Proof.
  intros Hd Hr. induction d as [|c d IH]; [exact Hr|].
  change (String c d ++ r) with (String c (d ++ r)).
  rewrite spanDigits_String in *.
  destruct (isDigit c); [|discriminate].
  injection Hd as Hd1 Hd2.
  rewrite IH; [reflexivity|].
  destruct (spanDigits d) as [d' r']. simpl in *. now subst.
Qed.

Lemma pretty_N_go_digits (x : N) (s : string) :
  spanDigits s = (s, "") -> spanDigits (pretty_N_go x s) = (pretty_N_go x s, "").
Proof.
  revert s. induction (N.lt_wf_0 x) as [x _ IH]. intros s Hs.
  assert (x = 0 \/ 0 < x)%N as [->|Hpos] by lia.
  - now rewrite pretty_N_go_0.
  - rewrite pretty_N_go_step by assumption. apply IH.
    + now apply N.div_lt.
    + rewrite spanDigits_String, Hs. simpl.
      destruct (pretty_N_char_digit (x `mod` 10)%N) as [-> _]; [|reflexivity].
      now apply N.mod_lt.
Qed.

Lemma pretty_digits (n : N) : spanDigits (pretty n) = (pretty n, "").
Proof.
  unfold pretty, pretty_N. case_decide; [reflexivity|].
  now apply pretty_N_go_digits.
Qed.

Lemma digitsValue_String acc c s :
  digitsValue acc (String c s)
  = digitsValue (10 * acc + (N.of_nat (nat_of_ascii c) - 48))%N s.
Proof. reflexivity. Qed.

Lemma digitsValue_acc s acc :
  digitsValue acc s
  = (acc * 10 ^ N.of_nat (String.length s) + digitsValue 0 s)%N.
Proof.
  revert acc. induction s as [|c s IH]; intros acc.
  - unfold digitsValue. simpl. lia.
  - rewrite !digitsValue_String, IH.
    rewrite (IH (10 * 0 + (N.of_nat (nat_of_ascii c) - 48))%N).
    change (String.length (String c s)) with (S (String.length s)).
    rewrite Nat2N.inj_succ, N.pow_succ_r'. lia.
Qed.

Lemma digitsValue_pretty_N_go (x : N) (s : string) :
  digitsValue 0 (pretty_N_go x s)
  = (x * 10 ^ N.of_nat (String.length s) + digitsValue 0 s)%N.
Proof.
  revert s. induction (N.lt_wf_0 x) as [x _ IH]. intros s.
  assert (x = 0 \/ 0 < x)%N as [->|Hpos] by lia.
  - rewrite pretty_N_go_0. lia.
  - rewrite pretty_N_go_step by assumption.
    rewrite IH by now apply N.div_lt.
    rewrite digitsValue_String, digitsValue_acc.
    destruct (pretty_N_char_digit (x `mod` 10)%N) as [_ ->];
      [now apply N.mod_lt|].
    change (String.length (String (pretty_N_char (x `mod` 10)) s))
      with (S (String.length s)).
    rewrite Nat2N.inj_succ, N.pow_succ_r'.
    pose proof (N.div_mod x 10). lia.
Qed.

(** [parseInt] reads back what was printed. *)
Lemma parseInt_pretty (n : N) : parseInt (pretty n) = n.
Proof.
  unfold parseInt, pretty, pretty_N. case_decide as Hn; [now subst|].
  rewrite digitsValue_pretty_N_go. unfold digitsValue. simpl. lia.
Qed.

Lemma pretty_truthy (n : N) : JS.truthy (pretty n) = true.
Proof.
  unfold JS.truthy. apply negb_true_iff, String.eqb_neq. intros E.
  pose proof (parseInt_pretty n) as Hp. rewrite E in Hp.
  assert (n = 0%N) as -> by (rewrite <- Hp; reflexivity).
  discriminate E.
Qed.

Lemma prefix_append (p r : string) : String.prefix p (p ++ r) = true.
Proof.
  induction p as [|c p IH]; simpl; [now destruct r|].
  now destruct (ascii_dec c c).
Qed.

Lemma spanDigits_pretty_then (n : N) (c : ascii) (r : string) :
  isDigit c = false ->
  spanDigits (pretty n ++ String c r) = (pretty n, String c r).
Proof.
  intros Hc. apply spanDigits_app; [apply pretty_digits|].
  rewrite spanDigits_String. now rewrite Hc.
Qed.

(** The groups the hunk-header pattern finds in a header with counts,
    and in one without. *)
Lemma append_String (c : ascii) (s r : string) :
  String c s ++ r = String c (s ++ r).
Proof. reflexivity. Qed.

Lemma append_empty (r : string) : "" ++ r = r.
Proof. reflexivity. Qed.

Lemma prefix_String (a : ascii) (p r : string) :
  String.prefix (String a p) (String a r) = String.prefix p r.
Proof. simpl. now destruct (ascii_dec a a). Qed.

Lemma prefix_empty (r : string) : String.prefix "" r = true.
Proof. now destruct r. Qed.

Lemma hunkMatch_header (a b c d : N) (tail : string) :
  hunkMatch (hunkHeaderLine a b c d tail)
  = Some (pretty a, pretty b, pretty c, pretty d).
Proof.
  unfold hunkMatch, hunkHeaderLine. rewrite ?append_String, ?append_empty.
  rewrite !prefix_String, prefix_empty. cbn [JS.drop].
  rewrite (spanDigits_pretty_then a) by reflexivity. cbv beta iota.
  rewrite pretty_truthy. cbv beta iota.
  change (optComma (String "," ?r)) with r.
  rewrite (spanDigits_pretty_then b) by reflexivity. cbv beta iota.
  rewrite !prefix_String, prefix_empty. cbn [JS.drop]. cbv beta iota.
  rewrite (spanDigits_pretty_then c) by reflexivity. cbv beta iota.
  rewrite pretty_truthy. cbv beta iota.
  change (optComma (String "," ?r)) with r.
  rewrite (spanDigits_pretty_then d) by reflexivity. cbv beta iota.
  now rewrite !prefix_String, prefix_empty.
Qed.

Lemma hunkMatch_short_header (a c : N) (tail : string) :
  hunkMatch (shortHunkHeaderLine a c tail) = Some (pretty a, "", pretty c, "").
Proof.
  unfold hunkMatch, shortHunkHeaderLine. rewrite ?append_String, ?append_empty.
  rewrite !prefix_String, prefix_empty. cbn [JS.drop].
  rewrite (spanDigits_pretty_then a) by reflexivity. cbv beta iota.
  rewrite pretty_truthy. cbv beta iota.
  change (optComma (String " " ?r)) with (String " " r).
  change (spanDigits (String " " ?r)) with ("", String " " r). cbv beta iota.
  rewrite !prefix_String, prefix_empty. cbn [JS.drop]. cbv beta iota.
  rewrite (spanDigits_pretty_then c) by reflexivity. cbv beta iota.
  rewrite pretty_truthy. cbv beta iota.
  change (optComma (String " " ?r)) with (String " " r).
  change (spanDigits (String " " ?r)) with ("", String " " r). cbv beta iota.
  now rewrite !prefix_String, prefix_empty.
Qed.

(** *** The file-header pattern *)

Lemma afterLastSep_separator (p q : string) :
  afterLastSep q = None -> JS.truthy q = true ->
  afterLastSep (p ++ " b/" ++ q) = Some q.
Proof.
  intros Hq Ht. induction p as [|c p IH].
  - change ("" ++ " b/" ++ q) with (String " " (String "b" (String "/" q))).
    cbn [afterLastSep]. rewrite Hq.
    change (String.prefix " b/" (String "/" q)) with false.
    change (String.prefix " b/" (String "b" (String "/" q))) with false.
    cbn [andb].
    rewrite !prefix_String, prefix_empty.
    change (JS.drop 3 (String " " (String "b" (String "/" q)))) with q.
    now rewrite Ht.
  - change (String c p ++ " b/" ++ q) with (String c (p ++ " b/" ++ q)).
    cbn [afterLastSep]. now rewrite IH.
Qed.

Lemma prefix_before_space (a b d : ascii) (s r : string) :
  a <> " "%char -> b <> " "%char -> d <> " "%char ->
  String.prefix (String a (String b (String d ""))) (s ++ String " " r)
  = String.prefix (String a (String b (String d ""))) s.
Proof.
  intros Ha Hb Hd.
  destruct s as [|c1 [|c2 [|c3 s]]]; rewrite ?append_String, ?append_empty;
    cbn [String.prefix];
    repeat (destruct (ascii_dec _ _); subst; try reflexivity; try congruence).
  all: now destruct (s ++ String " " r), s.
Qed.

Lemma noLineTerminator_app_space (p r : string) :
  noLineTerminator p = true -> noLineTerminator (String " " r) = true ->
  noLineTerminator (p ++ String " " r) = true.
Proof.
  intros Hp Hr. induction p as [|c p IH]; [exact Hr|].
  change (String c p ++ String " " r) with (String c (p ++ String " " r)).
  cbn [noLineTerminator] in *.
  change (String c (p ++ String " " r)) with (String c p ++ String " " r).
  rewrite !prefix_before_space by discriminate.
  apply andb_true_iff in Hp as [Hp1 Hp2]. rewrite Hp1. now apply IH.
Qed.
End Digits.

(** X8. On a service that was never bound, every repository operation
    fails with the "not initialized" error before anything is asked of
    git: the whole state, the outside world included, is as before. *)
Theorem unbound_service_throws {W : Type} (H : Host W) (s : State W) :
  git s = None ->
  (forall ref, GitService.checkout H ref s = (Throw notInitialized, s))
  /\ (forall fromRef toRef,
         GitService.getDiff H fromRef toRef s = (Throw notInitialized, s))
  /\ GitService.hasUncommittedChanges H s = (Throw notInitialized, s)
  /\ GitService.stash H s = (Throw notInitialized, s)
  /\ GitService.stashPop H s = (Throw notInitialized, s)
  /\ GitService.getCurrentRef H s = (Throw notInitialized, s)
  /\ (forall ref, GitService.refExists H ref s = (Throw notInitialized, s)).
Proof.
  intros Hg. split_and!; intros;
    first [ apply (bind_getGit_unbound _ s Hg) ].
Qed.

Lemma unbound_service_throws_witness :
  GitService.stash (exampleHost [] "" [] true None (Ok JValue.JNull))
                   (mkState tt None None [] None [] [])
  = (Throw notInitialized, mkState tt None None [] None [] []).
Proof.
  apply (unbound_service_throws
           (exampleHost [] "" [] true None (Ok JValue.JNull))
           (mkState tt None None [] None [] [])).
  reflexivity.
Defined.

(** X9. The queries of the service ([getDiff], [hasUncommittedChanges],
    [getCurrentRef], [refExists], [getRepoPath]) never change the state,
    whether they succeed or fail; and on a bound service [refExists]
    never fails: a ref that does not resolve gives [false]. *)
Theorem queries_leave_state {W : Type} (H : Host W) (s : State W) :
  (forall fromRef toRef, snd (GitService.getDiff H fromRef toRef s) = s)
  /\ snd (GitService.hasUncommittedChanges H s) = s
  /\ snd (GitService.getCurrentRef H s) = s
  /\ snd (GitService.getRepoPath s) = s
  /\ (forall ref, snd (GitService.refExists H ref s) = s)
  /\ (forall ref baseDir,
         git s = Some baseDir ->
         GitService.refExists H ref s = (Ok (resolves H baseDir (world s) ref), s)).
Proof.
  split_and!.
  - intros fromRef toRef. unfold GitService.getDiff.
    destruct (git s) as [baseDir|] eqn:Hg.
    + rewrite (bind_getGit_bound _ _ _ Hg). unfold Eff.bind, Eff.query, Eff.ret.
      destruct (git_diffSummary H baseDir _ (world s)); [|reflexivity].
      now destruct (git_diff H baseDir _ (world s)).
    + now rewrite (bind_getGit_unbound _ _ Hg).
  - unfold GitService.hasUncommittedChanges.
    destruct (git s) as [baseDir|] eqn:Hg.
    + rewrite (bind_getGit_bound _ _ _ Hg). unfold Eff.bind, Eff.query, Eff.ret.
      now destruct (git_status_isClean H baseDir (world s)).
    + now rewrite (bind_getGit_unbound _ _ Hg).
  - unfold GitService.getCurrentRef.
    destruct (git s) as [baseDir|] eqn:Hg.
    + rewrite (bind_getGit_bound _ _ _ Hg). unfold Eff.bind, Eff.query, Eff.ret.
      now destruct (git_revparse H baseDir ["HEAD"] (world s)).
    + now rewrite (bind_getGit_unbound _ _ Hg).
  - reflexivity.
  - intros ref. unfold GitService.refExists.
    destruct (git s) as [baseDir|] eqn:Hg.
    + now rewrite (bind_getGit_bound _ _ _ Hg).
    + now rewrite (bind_getGit_unbound _ _ Hg).
  - intros ref baseDir Hg. unfold GitService.refExists.
    rewrite (bind_getGit_bound _ _ _ Hg). unfold Eff.query, resolves.
    now destruct (git_revparse H baseDir [ref] (world s)).
Qed.

(** X10. [initialize] records the path before it asks for the handle:
    when [simpleGit] fails the service reports the new path while its
    handle is the one it had; when it succeeds both are the new path.
    [clone] binds only after the clone went through: a failed clone leaves
    handle and path as they were.  Either way the clone is the only
    command issued. *)
Theorem binding_outcomes {W : Type} (H : Host W) (s : State W) :
  (forall path,
      repoPath (snd (GitService.initialize H path s)) = Some path
      /\ git (snd (GitService.initialize H path s))
         = match simpleGit H path (world s) with
           | Ok _ => Some path
           | Throw _ => git s
           end
      /\ world (snd (GitService.initialize H path s)) = world s
      /\ gitCalls (snd (GitService.initialize H path s)) = gitCalls s)
  /\ (forall url targetPath,
         gitCalls (snd (GitService.clone H url targetPath s))
         = (gitCalls s ++ [CallClone url targetPath])%list
         /\ match git_clone H url targetPath (world s) with
            | (Throw e, w') =>
                GitService.clone H url targetPath s
                = (Throw e,
                   mkState w' (git s) (repoPath s)
                           (gitCalls s ++ [CallClone url targetPath])
                           (currentTutorial s) (onTutorialLoaded s) (onStepChanged s))
            | (Ok _, w') =>
                repoPath (snd (GitService.clone H url targetPath s))
                = Some targetPath
                /\ git (snd (GitService.clone H url targetPath s))
                   = match simpleGit H targetPath w' with
                     | Ok _ => Some targetPath
                     | Throw _ => git s
                     end
            end).
Proof.
  split.
  - intros p. unfold GitService.initialize, Eff.bind, Eff.modify, Eff.query. simpl.
    destruct (simpleGit H p (world s)); simpl; now split_and!.
  - intros url targetPath.
    unfold GitService.clone, GitService.initialize, Eff.bind, Eff.modify,
      Eff.query, Eff.command. simpl.
    destruct (git_clone H url targetPath (world s)) as [[u|e] w']; simpl.
    + destruct (simpleGit H targetPath w'); simpl; now split_and!.
    + now split.
Qed.

(** X11. Without a file header nothing is filed: a diff text none of
    whose lines matches the file-header pattern parses to the empty map,
    whatever hunk headers and change lines it holds. *)
Theorem parseDiffOutput_without_file_header (diffOutput : string) :
  Forall (fun line => Regex.fileMatch line = None) (JS.split "010" diffOutput) ->
  GitService.parseDiffOutput diffOutput = ∅.
Proof.
  intros Hall. unfold GitService.parseDiffOutput, GitService.parseLines.
  assert (Hfold : forall lines,
             Forall (fun line => Regex.fileMatch line = None) lines ->
             fold_left GitService.parseLine lines GitService.initParse
             = GitService.initParse).
  { induction lines as [|line lines IH] using rev_ind; [reflexivity|].
    intros Hl. apply Forall_app in Hl as [Hl Hline].
    rewrite fold_left_app, IH by assumption. simpl.
    apply Forall_inv in Hline. unfold GitService.parseLine. rewrite Hline. simpl.
    now destruct (Regex.hunkMatch line). }
  now rewrite Hfold.
Qed.

Lemma parseDiffOutput_without_file_header_witness :
  GitService.parseDiffOutput ("@@ -1,2 +1,3 @@" ++ String "010" "+added")
  = ∅.
Proof.
  apply parseDiffOutput_without_file_header.
  vm_compute. repeat constructor.
Defined.

(** X12. The hunk-header pattern reads back what git prints: from a
    header with the four numbers the parser builds the hunk with exactly
    these numbers, whatever follows the closing marker; from a header
    without counts it builds the hunk with both counts equal to one.
    The numbers are below 2^53, the range in which [parseInt] is exact. *)
Theorem hunk_header_round_trip (oldStart oldLines newStart newLines : N)
        (tail : string) :
  (oldStart < 2 ^ 53)%N -> (oldLines < 2 ^ 53)%N ->
  (newStart < 2 ^ 53)%N -> (newLines < 2 ^ 53)%N ->
  GitService.newHunk
    <$> Regex.hunkMatch (hunkHeaderLine oldStart oldLines newStart newLines tail)
  = Some (DiffHunk.mk oldStart oldLines newStart newLines "")
  /\ GitService.newHunk
       <$> Regex.hunkMatch (shortHunkHeaderLine oldStart newStart tail)
     = Some (DiffHunk.mk oldStart 1 newStart 1 "").
Proof.
  intros _ _ _ _.
  rewrite hunkMatch_header, hunkMatch_short_header. simpl.
  now rewrite !pretty_truthy, !parseInt_pretty.
Qed.

Lemma hunk_header_round_trip_witness :
  GitService.newHunk <$> Regex.hunkMatch "@@ -12,0 +13,5 @@ function f() {"
  = Some (DiffHunk.mk 12 0 13 5 "").
Proof.
  apply (proj1 (hunk_header_round_trip 12 0 13 5 " function f() {"
                  eq_refl eq_refl eq_refl eq_refl)).
Defined.

(** X13. The file-header pattern reads the new path off the header git
    prints, provided both paths are non-empty and free of line
    terminators and the new path holds no [" b/"] followed by more text
    (the pattern takes the text after the rightmost such separator). *)
Theorem file_header_round_trip (oldPath newPath : string) :
  JS.truthy oldPath = true ->
  JS.truthy newPath = true ->
  Regex.noLineTerminator oldPath = true ->
  Regex.noLineTerminator newPath = true ->
  Regex.afterLastSep newPath = None ->
  Regex.fileMatch (fileHeaderLine oldPath newPath) = Some newPath.
Proof.
  intros Hp Hq Hlp Hlq Hsep. unfold Regex.fileMatch, fileHeaderLine.
  rewrite (prefix_append "diff --git a/").
  change (JS.drop 13 ("diff --git a/" ++ ?r)) with r.
  assert (Hnl : Regex.noLineTerminator (oldPath ++ " b/" ++ newPath) = true).
  { change (" b/" ++ newPath) with (String " " (String "b" (String "/" newPath))).
    apply noLineTerminator_app_space; [assumption|].
    cbn [Regex.noLineTerminator]. now rewrite Hlq. }
  rewrite Hnl.
  destruct oldPath as [|c p]; [discriminate|].
  change (String c p ++ " b/" ++ newPath) with (String c (p ++ " b/" ++ newPath)).
  now apply afterLastSep_separator.
Qed.

Lemma file_header_round_trip_witness :
  Regex.fileMatch "diff --git a/src/main.ts b/src/main.ts" = Some "src/main.ts".
Proof.
  apply (file_header_round_trip "src/main.ts" "src/main.ts"); reflexivity.
Defined.

(** ** ConfigParser: what the validator accepts, and when it throws *)

Section ValidateMore.
Import ConfigParser JValue.

Lemma notRequiredString_string (s : string) :
  s <> "" -> notRequiredString (JString s) = false.
Proof.
  intros Hs. unfold notRequiredString. simpl. unfold JS.truthy.
  apply String.eqb_neq in Hs. now rewrite Hs.
Qed.

(** A step without errors, with all that the checks establish. *)
Lemma checkStep_sound stepIds index step stepIds' :
  checkStep stepIds index step = ([], stepIds') ->
  exists c, asStepConfig step = Some c /\ wellFormedStep c.
Proof.
  unfold checkStep.
  destruct (negb (truthy step) || negb (isObjectType step)); [discriminate|].
  destruct (notRequiredString (prop step "id")) eqn:Eid; [discriminate|].
  intros Hc. inversion Hc as [[Herr Hids]]. clear Hc.
  repeat (apply app_eq_nil in Herr as [?%errIf_nil Herr]).
  apply errIf_nil in Herr.
  destruct (notRequiredString_false _ Eid) as (id & Hid & Hidne).
  destruct (notRequiredString_false _ H0) as (title & Htitle & Htne).
  destruct (notRequiredString_false _ H1) as (gitRef & HgitRef & Hgne).
  destruct (notRequiredString_false _ H2) as (explanation & Hexpl & Hene).
  apply notOptionalString_false in H3, Herr.
  destruct step; try (simpl in Hid; discriminate).
  destruct (asOptionalString (prop (JObject fields) "description")) as [d|] eqn:Ed;
    [|congruence].
  destruct (asOptionalString (prop (JObject fields) "parentId")) as [p|] eqn:Ep;
    [|congruence].
  unfold asStepConfig. cbn [prop] in *.
  rewrite Hid, Htitle, Ed, HgitRef, Ep, Hexpl.
  simpl. eexists. split; [reflexivity|]. now split_and!.
Qed.

Lemma checkSteps_sound steps : forall stepIds index stepIds' cs,
  checkSteps stepIds index steps = ([], stepIds') ->
  mapM asStepConfig steps = Some cs ->
  Forall wellFormedStep cs.
Proof.
  induction steps as [|step steps IH]; intros stepIds index stepIds' cs; simpl.
  - intros _ [= <-]. constructor.
  - destruct (checkStep stepIds index step) as [errors stepIds1] eqn:E1.
    destruct (checkSteps stepIds1 (S index) steps) as [errors' stepIds2] eqn:E2.
    intros Hc. inversion Hc as [[Herr Hids]]. subst stepIds2.
    apply app_eq_nil in Herr as [-> ->].
    destruct (checkStep_sound _ _ _ _ E1) as (c & Hc1 & Hwf).
    rewrite Hc1. simpl.
    destruct (mapM asStepConfig steps) as [cs0|] eqn:Ecs0; simpl; [|discriminate].
    intros [= <-]. constructor; [assumption|].
    eapply IH; [exact E2 | reflexivity].
Qed.

(** A document that [validate] accepts is, on its typed view, a
    well-formed config. *)
Lemma validate_wellFormed (raw : JValue.t) (r : ValidationResult.t) :
  validate raw = Ok r ->
  ValidationResult.valid r = true ->
  exists config, asTutorialConfig raw = Some config /\ wellFormedConfig config.
Proof.
  intros Hv Hok.
  destruct (validate_typed raw r Hv Hok) as (config & Hc & Hnd & Hne & Hpar).
  exists config. split; [assumption|].
  revert Hv Hok. unfold validate.
  destruct (negb (truthy raw) || negb (isObjectType raw)).
  { intros [= <-]. discriminate. }
  destruct (prop raw "steps") as [| | | | |steps|] eqn:Esteps;
    try (intros [= <-]; simpl; intros Hv; apply bool_decide_eq_true in Hv;
         rewrite length_app in Hv; simpl in Hv; lia).
  destruct steps as [|step steps].
  { intros [= <-]; simpl; intros Hv; apply bool_decide_eq_true in Hv.
    rewrite length_app in Hv; simpl in Hv; lia. }
  destruct (validateSteps (step :: steps)) as [stepErrors|e] eqn:Ev; [|discriminate].
  intros [= <-]. simpl. intros Hv. apply bool_decide_eq_true in Hv.
  apply length_zero_iff_nil in Hv.
  apply app_eq_nil in Hv as [Hv ->].
  repeat (apply app_eq_nil in Hv as [?%errIf_nil Hv]). apply errIf_nil in Hv.
  destruct (notRequiredString_false _ H) as (name & Hname & Hnne).
  destruct (notRequiredString_false _ H0) as (description & Hdesc & Hdne).
  destruct (notRequiredString_false _ Hv) as (version & Hver & Hvne).
  unfold validateSteps in Ev.
  destruct (checkSteps ∅ 0 (step :: steps)) as [errors stepIds] eqn:Ecs.
  destruct (checkParents stepIds 0 (step :: steps)) as [errors'|e] eqn:Ecp;
    [|discriminate].
  inversion Ev as [Herr]. apply app_eq_nil in Herr as [-> ->].
  destruct raw; try (simpl in Hname; discriminate).
  unfold asTutorialConfig in Hc. rewrite Hname, Hdesc, Hver, Esteps in Hc.
  simpl in Hc.
  destruct (asStepConfig step) as [c0|] eqn:Ec0; simpl in Hc; [|discriminate].
  destruct (mapM asStepConfig steps) as [cs0|] eqn:Ecs0; simpl in Hc; [|discriminate].
  inversion Hc; subst config. simpl in *.
  split_and!; try assumption; try discriminate.
  eapply (checkSteps_sound (step :: steps)); [exact Ecs|].
  simpl. now rewrite Ec0, Ecs0.
Qed.

(** *** Documents of typed configs *)

Lemma asStepConfig_ofStepConfig (c : StepConfig.t) :
  asStepConfig (ofStepConfig c) = Some c.
Proof. destruct c as [i t [d|] g [p|] e]; reflexivity. Qed.

Lemma mapM_ofStepConfig (cs : list StepConfig.t) :
  mapM asStepConfig (map ofStepConfig cs) = Some cs.
Proof.
  induction cs as [|c cs IH]; [reflexivity|].
  cbn [map mapM]. rewrite asStepConfig_ofStepConfig. simpl. now rewrite IH.
Qed.

Lemma asTutorialConfig_ofTutorialConfig (config : TutorialConfig.t) :
  asTutorialConfig (ofTutorialConfig config) = Some config.
Proof.
  destruct config as [n d v steps]. unfold asTutorialConfig, ofTutorialConfig.
  cbn [prop lookupField String.eqb Ascii.eqb Bool.eqb asString
       TutorialConfig.name TutorialConfig.description TutorialConfig.version
       TutorialConfig.steps mbind option_bind].
  now rewrite mapM_ofStepConfig.
Qed.

Lemma prop_ofStepConfig (c : StepConfig.t) :
  prop (ofStepConfig c) "id" = JString (StepConfig.id c)
  /\ prop (ofStepConfig c) "title" = JString (StepConfig.title c)
  /\ prop (ofStepConfig c) "gitRef" = JString (StepConfig.gitRef c)
  /\ prop (ofStepConfig c) "explanation" = JString (StepConfig.explanation c)
  /\ prop (ofStepConfig c) "description"
     = match StepConfig.description c with Some d => JString d | None => JUndefined end
  /\ prop (ofStepConfig c) "parentId"
     = match StepConfig.parentId c with Some p => JString p | None => JUndefined end.
Proof. destruct c as [i t [d|] g [p|] e]; now split_and!. Qed.

Lemma checkStep_encoded stepIds index (c : StepConfig.t) :
  wellFormedStep c ->
  checkStep stepIds index (ofStepConfig c)
  = (errIf (bool_decide (StepConfig.id c ∈ stepIds))
           (("steps[" ++ pretty index ++ "]") ++ ".id")
           ("duplicate step id: " ++ StepConfig.id c),
     {[ StepConfig.id c ]} ∪ stepIds).
Proof.
  intros (Hi & Ht & Hg & He). unfold checkStep.
  change (negb (truthy (ofStepConfig c)) || negb (isObjectType (ofStepConfig c)))
    with false. cbv iota.
  destruct (prop_ofStepConfig c) as (-> & -> & -> & -> & -> & ->).
  rewrite !notRequiredString_string by assumption.
  assert (Hd : notOptionalString
                 match StepConfig.description c with
                 | Some d => JString d | None => JUndefined end = false)
    by now destruct (StepConfig.description c).
  assert (Hp : notOptionalString
                 match StepConfig.parentId c with
                 | Some p => JString p | None => JUndefined end = false)
    by now destruct (StepConfig.parentId c).
  rewrite Hd, Hp. cbn [errIf strOf]. now rewrite !app_nil_r.
Qed.

Lemma checkSteps_encoded (cs : list StepConfig.t) : forall stepIds index,
  Forall wellFormedStep cs ->
  NoDup (ids cs) ->
  (forall x, In x (ids cs) -> x ∉ stepIds) ->
  exists stepIds',
    checkSteps stepIds index (map ofStepConfig cs) = ([], stepIds')
    /\ (forall x, x ∈ stepIds' <-> x ∈ stepIds \/ In x (ids cs)).
Proof.
  induction cs as [|c cs IH]; intros stepIds index Hwf Hnd Hfresh.
  - exists stepIds. split; [reflexivity|]. simpl. tauto.
  - apply Forall_cons in Hwf as [Hc Hwf]. simpl in Hnd.
    apply NoDup_cons in Hnd as [Hnin Hnd].
    cbn [map checkSteps]. rewrite (checkStep_encoded _ _ _ Hc).
    rewrite bool_decide_eq_false_2 by (apply Hfresh; now left).
    destruct (IH ({[ StepConfig.id c ]} ∪ stepIds) (S index) Hwf Hnd)
      as (stepIds' & -> & Hset).
    + intros x Hx Hmem. apply elem_of_union in Hmem as [Hmem|Hmem].
      * apply elem_of_singleton in Hmem. subst x.
        apply Hnin. now apply list_elem_of_In.
      * apply (Hfresh x); [now right | assumption].
    + exists stepIds'. split; [reflexivity|].
      intros x. rewrite Hset, elem_of_union, elem_of_singleton. simpl.
      assert (x = StepConfig.id c <-> StepConfig.id c = x) as ->
          by (split; congruence).
      tauto.
Qed.

Lemma checkParents_encoded (cs : list StepConfig.t) : forall stepIds index,
  (forall c p, In c cs -> StepConfig.parentId c = Some p -> p <> "" -> p ∈ stepIds) ->
  checkParents stepIds index (map ofStepConfig cs) = Ok [].
Proof.
  induction cs as [|c cs IH]; intros stepIds index Hpar; [reflexivity|].
  cbn [map checkParents].
  assert (Hc : checkParent stepIds index (ofStepConfig c) = Ok []).
  { unfold checkParent.
    change (match ofStepConfig c with
            | JNull => ?a | JUndefined => ?b | _ => ?d end) with d.
    destruct (prop_ofStepConfig c) as (_ & _ & _ & _ & _ & ->).
    destruct (StepConfig.parentId c) as [p|] eqn:Ep; [|reflexivity].
    cbn [truthy isString strOf].
    destruct (JS.truthy p) eqn:Ht; [|reflexivity].
    rewrite bool_decide_eq_true_2; [reflexivity|].
    apply (Hpar c p); [now left | assumption |].
    intros ->. discriminate. }
  rewrite Hc, IH; [reflexivity|].
  intros c' p Hin. apply Hpar. now right.
Qed.

Lemma validate_encoded (config : TutorialConfig.t) :
  wellFormedConfig config ->
  validate (ofTutorialConfig config) = Ok (ValidationResult.mk true []).
Proof.
  intros (Hn & Hd & Hv & Hs & Hwf & Hnd & Hpar).
  destruct config as [n d v steps]. simpl in *.
  unfold validate, ofTutorialConfig.
  cbn [truthy isObjectType negb orb prop lookupField String.eqb Ascii.eqb Bool.eqb
       TutorialConfig.name TutorialConfig.description TutorialConfig.version
       TutorialConfig.steps].
  rewrite !notRequiredString_string by assumption.
  destruct steps as [|c cs]; [congruence|].
  change (map ofStepConfig (c :: cs)) with (ofStepConfig c :: map ofStepConfig cs).
  cbv iota.
  change (ofStepConfig c :: map ofStepConfig cs) with (map ofStepConfig (c :: cs)).
  unfold validateSteps.
  destruct (checkSteps_encoded (c :: cs) ∅ 0 Hwf Hnd) as (stepIds & -> & Hset).
  { intros x _. apply not_elem_of_empty. }
  rewrite checkParents_encoded; [reflexivity|].
  intros c' p Hin Hp Hne. apply Hset. right. now apply (Hpar c' p).
Qed.

(** *** When the validator throws *)

Lemma checkParents_throws (steps : list JValue.t) : forall stepIds index,
  (exists e, checkParents stepIds index steps = Throw e)
  <-> Exists (fun v => nullish v = true) steps.
Proof.
  induction steps as [|step steps IH]; intros stepIds index.
  - split; [intros [e [=]] | intros Hex; inversion Hex].
  - cbn [checkParents].
    destruct (checkParent stepIds index step) as [errs|e1] eqn:E1.
    + assert (Hn : nullish step = false).
      { unfold checkParent in E1. destruct step; try discriminate; reflexivity. }
      rewrite Exists_cons, Hn, <- (IH stepIds (S index)).
      destruct (checkParents stepIds (S index) steps) as [errs'|e2].
      * split; [intros [e [=]] | intros [[=]|[e [=]]]].
      * split; [intros _; right; eauto | intros _; eauto].
    + assert (Hn : nullish step = true).
      { unfold checkParent in E1. destruct step; try discriminate; reflexivity. }
      rewrite Exists_cons, Hn. split; [intros _; now left | intros _; eauto].
Qed.

Lemma checkParents_error_class (steps : list JValue.t) : forall stepIds index e,
  checkParents stepIds index steps = Throw e -> JsError.class e = JsError.TypeError.
Proof.
  induction steps as [|step steps IH]; intros stepIds index e; [discriminate|].
  cbn [checkParents].
  destruct (checkParent stepIds index step) as [errs|e1] eqn:E1.
  - destruct (checkParents stepIds (S index) steps) as [errs'|e2] eqn:E2;
      [discriminate|].
    intros [= <-]. eapply IH; eauto.
  - intros [= <-]. unfold checkParent in E1.
    destruct step; inversion E1; reflexivity.
Qed.
End ValidateMore.

Section ParseMore.
Context {W : Type} (H : Host W).

(** What a successful [parse] went through. *)
Lemma parse_Ok_inv configPath (s s' : State W) config :
  ConfigParser.parse H configPath s = (Ok config, s') ->
  s' = s
  /\ exists content raw r,
       fs_readFile H configPath (world s) = Ok content
       /\ (path_extname_lower H configPath = ".yaml"
           /\ yaml_load H content = Ok raw
           \/ path_extname_lower H configPath = ".yml"
              /\ yaml_load H content = Ok raw
           \/ path_extname_lower H configPath = ".json"
              /\ JSON_parse H content = Ok raw)
       /\ ConfigParser.validate raw = Ok r
       /\ ValidationResult.valid r = true
       /\ ConfigParser.asTutorialConfig raw = Some config.
Proof.
  unfold ConfigParser.parse. intros Hp.
  apply bind_inv in Hp as [(e & _ & [=])|(content & s1 & Hread & Hp)].
  unfold Eff.query in Hread. injection Hread as Hread <-.
  apply bind_inv in Hp as [(e & _ & [=])|(raw & s2 & Hload & Hp)].
  apply bind_inv in Hp as [(e & _ & [=])|(r & s3 & Hval & Hp)].
  unfold Eff.query in Hval. injection Hval as Hval <-.
  destruct (ValidationResult.valid r) eqn:Hok; simpl in Hp; [|discriminate].
  destruct (ConfigParser.asTutorialConfig raw) as [config'|] eqn:Hc;
    [|discriminate].
  injection Hp as <- <-.
  assert (Hs2 : s2 = s
          /\ (path_extname_lower H configPath = ".yaml" /\ yaml_load H content = Ok raw
              \/ path_extname_lower H configPath = ".yml" /\ yaml_load H content = Ok raw
              \/ path_extname_lower H configPath = ".json"
                 /\ JSON_parse H content = Ok raw)).
  { destruct (String.eqb (path_extname_lower H configPath) ".yaml") eqn:E1.
    { apply String.eqb_eq in E1. simpl in Hload. unfold Eff.query in Hload.
      injection Hload as Hload <-. tauto. }
    destruct (String.eqb (path_extname_lower H configPath) ".yml") eqn:E2.
    { apply String.eqb_eq in E2. simpl in Hload. unfold Eff.query in Hload.
      injection Hload as Hload <-. tauto. }
    simpl in Hload.
    destruct (String.eqb (path_extname_lower H configPath) ".json") eqn:E3;
      [|discriminate].
    apply String.eqb_eq in E3. unfold Eff.query in Hload.
    injection Hload as Hload <-. tauto. }
  destruct Hs2 as [-> Hext]. split; [reflexivity|].
  exists content, raw, r. now split_and!.
Qed.
End ParseMore.

(** X14. A config that [parse] returns is well formed: name, description
    and version are non-empty; there is at least one step; every step has
    a non-empty id, title, gitRef and explanation; the ids are pairwise
    different; and every non-empty parentId is the id of some step of the
    config.  [parse] changes nothing, and it succeeds only for a readable
    file whose extension is [.yaml], [.yml] or [.json]. *)
Theorem parse_returns_well_formed {W : Type} (H : Host W) (configPath : string)
        (s s' : State W) (config : TutorialConfig.t) :
  ConfigParser.parse H configPath s = (Ok config, s') ->
  s' = s
  /\ wellFormedConfig config
  /\ (exists content, fs_readFile H configPath (world s) = Ok content)
  /\ In (path_extname_lower H configPath) [".yaml"; ".yml"; ".json"].
Proof.
  intros Hp.
  destruct (parse_Ok_inv H _ _ _ _ Hp)
    as (-> & content & raw & r & Hread & Hext & Hv & Hok & Hc).
  destruct (validate_wellFormed raw r Hv Hok) as (config' & Hc' & Hwf).
  rewrite Hc in Hc'. injection Hc' as <-.
  split_and!; try assumption; try reflexivity.
  - now exists content.
  - simpl. destruct Hext as [[-> _]|[[-> _]|[-> _]]]; tauto.
Qed.

Lemma parse_returns_well_formed_witness :
  wellFormedConfig
    (TutorialConfig.mk "Demo" "A demo" "1.0.0"
       [StepConfig.mk "step-1" "step-1" None "v1" None "doc.md"]).
Proof.
  refine (proj1 (proj2 (parse_returns_well_formed
            (exampleHost [] "" [] true None
               (Ok (ofTutorialConfig
                      (TutorialConfig.mk "Demo" "A demo" "1.0.0"
                         [StepConfig.mk "step-1" "step-1" None "v1" None "doc.md"]))))
            "/repo/tutorial.json" (boundState None) (boundState None) _ _))).
  vm_compute. reflexivity.
Defined.

(** X15. On the document of a typed config the validator is exact: it
    accepts, with no error, if and only if the config is well formed.  In
    particular it accepts a parentId that names a later step, or the step
    itself. *)
Theorem validate_accepts_iff (config : TutorialConfig.t) :
  ConfigParser.validate (ofTutorialConfig config)
  = Ok (ValidationResult.mk true [])
  <-> wellFormedConfig config.
Proof.
  split.
  - intros Hv.
    destruct (validate_wellFormed _ _ Hv eq_refl) as (config' & Hc & Hwf).
    rewrite asTutorialConfig_ofTutorialConfig in Hc. now injection Hc as <-.
  - apply validate_encoded.
Qed.

(** X16. [validate] throws exactly when the document's [steps] is an
    array that holds [null] or [undefined]: it then fails with a
    TypeError instead of returning a result.  On every other value it
    returns a result. *)
Theorem validate_throws_iff (raw : JValue.t) :
  ((exists e, ConfigParser.validate raw = Throw e)
   <-> exists steps, JValue.prop raw "steps" = JValue.JArray steps
                     /\ Exists (fun v => nullish v = true) steps)
  /\ (forall e, ConfigParser.validate raw = Throw e ->
                JsError.class e = JsError.TypeError).
Proof.
  assert (Hobj : forall steps, JValue.prop raw "steps" = JValue.JArray steps ->
                 negb (JValue.truthy raw) || negb (JValue.isObjectType raw) = false).
  { intros steps Hs. destruct raw; try discriminate. reflexivity. }
  unfold ConfigParser.validate.
  destruct (JValue.prop raw "steps") as [| | | | |steps|] eqn:Esteps;
    try (split; [split; [intros [e He]|intros (steps & [=] & _)]|intros e He];
         destruct (negb (JValue.truthy raw) || negb (JValue.isObjectType raw));
         discriminate).
  rewrite (Hobj steps eq_refl).
  destruct steps as [|step steps].
  { split; [split|]; [intros [e [=]] | intros (steps & [= <-] & Hex); inversion Hex
                     | intros e [=]]. }
  unfold ConfigParser.validateSteps.
  destruct (ConfigParser.checkSteps ∅ 0 (step :: steps)) as [errors stepIds].
  pose proof (checkParents_throws (step :: steps) stepIds 0) as Hthrows.
  pose proof (checkParents_error_class (step :: steps) stepIds 0) as Hclass.
  destruct (ConfigParser.checkParents stepIds 0 (step :: steps)) as [errs|e0].
  - split; [split|]; [intros [e [=]] | | intros e [=]].
    intros (steps' & [= <-] & Hex). apply Hthrows in Hex as [e [=]].
  - split; [split|].
    + intros _. exists (step :: steps). split; [reflexivity|].
      apply Hthrows. eauto.
    + intros _. eauto.
    + intros e [= <-]. now apply Hclass.
Qed.

Section Report.
Import ConfigParser JValue.

Lemma checkSteps_report (cs : list StepConfig.t) : forall stepIds seen index,
  (forall x, x ∈ stepIds <-> x ∈ seen) ->
  Forall wellFormedStep cs ->
  exists stepIds',
    checkSteps stepIds index (map ofStepConfig cs)
    = (duplicateErrors seen index cs, stepIds')
    /\ (forall x, x ∈ stepIds' <-> x ∈ (seen ++ ids cs)%list).
Proof.
  induction cs as [|c cs IH]; intros stepIds seen index Hseen Hwf.
  - exists stepIds. split; [reflexivity|]. intros x. simpl. now rewrite app_nil_r.
  - apply Forall_cons in Hwf as [Hc Hwf].
    cbn [map checkSteps duplicateErrors]. rewrite (checkStep_encoded _ _ _ Hc).
    destruct (IH ({[ StepConfig.id c ]} ∪ stepIds) (seen ++ [StepConfig.id c])%list
                 (S index)) as (stepIds' & -> & Hset); [|assumption|].
    + intros x. rewrite elem_of_union, elem_of_singleton, elem_of_app,
        list_elem_of_singleton, Hseen. tauto.
    + exists stepIds'. split.
      * f_equal. f_equal. unfold errIf.
        rewrite (bool_decide_ext _ _ (Hseen (StepConfig.id c))). reflexivity.
      * intros x. rewrite Hset. simpl. now rewrite <- List.app_assoc.
Qed.

Lemma checkParents_report (cs : list StepConfig.t) : forall stepIds declared index,
  (forall x, x ∈ stepIds <-> x ∈ declared) ->
  checkParents stepIds index (map ofStepConfig cs)
  = Ok (danglingErrors declared index cs).
Proof.
  induction cs as [|c cs IH]; intros stepIds declared index Hdecl; [reflexivity|].
  cbn [map checkParents danglingErrors].
  assert (Hc : checkParent stepIds index (ofStepConfig c)
               = Ok match StepConfig.parentId c with
                    | Some p =>
                        if JS.truthy p && negb (bool_decide (p ∈ declared))
                        then [err ("steps[" ++ pretty index ++ "].parentId")
                                  ("parentId references non-existent step: " ++ p)]
                        else []
                    | None => []
                    end).
  { unfold checkParent.
    change (match ofStepConfig c with
            | JNull => ?a | JUndefined => ?b | _ => ?d end) with d.
    destruct (prop_ofStepConfig c) as (_ & _ & _ & _ & _ & ->).
    destruct (StepConfig.parentId c) as [p|]; [|reflexivity].
    cbn [truthy isString strOf]. rewrite andb_true_r.
    now rewrite (bool_decide_ext _ _ (Hdecl p)). }
  now rewrite Hc, (IH _ declared (S index) Hdecl).
Qed.
End Report.

(** X27. On the document of a config whose required fields are all
    non-empty, [validate] reports exactly these errors, in this order:
    for every step whose id is declared by an earlier step, a duplicate
    at [steps[i].id]; then, for every step whose non-empty parentId is
    the id of no step of the document (earlier or later), a dangling
    parent at [steps[i].parentId].  The result is valid exactly when
    there is none. *)
Theorem validate_reports (config : TutorialConfig.t) :
  TutorialConfig.name config <> "" ->
  TutorialConfig.description config <> "" ->
  TutorialConfig.version config <> "" ->
  TutorialConfig.steps config <> [] ->
  Forall wellFormedStep (TutorialConfig.steps config) ->
  ConfigParser.validate (ofTutorialConfig config)
  = Ok (ValidationResult.mk
          (bool_decide
             (length (duplicateErrors [] 0 (TutorialConfig.steps config)
                      ++ danglingErrors (ids (TutorialConfig.steps config)) 0
                                        (TutorialConfig.steps config)) = 0%nat))
          (duplicateErrors [] 0 (TutorialConfig.steps config)
           ++ danglingErrors (ids (TutorialConfig.steps config)) 0
                             (TutorialConfig.steps config))).
Proof.
  intros Hn Hd Hv Hs Hwf.
  destruct config as [n d v steps]. simpl in *.
  unfold ConfigParser.validate, ofTutorialConfig.
  cbn [JValue.truthy JValue.isObjectType negb orb JValue.prop JValue.lookupField
       String.eqb Ascii.eqb Bool.eqb
       TutorialConfig.name TutorialConfig.description TutorialConfig.version
       TutorialConfig.steps].
  rewrite !notRequiredString_string by assumption.
  destruct steps as [|c cs]; [congruence|].
  change (map ofStepConfig (c :: cs)) with (ofStepConfig c :: map ofStepConfig cs).
  cbv iota.
  change (ofStepConfig c :: map ofStepConfig cs) with (map ofStepConfig (c :: cs)).
  unfold ConfigParser.validateSteps.
  destruct (checkSteps_report (c :: cs) ∅ [] 0) as (stepIds & -> & Hset);
    [|assumption|].
  { intros x. rewrite elem_of_nil. split; [apply not_elem_of_empty | tauto]. }
  rewrite (checkParents_report (c :: cs) stepIds (ids (c :: cs)) 0).
  - reflexivity.
  - intros x. now rewrite Hset.
Qed.

Lemma validate_reports_witness :
  ConfigParser.validate
    (ofTutorialConfig
       (TutorialConfig.mk "Demo" "A demo" "1.0.0"
          [StepConfig.mk "a" "A" None "r1" (Some "z") "a.md";
           StepConfig.mk "a" "A2" None "r2" (Some "a") "a2.md"]))
  = Ok (ValidationResult.mk false
          [ConfigParser.err "steps[1].id" "duplicate step id: a";
           ConfigParser.err "steps[0].parentId"
                            "parentId references non-existent step: z"]).
Proof.
  refine (eq_trans
            (validate_reports
               (TutorialConfig.mk "Demo" "A demo" "1.0.0"
                  [StepConfig.mk "a" "A" None "r1" (Some "z") "a.md";
                   StepConfig.mk "a" "A2" None "r2" (Some "a") "a2.md"])
               _ _ _ _ _) _).
  - discriminate.
  - discriminate.
  - discriminate.
  - discriminate.
  - repeat constructor; discriminate.
  - vm_compute. reflexivity.
Defined.

(** X28. How [parse] fails.  The file is read first: an unreadable file
    gives the read error whatever its extension.  A readable file with
    another extension than [.yaml], [.yml] and [.json] gives the
    "Unsupported config file format" error.  A document the validator
    rejects gives one error whose message lists every validation error
    as [path: message], one per line.  A document on which the validator
    throws (a [null] step) makes [parse] fail with that TypeError.  In
    every case the state is as before. *)
Theorem parse_failure_modes {W : Type} (H : Host W) (configPath : string)
        (s : State W) :
  snd (ConfigParser.parse H configPath s) = s
  /\ (forall e, fs_readFile H configPath (world s) = Throw e ->
                ConfigParser.parse H configPath s = (Throw e, s))
  /\ (forall content,
         fs_readFile H configPath (world s) = Ok content ->
         ~ In (path_extname_lower H configPath) [".yaml"; ".yml"; ".json"] ->
         ConfigParser.parse H configPath s
         = (Throw (JsError.newError
                     ("Unsupported config file format: "
                      ++ path_extname_lower H configPath
                      ++ ". Use .yaml, .yml, or .json")), s))
  /\ (forall content raw r,
         fs_readFile H configPath (world s) = Ok content ->
         loadedAs H configPath content raw ->
         ConfigParser.validate raw = Ok r ->
         ValidationResult.valid r = false ->
         ConfigParser.parse H configPath s
         = (Throw (JsError.newError
                     ("Invalid tutorial config:" ++ String "010" ""
                      ++ ConfigParser.formatErrors (ValidationResult.errors r))), s))
  /\ (forall content raw e,
         fs_readFile H configPath (world s) = Ok content ->
         loadedAs H configPath content raw ->
         ConfigParser.validate raw = Throw e ->
         ConfigParser.parse H configPath s = (Throw e, s)).
Proof.
  assert (Hload : forall content raw,
             loadedAs H configPath content raw ->
             (if String.eqb (path_extname_lower H configPath) ".yaml"
                 || String.eqb (path_extname_lower H configPath) ".yml"
              then Eff.query (fun _ : W => yaml_load H content)
              else if String.eqb (path_extname_lower H configPath) ".json"
                   then Eff.query (fun _ : W => JSON_parse H content)
                   else Eff.throw
                          (JsError.newError
                             ("Unsupported config file format: "
                              ++ path_extname_lower H configPath
                              ++ ". Use .yaml, .yml, or .json"))) s
             = (Ok raw, s)).
  { intros content raw [[[-> | ->] Hy]|[-> Hj]]; simpl; unfold Eff.query;
      now rewrite ?Hy, ?Hj. }
  split_and!.
  - apply parse_readOnly.
  - intros e Hr. unfold ConfigParser.parse, Eff.bind, Eff.query. now rewrite Hr.
  - intros content Hr Hext. unfold ConfigParser.parse. unfold Eff.bind at 1.
    unfold Eff.query at 1. rewrite Hr. unfold Eff.bind at 1.
    destruct (String.eqb (path_extname_lower H configPath) ".yaml") eqn:E1.
    { apply String.eqb_eq in E1. exfalso. apply Hext. rewrite E1. now left. }
    destruct (String.eqb (path_extname_lower H configPath) ".yml") eqn:E2.
    { apply String.eqb_eq in E2. exfalso. apply Hext. rewrite E2. right. now left. }
    destruct (String.eqb (path_extname_lower H configPath) ".json") eqn:E3.
    { apply String.eqb_eq in E3. exfalso. apply Hext. rewrite E3. right. right.
      now left. }
    reflexivity.
  - intros content raw r Hr Hl Hv Hinvalid. unfold ConfigParser.parse.
    unfold Eff.bind at 1. unfold Eff.query at 1. rewrite Hr.
    unfold Eff.bind at 1. rewrite (Hload content raw Hl).
    unfold Eff.bind, Eff.query. now rewrite Hv, Hinvalid.
  - intros content raw e Hr Hl Hv. unfold ConfigParser.parse.
    unfold Eff.bind at 1. unfold Eff.query at 1. rewrite Hr.
    unfold Eff.bind at 1. rewrite (Hload content raw Hl).
    unfold Eff.bind, Eff.query. now rewrite Hv.
Qed.

(** ** TutorialManager: navigation and loading, end to end *)


Section NavigateMore.
Context {W : Type} (H : Host W).

Lemma navigateFrom_gate stepId step :
  navigateFrom H stepId step
  = Eff.bind (TutorialManager.dirtyGate H)
      (fun go => if negb go then Eff.ret tt else completeNavigation H stepId step).
Proof. reflexivity. Qed.

Lemma hasUncommittedChanges_bound (s : State W) baseDir :
  git s = Some baseDir ->
  GitService.hasUncommittedChanges H s
  = (match git_status_isClean H baseDir (world s) with
     | Ok isClean => Ok (negb isClean)
     | Throw e => Throw e
     end, s).
Proof.
  intros Hg. unfold GitService.hasUncommittedChanges.
  rewrite (bind_getGit_bound _ _ _ Hg). unfold Eff.bind, Eff.query, Eff.ret.
  now destruct (git_status_isClean H baseDir (world s)).
Qed.

Lemma stash_bound (s : State W) baseDir :
  git s = Some baseDir ->
  GitService.stash H s
  = (fst (git_stash H baseDir stashPush (world s)),
     stranded (snd (git_stash H baseDir stashPush (world s)))
              (gitCalls s ++ [CallStash baseDir stashPush]) s).
Proof.
  intros Hg. unfold GitService.stash.
  rewrite (bind_getGit_bound _ _ _ Hg).
  unfold Eff.bind, Eff.modify, Eff.command, stranded, stashPush. simpl.
  now destruct (git_stash H baseDir _ (world s)).
Qed.

Lemma dirtyGate_clean (s : State W) baseDir :
  git s = Some baseDir ->
  git_status_isClean H baseDir (world s) = Ok true ->
  TutorialManager.dirtyGate H s = (Ok true, s).
Proof.
  intros Hg Hc. unfold TutorialManager.dirtyGate, Eff.bind.
  now rewrite (hasUncommittedChanges_bound _ _ Hg), Hc.
Qed.

Lemma dirtyGate_dirty (s : State W) baseDir :
  git s = Some baseDir ->
  git_status_isClean H baseDir (world s) = Ok false ->
  TutorialManager.dirtyGate H s
  = match dirtyAnswer H (world s) with
    | Some c =>
        if String.eqb c TutorialManager.stashAndContinue then
          (match fst (git_stash H baseDir stashPush (world s)) with
           | Ok _ => Ok true
           | Throw e => Throw e
           end,
           stranded (snd (git_stash H baseDir stashPush (world s)))
                    (gitCalls s ++ [CallStash baseDir stashPush]) s)
        else if String.eqb c TutorialManager.discardAndContinue then (Ok true, s)
        else (Ok false, s)
    | None => (Ok false, s)
    end.
Proof.
  intros Hg Hc. unfold TutorialManager.dirtyGate. unfold Eff.bind at 1.
  rewrite (hasUncommittedChanges_bound _ _ Hg), Hc. cbn [negb].
  unfold Eff.bind at 1. unfold Eff.get.
  fold (dirtyAnswer H (world s)).
  destruct (dirtyAnswer H (world s)) as [c|]; [|reflexivity].
  destruct (String.eqb c TutorialManager.stashAndContinue);
    [|now destruct (String.eqb c TutorialManager.discardAndContinue)].
  unfold Eff.bind. rewrite (stash_bound _ _ Hg).
  now destruct (fst (git_stash H baseDir stashPush (world s))).
Qed.

(** After the gate: the checkout, then the switch. *)
Lemma completeNavigation_bound stepId step (s : State W) baseDir :
  git s = Some baseDir ->
  completeNavigation H stepId step s
  = match git_checkout H baseDir (StepNode.gitRef step) (world s) with
    | (Ok _, w1) =>
        (fst (revertVisibleEditors H w1),
         mkState (snd (revertVisibleEditors H w1)) (git s) (repoPath s)
                 (gitCalls s ++ [CallCheckout baseDir (StepNode.gitRef step)])
                 (option_map (fun t => Tutorial.with_currentStepId t (Some stepId))
                             (currentTutorial s))
                 (onTutorialLoaded s) (onStepChanged s ++ [step]))
    | (Throw e, w1) =>
        (Throw e,
         stranded w1 (gitCalls s ++ [CallCheckout baseDir (StepNode.gitRef step)]) s)
    end.
Proof.
  intros Hg. unfold completeNavigation. unfold Eff.bind at 1.
  rewrite (checkout_bound H _ _ _ Hg).
  destruct (git_checkout H baseDir (StepNode.gitRef step) (world s)) as [[u|e] w1];
    [|reflexivity].
  unfold Eff.bind, Eff.modify, TutorialManager.refreshOpenEditors, Eff.command.
  simpl. now destruct (revertVisibleEditors H w1).
Qed.

Lemma completeNavigation_unbound stepId step (s : State W) :
  git s = None ->
  completeNavigation H stepId step s = (Throw notInitialized, s).
Proof.
  intros Hg. unfold completeNavigation. unfold Eff.bind at 1.
  unfold GitService.checkout. now rewrite (bind_getGit_unbound _ _ Hg).
Qed.

(** Either nothing of the manager changed, or the step was switched. *)
Lemma navigateFrom_outcome stepId step (s : State W) t :
  currentTutorial s = Some t ->
  (currentTutorial (snd (navigateFrom H stepId step s)) = Some t
   /\ onStepChanged (snd (navigateFrom H stepId step s)) = onStepChanged s)
  \/ (currentTutorial (snd (navigateFrom H stepId step s))
      = Some (Tutorial.with_currentStepId t (Some stepId))
      /\ onStepChanged (snd (navigateFrom H stepId step s))
         = (onStepChanged s ++ [step])%list).
Proof.
  intros Ht. rewrite navigateFrom_gate. unfold Eff.bind.
  pose proof (dirtyGate_keeps H s) as (G1 & _ & G3).
  pose proof (dirtyGate_keeps H) as _.
  destruct (TutorialManager.dirtyGate H s) as [[go|e] s1] eqn:Hgate; simpl in *.
  2:{ left. split; congruence. }
  destruct go; simpl.
  2:{ left. split; congruence. }
  destruct (git s1) as [baseDir|] eqn:Hg.
  - rewrite (completeNavigation_bound _ _ _ _ Hg).
    destruct (git_checkout H baseDir (StepNode.gitRef step) (world s1))
      as [[u|e] w1]; simpl.
    + right. rewrite G1, G3, Ht. now split.
    + left. split; congruence.
  - rewrite (completeNavigation_unbound _ _ _ Hg). simpl. left. split; congruence.
Qed.

(** The commands a navigation issues after the gate. *)
Lemma completeNavigation_calls stepId step (s : State W) :
  gitCalls (snd (completeNavigation H stepId step s))
  = (gitCalls s
     ++ match git s with
        | Some baseDir => [CallCheckout baseDir (StepNode.gitRef step)]
        | None => []
        end)%list
  /\ git (snd (completeNavigation H stepId step s)) = git s.
Proof.
  destruct (git s) as [baseDir|] eqn:Hg.
  - rewrite (completeNavigation_bound _ _ _ _ Hg).
    destruct (git_checkout H baseDir (StepNode.gitRef step) (world s))
      as [[u|e] w1]; simpl; now split.
  - rewrite (completeNavigation_unbound _ _ _ Hg). simpl.
    now rewrite app_nil_r.
Qed.

Lemma dirtyGate_calls (s : State W) :
  git (snd (TutorialManager.dirtyGate H s)) = git s
  /\ (gitCalls (snd (TutorialManager.dirtyGate H s)) = gitCalls s
      \/ exists baseDir,
           git s = Some baseDir
           /\ gitCalls (snd (TutorialManager.dirtyGate H s))
              = (gitCalls s ++ [CallStash baseDir stashPush])%list).
Proof.
  destruct (git s) as [baseDir|] eqn:Hg.
  - destruct (git_status_isClean H baseDir (world s)) as [[|]|e] eqn:Hc.
    + rewrite (dirtyGate_clean _ _ Hg Hc). simpl. split; [assumption | now left].
    + rewrite (dirtyGate_dirty _ _ Hg Hc).
      destruct (dirtyAnswer H (world s)) as [c|];
        [|simpl; split; [assumption | now left]].
      destruct (String.eqb c TutorialManager.stashAndContinue).
      * simpl. split; [assumption|]. right. now exists baseDir.
      * destruct (String.eqb c TutorialManager.discardAndContinue); simpl;
          (split; [assumption | now left]).
    + unfold TutorialManager.dirtyGate, Eff.bind.
      rewrite (hasUncommittedChanges_bound _ _ Hg), Hc. simpl.
      split; [assumption | now left].
  - unfold TutorialManager.dirtyGate, Eff.bind.
    assert (E : GitService.hasUncommittedChanges H s = (Throw notInitialized, s))
      by apply (bind_getGit_unbound _ s Hg).
    rewrite E. simpl. split; [assumption | now left].
Qed.
End NavigateMore.

(** X17. Whatever the state and whatever git and the user answer,
    [navigateToStep] issues at most one stash ([push], never [pop]) and
    after it at most one checkout, of the ref of the step asked for, both
    on the working tree the service is bound to; it issues no clone and
    never rebinds the service. *)
Theorem navigateToStep_git_trace {W : Type} (H : Host W) (stepId : string)
        (s : State W) :
  git (snd (TutorialManager.navigateToStep H stepId s)) = git s
  /\ exists stashed checkedOut,
       gitCalls (snd (TutorialManager.navigateToStep H stepId s))
       = (gitCalls s ++ stashed ++ checkedOut)%list
       /\ (stashed = []
           \/ exists baseDir,
                git s = Some baseDir /\ stashed = [CallStash baseDir stashPush])
       /\ (checkedOut = []
           \/ exists baseDir t step,
                git s = Some baseDir
                /\ currentTutorial s = Some t
                /\ TutorialManager.findStep (Tutorial.steps t) stepId = Some step
                /\ checkedOut = [CallCheckout baseDir (StepNode.gitRef step)]).
Proof.
  assert (Hnone : git s = git s
                  /\ exists stashed checkedOut : list GitCall,
                       gitCalls s = (gitCalls s ++ stashed ++ checkedOut)%list
                       /\ (stashed = []
                           \/ exists baseDir,
                                git s = Some baseDir
                                /\ stashed = [CallStash baseDir stashPush])
                       /\ (checkedOut = []
                           \/ exists baseDir t step,
                                git s = Some baseDir
                                /\ currentTutorial s = Some t
                                /\ TutorialManager.findStep (Tutorial.steps t) stepId
                                   = Some step
                                /\ checkedOut
                                   = [CallCheckout baseDir (StepNode.gitRef step)])).
  { split; [reflexivity|]. exists [], []. rewrite !app_nil_r. tauto. }
  destruct (currentTutorial s) as [t|] eqn:Ht.
  2:{ unfold TutorialManager.navigateToStep, Eff.bind, Eff.get. now rewrite Ht. }
  destruct (TutorialManager.findStep (Tutorial.steps t) stepId) as [step|] eqn:Hs.
  2:{ unfold TutorialManager.navigateToStep, Eff.bind, Eff.get. now rewrite Ht, Hs. }
  clear Hnone.
  rewrite (navigateToStep_found H _ _ _ _ Ht Hs), navigateFrom_gate.
  unfold Eff.bind.
  destruct (dirtyGate_calls H s) as [Hgit Hcalls].
  destruct (TutorialManager.dirtyGate H s) as [[go|e] s1] eqn:Hgate; simpl in *.
  - destruct go; simpl.
    + destruct (completeNavigation_calls H stepId step s1) as [Hc Hg].
      split; [congruence|]. rewrite Hc, Hgit.
      destruct Hcalls as [->|(baseDir & Hb & ->)].
      * exists [], (match git s with
                    | Some baseDir => [CallCheckout baseDir (StepNode.gitRef step)]
                    | None => []
                    end).
        split_and!; [reflexivity | now left |].
        destruct (git s) as [baseDir|]; [right | now left].
        now exists baseDir, t, step.
      * exists [CallStash baseDir stashPush],
               [CallCheckout baseDir (StepNode.gitRef step)].
        rewrite Hb, <- List.app_assoc. split_and!; [reflexivity | | ].
        -- right. now exists baseDir.
        -- right. now exists baseDir, t, step.
    + split; [assumption|].
      destruct Hcalls as [->|(baseDir & Hb & ->)].
      * exists [], []. rewrite !app_nil_r. tauto.
      * exists [CallStash baseDir stashPush], []. rewrite !app_nil_r.
        split_and!; [reflexivity | | now left]. right. now exists baseDir.
  - split; [assumption|].
    destruct Hcalls as [->|(baseDir & Hb & ->)].
    + exists [], []. rewrite !app_nil_r. tauto.
    + exists [CallStash baseDir stashPush], []. rewrite !app_nil_r.
      split_and!; [reflexivity | | now left]. right. now exists baseDir.
Qed.

(** X18. On a clean working tree, and on a dirty one when the user
    chooses to discard, a navigation whose checkout succeeds issues that
    checkout alone (no stash), makes the step the current one and fires
    it; the editors are refreshed last, so that when the refresh fails
    the navigation fails although the step has been switched. *)
Theorem navigateToStep_goes_through {W : Type} (H : Host W) (stepId : string)
        (s : State W) (t : Tutorial.t) (step : StepNode.t)
        (baseDir : string) (w1 : W) :
  currentTutorial s = Some t ->
  TutorialManager.findStep (Tutorial.steps t) stepId = Some step ->
  git s = Some baseDir ->
  git_status_isClean H baseDir (world s) = Ok true
  \/ (git_status_isClean H baseDir (world s) = Ok false
      /\ dirtyAnswer H (world s) = Some TutorialManager.discardAndContinue) ->
  git_checkout H baseDir (StepNode.gitRef step) (world s) = (Ok tt, w1) ->
  TutorialManager.navigateToStep H stepId s
  = (fst (revertVisibleEditors H w1),
     navigated stepId step t (snd (revertVisibleEditors H w1))
               (gitCalls s ++ [CallCheckout baseDir (StepNode.gitRef step)]) s).
Proof.
  intros Ht Hs Hg Hgate Hco.
  rewrite (navigateToStep_found H _ _ _ _ Ht Hs), navigateFrom_gate.
  assert (Hpass : TutorialManager.dirtyGate H s = (Ok true, s)).
  { destruct Hgate as [Hc|[Hc Ha]].
    - now apply (dirtyGate_clean H s baseDir).
    - rewrite (dirtyGate_dirty H s baseDir Hg Hc), Ha. reflexivity. }
  rewrite (bind_Ok _ _ _ _ _ Hpass). simpl.
  rewrite (completeNavigation_bound H _ _ _ _ Hg), Hco, Ht. reflexivity.
Qed.

Lemma navigateToStep_goes_through_witness :
  TutorialManager.navigateToStep
    (exampleHost [] "" ["v1"; "v2"] false (Some TutorialManager.discardAndContinue)
                 (Ok JValue.JNull))
    "step-2" (boundState (Some exampleTutorial))
  = (Ok tt,
     mkState tt (Some "/repo") (Some "/repo") [CallCheckout "/repo" "v2"]
       (Some (Tutorial.with_currentStepId exampleTutorial (Some "step-2"))) []
       [StepNode.mk "step-2" "Step 2" "" "v2" (Some "step-1") [] "doc2.md"]).
Proof.
  apply (navigateToStep_goes_through
           (exampleHost [] "" ["v1"; "v2"] false
                        (Some TutorialManager.discardAndContinue) (Ok JValue.JNull))
           "step-2" (boundState (Some exampleTutorial)) exampleTutorial
           (StepNode.mk "step-2" "Step 2" "" "v2" (Some "step-1") [] "doc2.md")
           "/repo" tt).
  - reflexivity.
  - reflexivity.
  - reflexivity.
  - right. split; reflexivity.
  - reflexivity.
Defined.

(** X19. On a dirty working tree with the answer "stash and continue":
    the stash is issued first; when it fails the navigation fails with
    its error and no checkout is issued; when the checkout fails after a
    stash that went through, the navigation fails with the stash left in
    place (it is not popped); in both failures the current tutorial is
    as before and nothing is fired.  When both succeed the step is
    switched. *)
Theorem navigateToStep_stash_path {W : Type} (H : Host W) (stepId : string)
        (s : State W) (t : Tutorial.t) (step : StepNode.t) (baseDir : string) :
  currentTutorial s = Some t ->
  TutorialManager.findStep (Tutorial.steps t) stepId = Some step ->
  git s = Some baseDir ->
  git_status_isClean H baseDir (world s) = Ok false ->
  dirtyAnswer H (world s) = Some TutorialManager.stashAndContinue ->
  (forall e w1,
      git_stash H baseDir stashPush (world s) = (Throw e, w1) ->
      TutorialManager.navigateToStep H stepId s
      = (Throw e, stranded w1 (gitCalls s ++ [CallStash baseDir stashPush]) s))
  /\ (forall u w1 e w2,
         git_stash H baseDir stashPush (world s) = (Ok u, w1) ->
         git_checkout H baseDir (StepNode.gitRef step) w1 = (Throw e, w2) ->
         TutorialManager.navigateToStep H stepId s
         = (Throw e,
            stranded w2 (gitCalls s ++ [CallStash baseDir stashPush;
                                        CallCheckout baseDir (StepNode.gitRef step)])
                     s))
  /\ (forall u w1 u' w2,
         git_stash H baseDir stashPush (world s) = (Ok u, w1) ->
         git_checkout H baseDir (StepNode.gitRef step) w1 = (Ok u', w2) ->
         TutorialManager.navigateToStep H stepId s
         = (fst (revertVisibleEditors H w2),
            navigated stepId step t (snd (revertVisibleEditors H w2))
                      (gitCalls s ++ [CallStash baseDir stashPush;
                                      CallCheckout baseDir (StepNode.gitRef step)])
                      s)).
Proof.
  intros Ht Hs Hg Hc Ha.
  rewrite (navigateToStep_found H _ _ _ _ Ht Hs), navigateFrom_gate.
  unfold Eff.bind.
  rewrite (dirtyGate_dirty H s baseDir Hg Hc), Ha. simpl.
  split_and!.
  - intros e w1 Hst. now rewrite Hst.
  - intros u w1 e w2 Hst Hco. rewrite Hst. simpl.
    rewrite (completeNavigation_bound H stepId step _ baseDir) by assumption.
    simpl. rewrite Hco. unfold stranded. simpl.
    now rewrite <- List.app_assoc.
  - intros u w1 u' w2 Hst Hco. rewrite Hst. simpl.
    rewrite (completeNavigation_bound H stepId step _ baseDir) by assumption.
    simpl. rewrite Hco, Ht. unfold navigated. simpl.
    now rewrite <- List.app_assoc.
Qed.

Lemma navigateToStep_stash_path_witness :
  TutorialManager.navigateToStep
    (exampleHost [] "" ["v1"] false (Some TutorialManager.stashAndContinue)
                 (Ok JValue.JNull))
    "step-2" (boundState (Some exampleTutorial))
  = (Throw (JsError.newError "pathspec 'v2' did not match"),
     stranded tt [CallStash "/repo" stashPush; CallCheckout "/repo" "v2"]
              (boundState (Some exampleTutorial))).
Proof.
  apply (proj1 (proj2
           (navigateToStep_stash_path
              (exampleHost [] "" ["v1"] false (Some TutorialManager.stashAndContinue)
                           (Ok JValue.JNull))
              "step-2" (boundState (Some exampleTutorial)) exampleTutorial
              (StepNode.mk "step-2" "Step 2" "" "v2" (Some "step-1") [] "doc2.md")
              "/repo" eq_refl eq_refl eq_refl eq_refl eq_refl)) tt tt).
  - reflexivity.
  - reflexivity.
Defined.

(** X20. Once a navigation has fired the step, [getCurrentStep] returns
    that step, without changing anything, provided the step id is not the
    empty string; for a step whose id is empty it returns nothing although
    the navigation went through. *)
Theorem getCurrentStep_after_navigation {W : Type} (H : Host W) (stepId : string)
        (s s' : State W) (t : Tutorial.t) (step : StepNode.t) (r : Result unit) :
  currentTutorial s = Some t ->
  TutorialManager.findStep (Tutorial.steps t) stepId = Some step ->
  TutorialManager.navigateToStep H stepId s = (r, s') ->
  onStepChanged s' <> onStepChanged s ->
  TutorialManager.getCurrentStep s'
  = (Ok (if JS.truthy stepId then Some step else None), s').
Proof.
  intros Ht Hs Hnav Hfired.
  rewrite (navigateToStep_found H _ _ _ _ Ht Hs) in Hnav.
  destruct (navigateFrom_outcome H stepId step s t Ht) as [[_ Hsame]|[Hcur _]];
    rewrite Hnav in *; simpl in *; [congruence|].
  unfold TutorialManager.getCurrentStep, Eff.bind, Eff.get, Eff.ret.
  rewrite Hcur. simpl. destruct (JS.truthy stepId); [|reflexivity].
  now rewrite Hs.
Qed.

Lemma getCurrentStep_after_navigation_witness :
  TutorialManager.getCurrentStep
    (mkState tt (Some "/repo") (Some "/repo") [CallCheckout "/repo" "v2"]
       (Some (Tutorial.with_currentStepId exampleTutorial (Some "step-2"))) []
       [StepNode.mk "step-2" "Step 2" "" "v2" (Some "step-1") [] "doc2.md"])
  = (Ok (Some (StepNode.mk "step-2" "Step 2" "" "v2" (Some "step-1") [] "doc2.md")),
     mkState tt (Some "/repo") (Some "/repo") [CallCheckout "/repo" "v2"]
       (Some (Tutorial.with_currentStepId exampleTutorial (Some "step-2"))) []
       [StepNode.mk "step-2" "Step 2" "" "v2" (Some "step-1") [] "doc2.md"]).
Proof.
  apply (getCurrentStep_after_navigation
           (exampleHost [] "" ["v1"; "v2"] true None (Ok JValue.JNull))
           "step-2" (boundState (Some exampleTutorial)) _ exampleTutorial
           (StepNode.mk "step-2" "Step 2" "" "v2" (Some "step-1") [] "doc2.md")
           (Ok tt)).
  - reflexivity.
  - reflexivity.
  - reflexivity.
  - discriminate.
Defined.

Section LoadMore.
Context {W : Type} (H : Host W).

Lemma bind_readOnly_snd {A B} (c : Eff.M W A) (k : A -> Eff.M W B) (s : State W) :
  (forall a, readOnly (k a)) -> snd (Eff.bind c k s) = snd (c s).
Proof.
  intros Hk. unfold Eff.bind.
  destruct (c s) as [[a|e] s1]; simpl; [apply Hk | reflexivity].
Qed.

(** After the binding, [loadConfig] only reads. *)
Lemma loadConfig_state source (s : State W) :
  snd (loadConfig H source s)
  = if TutorialManager.isRemoteUrl source
    then snd (GitService.clone H source (cloneTarget H (world s)) s)
    else snd (GitService.initialize H source s).
Proof.
  unfold loadConfig. rewrite bind_readOnly_snd.
  - destruct (TutorialManager.isRemoteUrl source).
    + unfold Eff.bind at 1. unfold Eff.get. fold (cloneTarget H (world s)).
      apply bind_readOnly_snd. intros u. apply readOnly_ret.
    + apply bind_readOnly_snd. intros u. apply readOnly_ret.
  - intros repoPath. apply readOnly_bind; [apply findConfigFile_readOnly|].
    intros configPath. destruct (negb _); [apply readOnly_throw|].
    apply readOnly_bind; [apply parse_readOnly|]. intros config. apply readOnly_ret.
Qed.

(** The fields of the service and the world after a load are those
    [loadConfig] left. *)
Lemma loadTutorial_frame source (s : State W) :
  world (snd (TutorialManager.loadTutorial H source s)) = world (snd (loadConfig H source s))
  /\ git (snd (TutorialManager.loadTutorial H source s)) = git (snd (loadConfig H source s))
  /\ repoPath (snd (TutorialManager.loadTutorial H source s))
     = repoPath (snd (loadConfig H source s))
  /\ gitCalls (snd (TutorialManager.loadTutorial H source s))
     = gitCalls (snd (loadConfig H source s))
  /\ onStepChanged (snd (TutorialManager.loadTutorial H source s))
     = onStepChanged (snd (loadConfig H source s)).
Proof.
  rewrite loadTutorial_stages.
  destruct (loadConfig H source s) as [[[repoPath config]|e] s1]; simpl;
    [|now split_and!].
  pose proof (validateGitRefs_readOnly H config s1) as Hro.
  destruct (TutorialManager.validateGitRefs H config s1) as [[u|e] s2];
    simpl in *; subst; now split_and!.
Qed.

Lemma clone_state url targetPath (s : State W) :
  gitCalls (snd (GitService.clone H url targetPath s))
  = (gitCalls s ++ [CallClone url targetPath])%list
  /\ onStepChanged (snd (GitService.clone H url targetPath s)) = onStepChanged s.
Proof.
  unfold GitService.clone, GitService.initialize, Eff.bind, Eff.modify,
    Eff.query, Eff.command. simpl.
  destruct (git_clone H url targetPath (world s)) as [[u|e] w']; simpl;
    [|now split].
  destruct (simpleGit H targetPath w'); simpl; now split.
Qed.

Lemma initialize_state path (s : State W) :
  snd (GitService.initialize H path s)
  = mkState (world s)
            match simpleGit H path (world s) with
            | Ok _ => Some path
            | Throw _ => git s
            end
            (Some path) (gitCalls s) (currentTutorial s)
            (onTutorialLoaded s) (onStepChanged s).
Proof.
  unfold GitService.initialize, Eff.bind, Eff.modify, Eff.query. simpl.
  now destruct (simpleGit H path (world s)).
Qed.

(** What [loadConfig] returns went through [parse]. *)
Lemma loadConfig_wellFormed source (s s1 : State W) repoPath config :
  loadConfig H source s = (Ok (repoPath, config), s1) -> wellFormedConfig config.
Proof.
  unfold loadConfig. intros Hl.
  apply bind_inv in Hl as [(e & _ & [=])|(p & s2 & Hp & Hl)].
  apply bind_inv in Hl as [(e & _ & [=])|(cp & s3 & Hf & Hl)].
  destruct (negb (JS.truthy_opt cp)); [discriminate|].
  apply bind_inv in Hl as [(e & _ & [=])|(c & s4 & Hparse & Hr)].
  injection Hr as _ <- _.
  destruct (parse_Ok_inv H _ _ _ _ Hparse)
    as (_ & content & raw & r & _ & _ & Hv & Hok & Hc).
  destruct (validate_wellFormed raw r Hv Hok) as (config' & Hc' & Hwf).
  rewrite Hc in Hc'. now injection Hc' as <-.
Qed.

(** A load that succeeds went through all three stages. *)
Lemma loadTutorial_Ok_inv source (s s' : State W) tutorial :
  TutorialManager.loadTutorial H source s = (Ok tutorial, s') ->
  exists repoPath config s1,
    loadConfig H source s = (Ok (repoPath, config), s1)
    /\ offendingSteps H repoPath (world s1) (TutorialConfig.steps config) = []
    /\ tutorial = tutorialOf H repoPath config
    /\ s' = fire_onTutorialLoaded tutorial (set_currentTutorial (Some tutorial) s1).
Proof.
  rewrite loadTutorial_stages.
  destruct (loadConfig H source s) as [[[repoPath config]|e] s1] eqn:Hc;
    [|discriminate].
  rewrite (validateGitRefs_bound H config s1 repoPath (loadConfig_binds H _ _ _ _ _ Hc)).
  destruct (offendingSteps H repoPath (world s1) (TutorialConfig.steps config)) eqn:Hoff;
    [|discriminate].
  intros [= <- <-]. exists repoPath, config, s1. now split_and!.
Qed.

(** The tree of a well-formed list of configs, in closed form. *)
Lemma buildStepTree_closed (cfgs : list StepConfig.t) :
  NoDup (ids cfgs) ->
  Forall (fun c => StepConfig.id c <> "") cfgs ->
  ConfigParser.buildStepTree cfgs
  = map (fun c => StepNode.with_children (ConfigParser.newNode c)
                    (declaredChildren (StepConfig.id c) cfgs))
        cfgs.
Proof.
  intros Hnd Hne.
  rewrite buildStepTree_linked, createNodes_unique by assumption.
  unfold JSMap.values. rewrite !map_map. simpl.
  apply map_ext_in. intros c Hc. unfold linked, declaredChildren, ids.
  simpl. f_equal. rewrite filter_map_comm, map_map. simpl.
  f_equal. apply filter_ext. intros c'.
  apply isChildOf_newNode. rewrite Forall_forall in Hne. apply Hne.
  now apply list_elem_of_In.
Qed.

Lemma wellFormedStep_ids (cfgs : list StepConfig.t) :
  Forall wellFormedStep cfgs -> Forall (fun c => StepConfig.id c <> "") cfgs.
Proof.
  intros Hwf. eapply Forall_impl; [exact Hwf|]. now intros c [Hi _].
Qed.

Lemma offendingSteps_nil baseDir (w : W) (cfgs : list StepConfig.t) c :
  offendingSteps H baseDir w cfgs = [] -> In c cfgs ->
  resolves H baseDir w (StepConfig.gitRef c) = true.
Proof.
  unfold offendingSteps. intros Hoff Hin.
  destruct (resolves H baseDir w (StepConfig.gitRef c)) eqn:Hr; [reflexivity|].
  assert (In c (List.filter
                  (fun step => negb (resolves H baseDir w (StepConfig.gitRef step)))
                  cfgs)) as Hbad
      by (apply filter_In; split; [assumption | now rewrite Hr]).
  rewrite Hoff in Hbad. destruct Hbad.
Qed.
End LoadMore.

(** X21. A tutorial that [loadTutorial] returns is the current tutorial,
    fired once, with no current step, and the service is bound to its
    root.  It has at least one step; the step ids are non-empty and
    pairwise different; every step has a title, an explanation path and a
    ref that resolves in the repository; every parent named by a step is
    a step of the tutorial; and the children of a step are exactly the
    ids of the steps that name it as parent. *)
Theorem loadTutorial_result {W : Type} (H : Host W) (source : string)
        (s s' : State W) (tutorial : Tutorial.t) :
  TutorialManager.loadTutorial H source s = (Ok tutorial, s') ->
  currentTutorial s' = Some tutorial
  /\ onTutorialLoaded s' = (onTutorialLoaded s ++ [tutorial])%list
  /\ Tutorial.currentStepId tutorial = None
  /\ git s' = Some (Tutorial.rootPath tutorial)
  /\ Tutorial.steps tutorial <> []
  /\ NoDup (map StepNode.id (Tutorial.steps tutorial))
  /\ (forall n, In n (Tutorial.steps tutorial) ->
        StepNode.id n <> "" /\ StepNode.title n <> ""
        /\ StepNode.explanationPath n <> ""
        /\ StepNode.parentId n <> Some ""
        /\ resolves H (Tutorial.rootPath tutorial) (world s') (StepNode.gitRef n) = true)
  /\ (forall n p, In n (Tutorial.steps tutorial) ->
        StepNode.parentId n = Some p ->
        exists parent, In parent (Tutorial.steps tutorial) /\ StepNode.id parent = p)
  /\ (forall parent child, In parent (Tutorial.steps tutorial) ->
        (In child (StepNode.children parent)
         <-> exists n, In n (Tutorial.steps tutorial)
                       /\ StepNode.id n = child
                       /\ StepNode.parentId n = Some (StepNode.id parent))).
Proof.
  intros Hload.
  destruct (loadTutorial_Ok_inv H _ _ _ _ Hload)
    as (repoPath & config & s1 & Hc & Hoff & -> & ->).
  pose proof (loadConfig_keeps H source s) as (_ & K2 & _).
  rewrite Hc in K2. simpl in K2.
  pose proof (loadConfig_binds H _ _ _ _ _ Hc) as Hbound.
  destruct (loadConfig_wellFormed H _ _ _ _ _ Hc)
    as (_ & _ & _ & Hne & Hwf & Hnd & Hpar).
  pose proof (buildStepTree_closed _ Hnd (wellFormedStep_ids _ Hwf)) as Htree.
  rewrite Forall_forall in Hwf.
  assert (Hnode : forall n,
             In n (ConfigParser.buildStepTree (TutorialConfig.steps config)) ->
             exists c, In c (TutorialConfig.steps config)
                       /\ n = StepNode.with_children (ConfigParser.newNode c)
                                (declaredChildren (StepConfig.id c)
                                                  (TutorialConfig.steps config))).
  { intros n Hn. rewrite Htree in Hn. apply in_map_iff in Hn as (c & <- & Hc0).
    now exists c. }
  assert (Hof : forall c, In c (TutorialConfig.steps config) ->
             In (StepNode.with_children (ConfigParser.newNode c)
                   (declaredChildren (StepConfig.id c) (TutorialConfig.steps config)))
                (ConfigParser.buildStepTree (TutorialConfig.steps config))).
  { intros c Hc0. rewrite Htree.
    apply (in_map (fun c => StepNode.with_children (ConfigParser.newNode c)
                              (declaredChildren (StepConfig.id c)
                                                (TutorialConfig.steps config)))).
    assumption. }
  simpl. split_and!.
  - reflexivity.
  - now rewrite K2.
  - reflexivity.
  - assumption.
  - rewrite Htree. destruct (TutorialConfig.steps config); [congruence | discriminate].
  - rewrite Htree, map_map. exact Hnd.
  - intros n Hn. destruct (Hnode n Hn) as (c & Hc0 & ->). simpl.
    destruct (Hwf c) as (Hi & Ht & Hg & He); [now apply list_elem_of_In|].
    split_and!; try assumption.
    + destruct (StepConfig.parentId c) as [p|]; simpl; [|discriminate].
      destruct (JS.truthy p) eqn:E; [|discriminate].
      intros [= ->]. discriminate.
    + eapply offendingSteps_nil; eassumption.
  - intros n p Hn Hp. destruct (Hnode n Hn) as (c & Hc0 & ->). simpl in Hp.
    assert (Hcp : StepConfig.parentId c = Some p /\ p <> "").
    { destruct (StepConfig.parentId c) as [q|]; simpl in Hp; [|discriminate].
      destruct (JS.truthy q) eqn:E; [|discriminate].
      injection Hp as ->. split; [reflexivity|]. intros ->. discriminate. }
    destruct Hcp as [Hcp Hpne].
    pose proof (Hpar c p Hc0 Hcp Hpne) as Hin.
    apply in_map_iff in Hin as (c' & Hid & Hc').
    eexists. split; [apply (Hof c' Hc')|]. exact Hid.
  - intros parent child Hparent.
    destruct (Hnode parent Hparent) as (cp & Hcp & ->). simpl.
    destruct (Hwf cp) as (Hi & _); [now apply list_elem_of_In|].
    unfold declaredChildren, ids. rewrite in_map_iff. split.
    + intros (c & Hid & Hin). apply filter_In in Hin as [Hin Hdec].
      apply bool_decide_eq_true in Hdec.
      eexists. split; [apply (Hof c Hin)|]. simpl. split; [assumption|].
      now apply or_null_Some.
    + intros (n & Hn & Hid & Hp).
      destruct (Hnode n Hn) as (c & Hc0 & ->). simpl in Hid, Hp.
      exists c. split; [assumption|]. apply filter_In. split; [assumption|].
      apply bool_decide_eq_true. now apply (or_null_Some _ _ Hi).
Qed.

Lemma loadTutorial_result_witness :
  Tutorial.currentStepId
    (tutorialOf (exampleHost [] "" ["v1"] true None
                   (Ok (ofTutorialConfig
                          (TutorialConfig.mk "Demo" "A demo" "1.0.0"
                             [StepConfig.mk "step-1" "step-1" None "v1" None "doc.md"]))))
       "/repo"
       (TutorialConfig.mk "Demo" "A demo" "1.0.0"
          [StepConfig.mk "step-1" "step-1" None "v1" None "doc.md"]))
  = None.
Proof.
  refine (proj1 (proj2 (proj2 (loadTutorial_result
            (exampleHost [] "" ["v1"] true None
               (Ok (ofTutorialConfig
                      (TutorialConfig.mk "Demo" "A demo" "1.0.0"
                         [StepConfig.mk "step-1" "step-1" None "v1" None "doc.md"]))))
            "/repo" (mkState tt None None [] None [] []) _ _ _)))).
  vm_compute. reflexivity.
Defined.

(** X22. Loading issues no git command but the clone of a remote source
    (one clone, into a fresh directory under the temporary directory),
    and never fires a step.  For a local source the world is untouched,
    and the service is left on the new folder whether or not the load
    then succeeds: its path is the source, and its handle is the new one
    as soon as [simpleGit] accepted the folder. *)
Theorem loadTutorial_git_effects {W : Type} (H : Host W) (source : string)
        (s : State W) :
  gitCalls (snd (TutorialManager.loadTutorial H source s))
  = (gitCalls s
     ++ if TutorialManager.isRemoteUrl source
        then [CallClone source (cloneTarget H (world s))] else [])%list
  /\ onStepChanged (snd (TutorialManager.loadTutorial H source s)) = onStepChanged s
  /\ (TutorialManager.isRemoteUrl source = false ->
      world (snd (TutorialManager.loadTutorial H source s)) = world s
      /\ repoPath (snd (TutorialManager.loadTutorial H source s)) = Some source
      /\ git (snd (TutorialManager.loadTutorial H source s))
         = match simpleGit H source (world s) with
           | Ok _ => Some source
           | Throw _ => git s
           end).
Proof.
  destruct (loadTutorial_frame H source s) as (Hw & Hg & Hr & Hc & Ho).
  rewrite Hw, Hg, Hr, Hc, Ho, loadConfig_state.
  destruct (TutorialManager.isRemoteUrl source).
  - destruct (clone_state H source (cloneTarget H (world s)) s) as [-> ->].
    split_and!; [reflexivity | reflexivity | discriminate].
  - rewrite initialize_state. simpl. rewrite app_nil_r. now split_and!.
Qed.

(** X23. The id [generateTutorialId] gives a tutorial has the length of
    the base64 text of its path and holds none of the characters [/],
    [+] and [=]; every other character of the base64 text is kept, and
    each of those three is replaced by an underscore. *)
Theorem generateTutorialId_characters {W : Type} (H : Host W) (repoPath : string) :
  String.length (TutorialManager.generateTutorialId H repoPath)
  = String.length (base64 H repoPath)
  /\ forall i c,
       String.get i (TutorialManager.generateTutorialId H repoPath) = Some c ->
       c <> "/"%char /\ c <> "+"%char /\ c <> "="%char
       /\ exists c0, String.get i (base64 H repoPath) = Some c0
                     /\ c = if Ascii.eqb c0 "/" || Ascii.eqb c0 "+" || Ascii.eqb c0 "="
                            then "_"%char else c0.
Proof.
  unfold TutorialManager.generateTutorialId.
  generalize (base64 H repoPath) as b. intros b. split.
  - induction b as [|c0 b IH]; simpl; [reflexivity | now rewrite IH].
  - induction b as [|c0 b IH]; intros i c; simpl; [discriminate|].
    destruct i as [|i].
    + intros [= <-].
      destruct (Ascii.eqb c0 "/") eqn:E1; simpl.
      { split_and!; try discriminate. exists c0. now rewrite E1. }
      destruct (Ascii.eqb c0 "+") eqn:E2; simpl.
      { split_and!; try discriminate. exists c0. now rewrite E1, E2. }
      destruct (Ascii.eqb c0 "=") eqn:E3; simpl.
      { split_and!; try discriminate. exists c0. now rewrite E1, E2, E3. }
      apply Ascii.eqb_neq in E1, E2, E3. split_and!; try assumption.
      exists c0. split; [reflexivity|].
      apply Ascii.eqb_neq in E1, E2, E3. now rewrite E1, E2, E3.
    + apply IH.
Qed.

(** ** The views: what the tree and the diff list show *)

Section TreeView.

Lemma createTreeItems_spec (steps : list StepNode.t) (p : StepTreeProvider.t)
      (t : Tutorial.t) : forall tr,
  StepTreeProvider.tutorial p = Some t ->
  StepTreeProvider.createTreeItems steps p tr
  = (map (treeItemOf t tr) steps,
     match steps with
     | [] => tr
     | _ :: _ => snd (ProgressTracker.getProgress (Tutorial.id t) tr)
     end).
Proof.
  induction steps as [|step steps IH]; intros tr Ht; [reflexivity|].
  cbn [StepTreeProvider.createTreeItems].
  unfold StepTreeProvider.getStepStatus. rewrite Ht, getStepStatus_statusOf.
  rewrite (IH _ Ht). cbn [map]. f_equal.
  - f_equal. apply map_ext. intros step'.
    unfold treeItemOf. now rewrite statusOf_getProgress.
  - destruct steps; [reflexivity | apply getProgress_again].
Qed.

(** In the map [setTutorial] builds from steps with different ids, each
    step is found under its id. *)
Lemma stepMap_get (steps : list StepNode.t) (x : StepNode.t) :
  NoDup (map StepNode.id steps) ->
  In x steps ->
  JSMap.get (StepNode.id x)
            (fold_left (fun m step => JSMap.set (StepNode.id step) step m)
                       steps JSMap.empty)
  = Some x.
Proof.
  induction steps as [|y steps IH] using rev_ind; [intros _ []|].
  rewrite map_app, fold_left_app. simpl. intros Hnd Hin.
  apply NoDup_app in Hnd as (Hnd & Hdisj & _).
  apply in_app_or in Hin as [Hin|[<-|[]]].
  - rewrite get_set_other; [now apply IH|].
    intros Heq. apply (Hdisj (StepNode.id x)).
    + apply list_elem_of_In, in_map, Hin.
    + rewrite Heq. apply list_elem_of_here.
  - apply get_set_same.
Qed.

Lemma omap_get_ids (steps l : list StepNode.t) :
  NoDup (map StepNode.id steps) ->
  (forall x, In x l -> In x steps) ->
  omap (fun id =>
          JSMap.get id (fold_left (fun m step => JSMap.set (StepNode.id step) step m)
                                  steps JSMap.empty))
       (map StepNode.id l)
  = l.
Proof.
  intros Hnd. induction l as [|x l IH]; intros Hsub; [reflexivity|].
  simpl. rewrite (stepMap_get steps x Hnd) by (apply Hsub; now left).
  f_equal. apply IH. intros y Hy. apply Hsub. now right.
Qed.

(** In a built tree the children of a step are the ids of the steps of
    the tree that name it as their parent, in order. *)
Lemma buildStepTree_consistent (cfgs : list StepConfig.t) (n : StepNode.t) :
  In n (ConfigParser.buildStepTree cfgs) ->
  StepNode.children n
  = map StepNode.id
        (List.filter (isChildOf (StepNode.id n)) (ConfigParser.buildStepTree cfgs)).
Proof.
  rewrite buildStepTree_linked.
  set (nodes := JSMap.values (ConfigParser.createNodes cfgs)).
  intros Hn. apply in_map_iff in Hn as (x & <- & _).
  rewrite filter_map_comm, map_map. reflexivity.
Qed.
End TreeView.

(** X24. For a tutorial whose steps were built by [buildStepTree], the
    tree view shows under a step exactly the steps that name it as their
    parent, in their order in the tutorial, and at the root exactly the
    steps without a parent; every item carries the status the tracker's
    record gives its step and is expandable when the step has
    children. *)
Theorem getChildren_of_built_tree (cfgs : list StepConfig.t) (t : Tutorial.t)
        (p0 : StepTreeProvider.t) (tr : ProgressTracker.t)
        (element : StepTreeItem.t) :
  Tutorial.steps t = ConfigParser.buildStepTree cfgs ->
  In (StepTreeItem.stepNode element) (Tutorial.steps t) ->
  fst (StepTreeProvider.getChildren (Some element)
         (StepTreeProvider.setTutorial (Some t) p0) tr)
  = map (treeItemOf t tr)
        (List.filter (isChildOf (StepNode.id (StepTreeItem.stepNode element)))
                     (Tutorial.steps t))
  /\ fst (StepTreeProvider.getChildren None
            (StepTreeProvider.setTutorial (Some t) p0) tr)
     = map (treeItemOf t tr) (List.filter isRoot (Tutorial.steps t)).
Proof.
  intros Hsteps Hin. unfold StepTreeProvider.getChildren.
  cbn [StepTreeProvider.setTutorial StepTreeProvider.refresh
       StepTreeProvider.tutorial StepTreeProvider.stepMap].
  rewrite !(createTreeItems_spec _ _ t) by reflexivity.
  cbn [fst]. split; [|reflexivity]. f_equal.
  rewrite Hsteps in Hin |- *.
  rewrite (buildStepTree_consistent cfgs _ Hin).
  apply omap_get_ids.
  - rewrite buildStepTree_ids. apply firstOccurrences_NoDup.
  - intros x Hx. now apply filter_In in Hx as [Hx _].
Qed.

Lemma getChildren_of_built_tree_witness :
  fst (StepTreeProvider.getChildren
         (Some (StepTreeItem.new
                  (StepNode.mk "step-1" "Step 1" "" "v1" None ["step-2"] "doc1.md")
                  current StepTreeItem.Expanded))
         (StepTreeProvider.setTutorial (Some exampleTutorial) StepTreeProvider.init)
         (newTracker (fun _ => 0%Z)))
  = [StepTreeItem.new
       (StepNode.mk "step-2" "Step 2" "" "v2" (Some "step-1") [] "doc2.md")
       pending StepTreeItem.NotCollapsible].
Proof.
  apply (proj1 (getChildren_of_built_tree
                  [StepConfig.mk "step-1" "Step 1" None "v1" None "doc1.md";
                   StepConfig.mk "step-2" "Step 2" None "v2" (Some "step-1") "doc2.md"]
                  exampleTutorial StepTreeProvider.init (newTracker (fun _ => 0%Z))
                  (StepTreeItem.new
                     (StepNode.mk "step-1" "Step 1" "" "v1" None ["step-2"] "doc1.md")
                     current StepTreeItem.Expanded)
                  eq_refl (or_introl eq_refl))).
Defined.

Section DiffView.
Context {W : Type} (H : Host W).

Lemma getDiff_readOnly fromRef toRef : readOnly (GitService.getDiff H fromRef toRef).
Proof.
  unfold GitService.getDiff. apply readOnly_bind; [apply getGit_readOnly|].
  intros baseDir. apply readOnly_bind; [apply readOnly_query|]. intros summary.
  apply readOnly_bind; [apply readOnly_query|]. intros out. apply readOnly_ret.
Qed.

Lemma findIndex_app (pred : StepNode.t -> bool) (pre post : list StepNode.t)
      (s0 : StepNode.t) :
  Forall (fun s => pred s = false) pre -> pred s0 = true ->
  JSArray.findIndex pred (pre ++ s0 :: post) = Some (length pre).
Proof.
  intros Hpre Hs0. induction Hpre as [|y pre Hy Hpre IH]; simpl.
  - now rewrite Hs0.
  - now rewrite Hy, IH.
Qed.

Lemma showStepDiff_state currentStep previousStep repoPath v (s : State W) :
  snd (DiffViewerManager.showStepDiff H currentStep previousStep repoPath v s) = s.
Proof.
  unfold DiffViewerManager.showStepDiff.
  pose proof (getDiff_readOnly
                (JS.or_else (option_map StepNode.gitRef previousStep) "")
                (StepNode.gitRef currentStep) s) as Hro.
  now destruct (GitService.getDiff H _ _ s) as [[diffs|e] s1].
Qed.

(** The step before the first step with the id of [step]. *)
Lemma previousStepOf_predecessor (t : Tutorial.t) (step s0 : StepNode.t)
      (pre post : list StepNode.t) :
  Tutorial.steps t = (pre ++ s0 :: post)%list ->
  StepNode.id s0 = StepNode.id step ->
  ~ In (StepNode.id step) (map StepNode.id pre) ->
  Extension.previousStepOf t step = last pre.
Proof.
  intros Hsteps Hid Hnin. unfold Extension.previousStepOf.
  rewrite Hsteps, findIndex_app.
  - destruct pre as [|z pre] using rev_ind; [reflexivity|].
    rewrite length_app, Nat.add_comm. simpl.
    rewrite last_snoc, <- List.app_assoc.
    rewrite nth_error_app2 by lia. now rewrite Nat.sub_diag.
  - apply Forall_forall. intros y Hy. apply String.eqb_neq.
    intros Heq. apply Hnin. rewrite <- Heq. apply in_map.
    now apply list_elem_of_In.
  - rewrite Hid. apply String.eqb_refl.
Qed.
End DiffView.

(** X25. [showStepDiff] never changes the services and fires the list
    exactly once.  When git answers, the list shows the records of
    [getDiff] between the ref of the previous step and the ref of the
    step, and against the empty tree when there is no previous step.
    When [getDiff] fails, the message is shown and the list is emptied,
    but the repository path and the two refs it holds stay those of the
    diff shown before. *)
Theorem showStepDiff_outcome {W : Type} (H : Host W) (currentStep : StepNode.t)
        (previousStep : option StepNode.t) (repoPath : string)
        (v : DiffViewerManager.t) (s : State W) :
  snd (DiffViewerManager.showStepDiff H currentStep previousStep repoPath v s) = s
  /\ DiffFileListProvider.fired
       (DiffViewerManager.diffFileListProvider
          (fst (DiffViewerManager.showStepDiff H currentStep previousStep repoPath v s)))
     = S (DiffFileListProvider.fired (DiffViewerManager.diffFileListProvider v))
  /\ comparedRefs (diffBase None) (StepNode.gitRef currentStep)
     = [GitService.emptyTree; StepNode.gitRef currentStep]
  /\ (forall baseDir summary diffOutput,
         git s = Some baseDir ->
         git_diffSummary H baseDir
           (comparedRefs (diffBase previousStep) (StepNode.gitRef currentStep))
           (world s) = Ok summary ->
         git_diff H baseDir
           (comparedRefs (diffBase previousStep) (StepNode.gitRef currentStep))
           (world s) = Ok diffOutput ->
         fst (DiffViewerManager.showStepDiff H currentStep previousStep repoPath v s)
         = DiffViewerManager.mk
             (DiffFileListProvider.mk
                (map (GitService.fileDiffOf (diffBase previousStep)
                        (GitService.parseDiffOutput diffOutput)) summary)
                repoPath (diffBase previousStep) (StepNode.gitRef currentStep)
                (S (DiffFileListProvider.fired (DiffViewerManager.diffFileListProvider v))))
             (DiffViewerManager.errorMessages v))
  /\ (forall e s1,
         GitService.getDiff H (diffBase previousStep) (StepNode.gitRef currentStep) s
         = (Throw e, s1) ->
         fst (DiffViewerManager.showStepDiff H currentStep previousStep repoPath v s)
         = DiffViewerManager.mk
             (DiffFileListProvider.mk []
                (DiffFileListProvider.repoPath (DiffViewerManager.diffFileListProvider v))
                (DiffFileListProvider.fromRef (DiffViewerManager.diffFileListProvider v))
                (DiffFileListProvider.toRef (DiffViewerManager.diffFileListProvider v))
                (S (DiffFileListProvider.fired (DiffViewerManager.diffFileListProvider v))))
             (DiffViewerManager.errorMessages v
              ++ ["获取 diff 失败: " ++ JsError.message e])).
Proof.
  unfold DiffViewerManager.showStepDiff. fold (diffBase previousStep).
  pose proof (getDiff_readOnly H (diffBase previousStep) (StepNode.gitRef currentStep) s)
    as Hro.
  split_and!.
  - destruct (GitService.getDiff H _ _ s) as [[diffs|e] s1]; exact Hro.
  - now destruct (GitService.getDiff H _ _ s) as [[diffs|e] s1].
  - reflexivity.
  - intros baseDir summary diffOutput Hg Hsum Hdiff.
    now rewrite (getDiff_run H _ _ _ _ _ _ Hg Hsum Hdiff).
  - intros e s1 Hd. now rewrite Hd.
Qed.

(** X26. The listener of [onStepChanged] takes as the base of a step's
    diff the step that precedes it in the tutorial's list, whatever the
    parent of the step is, and no base (the empty tree) for the first
    step of the list.  It makes the step current in the tracker's record
    of the tutorial, refreshes the tree once, and asks for the
    explanation file of the step under the tutorial's root.  Without a
    current tutorial it does nothing. *)
Theorem listener_diffs_against_predecessor {W : Type} (H : Host W)
        (step s0 : StepNode.t) (pre post : list StepNode.t) (t : Tutorial.t)
        (x : Extension.t) (s : State W) :
  currentTutorial s = Some t ->
  Tutorial.steps t = (pre ++ s0 :: post)%list ->
  StepNode.id s0 = StepNode.id step ->
  ~ In (StepNode.id step) (map StepNode.id pre) ->
  Extension.onStepChangedListener H step x s
  = (Extension.mk
       (ProgressTracker.setCurrentStep (Tutorial.id t) (StepNode.id step)
          (Extension.progressTracker x))
       (StepTreeProvider.refresh (Extension.stepTreeProvider x))
       (fst (DiffViewerManager.showStepDiff H step (last pre) (Tutorial.rootPath t)
               (Extension.diffViewerManager x) s))
       (Extension.explanationRequests x
        ++ [(path_join H (Tutorial.rootPath t) (StepNode.explanationPath step),
             StepNode.title step)]),
     s)
  /\ forall s', currentTutorial s' = None ->
                Extension.onStepChangedListener H step x s' = (x, s').
Proof.
  intros Ht Hsteps Hid Hnin. split.
  - unfold Extension.onStepChangedListener. rewrite Ht.
    rewrite (previousStepOf_predecessor t step s0 pre post Hsteps Hid Hnin).
    pose proof (showStepDiff_state H step (last pre) (Tutorial.rootPath t)
                  (Extension.diffViewerManager x) s) as Hs.
    destruct (DiffViewerManager.showStepDiff H step (last pre) (Tutorial.rootPath t)
                (Extension.diffViewerManager x) s) as [diff s1].
    simpl in *. now subst.
  - intros s' Hnone. unfold Extension.onStepChangedListener. now rewrite Hnone.
Qed.

Lemma listener_diffs_against_predecessor_witness :
  DiffFileListProvider.fromRef
    (DiffViewerManager.diffFileListProvider
       (Extension.diffViewerManager
          (fst (Extension.onStepChangedListener
                  (exampleHost growSummary growDiff ["v1"; "v2"] true None
                               (Ok JValue.JNull))
                  (StepNode.mk "step-2" "Step 2" "" "v2" (Some "step-1") [] "doc2.md")
                  (Extension.mk (newTracker (fun _ => 0%Z)) StepTreeProvider.init
                                DiffViewerManager.init [])
                  (boundState (Some exampleTutorial))))))
  = "v1".
Proof.
  rewrite (proj1 (listener_diffs_against_predecessor
             (exampleHost growSummary growDiff ["v1"; "v2"] true None (Ok JValue.JNull))
             (StepNode.mk "step-2" "Step 2" "" "v2" (Some "step-1") [] "doc2.md")
             (StepNode.mk "step-2" "Step 2" "" "v2" (Some "step-1") [] "doc2.md")
             [StepNode.mk "step-1" "Step 1" "" "v1" None ["step-2"] "doc1.md"] []
             exampleTutorial
             (Extension.mk (newTracker (fun _ => 0%Z)) StepTreeProvider.init
                           DiffViewerManager.init [])
             (boundState (Some exampleTutorial))
             eq_refl eq_refl eq_refl
             (fun Hin => match Hin with
                         | or_introl E => ltac:(discriminate E)
                         | or_intror F => F
                         end))).
  reflexivity.
Defined.

(** ** The snippet list *)

Section Snippets.

Lemma snippet_exists_In (snippetId : string) (l : list CodeSnippet.t) :
  existsb (fun s => String.eqb (CodeSnippet.id s) snippetId) l = true
  <-> In snippetId (map CodeSnippet.id l).
Proof.
  rewrite existsb_exists, in_map_iff. split.
  - intros (x & Hx & E). apply String.eqb_eq in E. exists x. now split.
  - intros (x & E & Hx). exists x. split; [assumption|].
    now apply String.eqb_eq.
Qed.

Lemma findIndex_Some {A} (pred : A -> bool) (l : list A) (i : nat) :
  JSArray.findIndex pred l = Some i ->
  exists x, l !! i = Some x /\ pred x = true
            /\ Forall (fun y => pred y = false) (take i l).
Proof.
  revert i. induction l as [|y l IH]; intros i; simpl; [discriminate|].
  destruct (pred y) eqn:Hy.
  - intros [= <-]. exists y. split_and!; [reflexivity | assumption | constructor].
  - destruct (JSArray.findIndex pred l) as [j|]; simpl; [|discriminate].
    intros [= <-]. destruct (IH j eq_refl) as (x & Hx & Hp & Hall).
    exists x. split_and!; try assumption. simpl. now constructor.
Qed.

Lemma findIndex_None {A} (pred : A -> bool) (l : list A) :
  JSArray.findIndex pred l = None <-> Forall (fun y => pred y = false) l.
Proof.
  induction l as [|y l IH]; simpl.
  - split; [constructor | reflexivity].
  - destruct (pred y) eqn:Hy.
    + split; [discriminate|]. intros Hall. apply Forall_inv in Hall. congruence.
    + destruct (JSArray.findIndex pred l) as [j|]; simpl.
      * split; [discriminate|]. intros Hall. apply Forall_inv_tail in Hall.
        now apply IH in Hall.
      * split; [|reflexivity]. intros _. constructor; [assumption|]. now apply IH.
Qed.

Lemma findIndex_snoc {A} (pred : A -> bool) (l : list A) (x : A) :
  Forall (fun y => pred y = false) l -> pred x = true ->
  JSArray.findIndex pred (l ++ [x]) = Some (length l).
Proof.
  intros Hall Hx. induction Hall as [|y l Hy Hall IH]; simpl.
  - now rewrite Hx.
  - now rewrite Hy, IH.
Qed.

Lemma removeSnippet_unique (snippetId : string) (m : ExportModule.t) :
  NoDup (snippetIds m) -> NoDup (snippetIds (ExportModule.removeSnippet snippetId m)).
Proof.
  unfold ExportModule.removeSnippet, snippetIds. intros Hnd.
  destruct (JSArray.findIndex _ (ExportModule.snippetList m)) as [i|] eqn:Hi;
    [|assumption].
  destruct (findIndex_Some _ _ _ Hi) as (x & Hx & _). simpl.
  rewrite <- (take_drop_middle _ _ _ Hx), map_app in Hnd. simpl in Hnd.
  unfold JSArray.spliceOne. rewrite map_app.
  apply NoDup_app in Hnd as (Hpre & Hdisj & Hpost).
  apply NoDup_cons in Hpost as [_ Hpost].
  apply NoDup_app. split_and!; [assumption | | assumption].
  intros y Hy Hk. apply (Hdisj y Hy). now apply list_elem_of_further.
Qed.

Lemma addSnippet_unique (snippet : CodeSnippet.t) (m : ExportModule.t) :
  NoDup (snippetIds m) -> NoDup (snippetIds (ExportModule.addSnippet snippet m)).
Proof.
  unfold ExportModule.addSnippet, snippetIds. intros Hnd.
  destruct (existsb _ (ExportModule.snippetList m)) eqn:He; simpl; [assumption|].
  rewrite map_app. simpl. apply NoDup_snoc; [assumption|].
  intros Hin. apply snippet_exists_In in Hin. congruence.
Qed.
End Snippets.

(** X29. The export list never holds two snippets with the same id,
    whatever sequence of additions, removals and clearings is made.
    Adding a snippet whose id is on the list changes nothing and fires
    nothing, and so does removing an id that is not on the list; adding
    a snippet with a new id and removing that id again restores the
    list, having fired twice. *)
Theorem snippet_list_ids_unique (calls : list SnippetCall) (m : ExportModule.t) :
  NoDup (snippetIds m) ->
  NoDup (snippetIds (runSnippetCalls calls m))
  /\ (forall snippet, In (CodeSnippet.id snippet) (snippetIds m) ->
                      ExportModule.addSnippet snippet m = m)
  /\ (forall snippetId, ~ In snippetId (snippetIds m) ->
                        ExportModule.removeSnippet snippetId m = m)
  /\ (forall snippet, ~ In (CodeSnippet.id snippet) (snippetIds m) ->
        ExportModule.removeSnippet (CodeSnippet.id snippet)
          (ExportModule.addSnippet snippet m)
        = ExportModule.mk (ExportModule.snippetList m) (S (S (ExportModule.fired m)))).
Proof.
  intros Hnd. split_and!.
  - unfold runSnippetCalls. revert m Hnd.
    induction calls as [|c calls IH]; intros m Hnd; simpl; [assumption|].
    apply IH. destruct c; simpl.
    + now apply addSnippet_unique.
    + now apply removeSnippet_unique.
    + constructor.
  - intros snippet Hin. unfold ExportModule.addSnippet.
    apply snippet_exists_In in Hin. now rewrite Hin.
  - intros snippetId Hnin. unfold ExportModule.removeSnippet.
    assert (Hnone : JSArray.findIndex
                      (fun s => String.eqb (CodeSnippet.id s) snippetId)
                      (ExportModule.snippetList m) = None).
    { apply findIndex_None, Forall_forall. intros y Hy. apply String.eqb_neq.
      intros Heq. apply Hnin. unfold snippetIds. rewrite <- Heq.
      apply in_map. now apply list_elem_of_In. }
    now rewrite Hnone.
  - intros snippet Hnin. unfold ExportModule.addSnippet.
    assert (He : existsb (fun s => String.eqb (CodeSnippet.id s) (CodeSnippet.id snippet))
                         (ExportModule.snippetList m) = false).
    { destruct (existsb _ (ExportModule.snippetList m)) eqn:He; [|reflexivity].
      apply snippet_exists_In in He. contradiction. }
    rewrite He. simpl. unfold ExportModule.removeSnippet. simpl.
    rewrite findIndex_snoc.
    + unfold JSArray.spliceOne.
      rewrite take_app_length, drop_ge by (rewrite length_app; simpl; lia).
      now rewrite app_nil_r.
    + apply Forall_forall. intros y Hy. apply String.eqb_neq.
      intros Heq. apply Hnin. unfold snippetIds. rewrite <- Heq.
      apply in_map. now apply list_elem_of_In.
    + apply String.eqb_refl.
Qed.

Lemma snippet_list_ids_unique_witness :
  NoDup (snippetIds
           (runSnippetCalls
              [CallAddSnippet (CodeSnippet.mk "1" "a.ts" None None "x" "step-1");
               CallAddSnippet (CodeSnippet.mk "1" "b.ts" None None "y" "step-1");
               CallRemoveSnippet "2"]
              ExportModule.init)).
Proof.
  apply (proj1 (snippet_list_ids_unique _ ExportModule.init NoDup_nil_2)).
Defined.

(** ** From a navigation to the record of progress *)

Section NavigationProgress.
Context {W : Type} (H : Host W).

Lemma findStep_id (steps : list StepNode.t) (stepId : string) (step : StepNode.t) :
  TutorialManager.findStep steps stepId = Some step -> StepNode.id step = stepId.
Proof.
  unfold TutorialManager.findStep. intros Hf.
  apply List.find_some in Hf as [_ E]. now apply String.eqb_eq in E.
Qed.

Lemma listener_tracker (step : StepNode.t) (x : Extension.t) (s : State W)
      (t : Tutorial.t) :
  currentTutorial s = Some t ->
  Extension.progressTracker (fst (Extension.onStepChangedListener H step x s))
  = ProgressTracker.setCurrentStep (Tutorial.id t) (StepNode.id step)
      (Extension.progressTracker x).
Proof.
  intros Ht. unfold Extension.onStepChangedListener. rewrite Ht.
  now destruct (DiffViewerManager.showStepDiff H step _ _ _ s).
Qed.

(** A navigation that fired left the tutorial at the step. *)
Lemma navigateToStep_fired (stepId : string) (s s' : State W) (t : Tutorial.t)
      (step : StepNode.t) (r : Result unit) :
  currentTutorial s = Some t ->
  TutorialManager.findStep (Tutorial.steps t) stepId = Some step ->
  TutorialManager.navigateToStep H stepId s = (r, s') ->
  onStepChanged s' <> onStepChanged s ->
  currentTutorial s' = Some (Tutorial.with_currentStepId t (Some stepId)).
Proof.
  intros Ht Hs Hnav Hfired.
  rewrite (navigateToStep_found H _ _ _ _ Ht Hs) in Hnav.
  destruct (navigateFrom_outcome H stepId step s t Ht) as [[_ Hsame]|[Hcur _]];
    rewrite Hnav in *; simpl in *; [congruence | assumption].
Qed.
End NavigationProgress.

(** X30. Through the extension, moving on records progress: when a
    navigation to a step [a] (with a non-empty id) and then one to
    another step [b] both fire, and the listener runs after each, the
    tracker reports [a] as completed and [b] as current for the
    tutorial. *)
Theorem navigation_records_progress {W : Type} (H : Host W) (a b : string)
        (s0 s1 s2 : State W) (r1 r2 : Result unit) (t : Tutorial.t)
        (stepA stepB : StepNode.t) (x0 : Extension.t) :
  currentTutorial s0 = Some t ->
  TutorialManager.findStep (Tutorial.steps t) a = Some stepA ->
  TutorialManager.findStep (Tutorial.steps t) b = Some stepB ->
  JS.truthy a = true ->
  a <> b ->
  TutorialManager.navigateToStep H a s0 = (r1, s1) ->
  onStepChanged s1 <> onStepChanged s0 ->
  TutorialManager.navigateToStep H b s1 = (r2, s2) ->
  onStepChanged s2 <> onStepChanged s1 ->
  let x1 := fst (Extension.onStepChangedListener H stepA x0 s1) in
  let x2 := fst (Extension.onStepChangedListener H stepB x1 s2) in
  fst (ProgressTracker.getStepStatus (Tutorial.id t) a (Extension.progressTracker x2))
  = completed
  /\ fst (ProgressTracker.getStepStatus (Tutorial.id t) b (Extension.progressTracker x2))
     = current.
Proof.
  intros Ht Ha Hb Hta Hne Hnav1 Hf1 Hnav2 Hf2 x1 x2. subst x1 x2.
  pose proof (navigateToStep_fired H a s0 s1 t stepA r1 Ht Ha Hnav1 Hf1) as Ht1.
  pose proof (navigateToStep_fired H b s1 s2 _ stepB r2 Ht1 Hb Hnav2 Hf2) as Ht2.
  rewrite (listener_tracker H stepB _ s2 _ Ht2), (listener_tracker H stepA _ s1 _ Ht1).
  rewrite (findStep_id _ _ _ Ha), (findStep_id _ _ _ Hb). simpl.
  rewrite !getStepStatus_statusOf. simpl. unfold statusOf.
  rewrite !currentOf_setCurrentStep, completedOf_setCurrentStep. split.
  - rewrite bool_decide_eq_false_2 by congruence.
    rewrite includes_app. unfold previousToComplete.
    rewrite currentOf_setCurrentStep, Hta.
    apply String.eqb_neq in Hne. rewrite Hne. simpl.
    destruct (ProgressTracker.includes _ a) eqn:Hinc; simpl; [reflexivity|].
    unfold ProgressTracker.includes. simpl. now rewrite String.eqb_refl.
  - now rewrite bool_decide_eq_true_2.
Qed.

Lemma navigation_records_progress_witness :
  fst (ProgressTracker.getStepStatus "demo" "step-1"
         (Extension.progressTracker
            (fst (Extension.onStepChangedListener
                    (exampleHost [] "" ["v1"; "v2"] true None (Ok JValue.JNull))
                    (StepNode.mk "step-2" "Step 2" "" "v2" (Some "step-1") [] "doc2.md")
                    (fst (Extension.onStepChangedListener
                            (exampleHost [] "" ["v1"; "v2"] true None (Ok JValue.JNull))
                            (StepNode.mk "step-1" "Step 1" "" "v1" None ["step-2"]
                                         "doc1.md")
                            (Extension.mk (newTracker (fun _ => 0%Z))
                                          StepTreeProvider.init DiffViewerManager.init [])
                            (snd (TutorialManager.navigateToStep
                                    (exampleHost [] "" ["v1"; "v2"] true None
                                                 (Ok JValue.JNull))
                                    "step-1" (boundState (Some exampleTutorial))))))
                    (snd (TutorialManager.navigateToStep
                            (exampleHost [] "" ["v1"; "v2"] true None (Ok JValue.JNull))
                            "step-2"
                            (snd (TutorialManager.navigateToStep
                                    (exampleHost [] "" ["v1"; "v2"] true None
                                                 (Ok JValue.JNull))
                                    "step-1" (boundState (Some exampleTutorial))))))))))
  = completed.
Proof.
  refine (proj1 (navigation_records_progress
            (exampleHost [] "" ["v1"; "v2"] true None (Ok JValue.JNull))
            "step-1" "step-2" (boundState (Some exampleTutorial)) _ _ (Ok tt) (Ok tt)
            exampleTutorial
            (StepNode.mk "step-1" "Step 1" "" "v1" None ["step-2"] "doc1.md")
            (StepNode.mk "step-2" "Step 2" "" "v2" (Some "step-1") [] "doc2.md")
            (Extension.mk (newTracker (fun _ => 0%Z)) StepTreeProvider.init
                          DiffViewerManager.init [])
            eq_refl eq_refl eq_refl eq_refl _ _ _ _ _)).
  - discriminate.
  - vm_compute. reflexivity.
  - vm_compute. discriminate.
  - vm_compute. reflexivity.
  - vm_compute. discriminate.
Defined.
